(** * ESP32 simulator (server.js): state-and-encryption engine

    A shallow embedding of [src/server.js].  The process-wide mutable
    variables of the script ([deviceState], [currentEncAlgo],
    [sensorHistory]) are threaded explicitly as a [State]; every handler
    is a function from the state and the values it reads from the outside
    (request body, clock, entropy) to the new state, the effects it
    performs ([io.emit], [console.error], the outbound HTTP request) and,
    for a route, the response it sends.

    The file has four parts: the runtime the script calls into (the
    numbers, [crypto] with SHA-256, AES-256-CBC and triple DES in CBC
    mode, [Buffer], [Date], a [JSON] for integer data and a [URL] for
    plain http addresses), the script itself, the properties, and the
    model run on concrete inputs.  [JSON.stringify], [JSON.parse] and
    [new URL] are parameters of the script's model, so that what is
    proved holds for the runtime's own.

    What the model leaves out or takes for granted: [console.log] tracing
    is left out ([console.error] in the [catch] blocks is kept); a request
    body is an object; a query parameter is absent, a string, an array or
    an object, as the query parser hands it over; a number is a binary64
    double, given by its exact value, with the two zeros taken as one;
    clock readings are integer time values whose differences are exact
    (dates less than 285 000 years apart). *)

From Stdlib Require Import ZArith List String Ascii Bool Lia QArith Qround Btauto.
From Stdlib.Strings Require Import Byte.
From Stdlib Require Import Lqa Qpower.
Import ListNotations.

Set Warnings "-register-all".

Local Open Scope string_scope.
Local Open Scope list_scope.
Local Open Scope Z_scope.

(** ** JavaScript values *)

(** What a statement of the script can do: complete, or throw an [Error]
    with a message. *)
Inductive Result (A : Type) : Type :=
| Ok (a : A)
| Throw (msg : string).
Arguments Ok {A} a.
Arguments Throw {A} msg.

Definition bind {A B : Type} (r : Result A) (k : A -> Result B) : Result B :=
  match r with
  | Ok a => k a
  | Throw msg => Throw msg
  end.

Notation "x <- r ;; k" := (bind r (fun x => k))
  (at level 61, r at next level, right associativity).

(** ** Numbers *)

(** A JavaScript number is a binary64 double.  A finite one is given by
    its exact value; the two zeros are one value here, which no operation
    of the script tells apart. *)
Module Double.

Inductive double : Type :=
| Finite (q : Q)
| Infinity (negative : bool)
| NaN.

Bind Scope Q_scope with double.

Definition pow2 (e : Z) : Q := Qpower 2 e.

(** The integer part of the binary logarithm of a positive number. *)
Definition ilog2 (q : Q) : Z :=
  let d := Z.log2 (Qnum q) - Z.log2 (Zpos (Qden q)) in
  if Qle_bool (pow2 d) q then d else d - 1.

(** The nearest integer, the even one of two that are equally near. *)
Definition nearest_even (y : Q) : Z :=
  let f := Qfloor y in
  match (y - inject_Z f ?= 1 # 2)%Q with
  | Lt => f
  | Gt => f + 1
  | Eq => if Z.even f then f else f + 1
  end.

(** The exponent of the last of the 53 bits of a positive number; -1074
    is the one of the subnormal numbers. *)
Definition ulp_exponent (q : Q) : Z := Z.max (-1074) (ilog2 q - 52).

(** A positive number rounded to the nearest double; [None] when that
    is beyond the largest one. *)
Definition round_magnitude (q : Q) : option Q :=
  let e := ulp_exponent q in
  let m := nearest_even (q * pow2 (- e)) in
  let v := (inject_Z m * pow2 e)%Q in
  if Qle_bool (pow2 1024) v then None else Some (Qred v).

(** The double an exact result is rounded to. *)
Definition round (q : Q) : double :=
  match (q ?= 0)%Q with
  | Eq => Finite 0
  | Gt => match round_magnitude q with
          | Some v => Finite v
          | None => Infinity false
          end
  | Lt => match round_magnitude (- q) with
          | Some v => Finite (- v)
          | None => Infinity true
          end
  end.

(** A value is a double when rounding leaves it as it is. *)
Definition representable (q : Q) : Prop :=
  exists v, round q = Finite v /\ (v == q)%Q.

Definition opp (x : double) : double :=
  match x with
  | Finite q => Finite (- q)
  | Infinity s => Infinity (negb s)
  | NaN => NaN
  end.

(** [x + y] *)
Definition add (x y : double) : double :=
  match x, y with
  | NaN, _ | _, NaN => NaN
  | Finite a, Finite b => round (a + b)
  | Infinity s, Finite _ | Finite _, Infinity s => Infinity s
  | Infinity s, Infinity t => if Bool.eqb s t then Infinity s else NaN
  end.

(** [x - y] *)
Definition sub (x y : double) : double := add x (opp y).

Definition is_negative (q : Q) : bool := negb (Qle_bool 0 q).

(** [x * y] *)
Definition mul (x y : double) : double :=
  match x, y with
  | NaN, _ | _, NaN => NaN
  | Finite a, Finite b => round (a * b)
  | Infinity s, Finite q | Finite q, Infinity s =>
      if Qeq_bool q 0 then NaN else Infinity (xorb s (is_negative q))
  | Infinity s, Infinity t => Infinity (xorb s t)
  end.

(** [Math.floor(x)] *)
Definition floor (x : double) : double :=
  match x with
  | Finite q => Finite (inject_Z (Qfloor q))
  | _ => x
  end.

(** Truthiness of a number: [NaN] and zero are falsy. *)
Definition truthy (x : double) : bool :=
  match x with
  | Finite q => negb (Qeq_bool q 0)
  | Infinity _ => true
  | NaN => false
  end.

(** [x || d] *)
Definition or (x d : double) : double := if truthy x then x else d.

(** [x <= y] *)
Definition leb (x y : double) : bool :=
  match x, y with
  | NaN, _ | _, NaN => false
  | Finite a, Finite b => Qle_bool a b
  | Finite _, Infinity s => negb s
  | Infinity s, Finite _ => s
  | Infinity s, Infinity t => s || negb t
  end.

(** An integer that is a double, such as a time value or a difference
    of two. *)
Definition of_Z (z : Z) : double := Finite (inject_Z z).

End Double.

Abbreviation double := Double.double.
Abbreviation Finite := Double.Finite.
Abbreviation Infinity := Double.Infinity.
Abbreviation NaN := Double.NaN.
#[global] Coercion Double.Finite : Q >-> Double.double.

(** The values that travel in request bodies, event payloads and response
    bodies.  A [Date] is its epoch time in milliseconds. *)
Inductive JsValue : Type :=
| JUndefined
| JNull
| JBool (b : bool)
| JNum (d : double)
| JStr (s : string)
| JDate (ms : Z)
| JArr (items : list JsValue)
| JObj (fields : list (string * JsValue)).

Arguments JNum d%_Q.

Definition JInt (z : Z) : JsValue := JNum (Double.of_Z z).

(** [v === 'lit'], [v === n], [v === b]: strict equality against a literal. *)
Definition strict_eq_str (v : JsValue) (lit : string) : bool :=
  match v with
  | JStr s => String.eqb s lit
  | _ => false
  end.

Definition strict_eq_num (v : JsValue) (n : Z) : bool :=
  match v with
  | JNum (Finite q) => Qeq_bool q (inject_Z n)
  | _ => false
  end.

Definition strict_eq_bool (v : JsValue) (b : bool) : bool :=
  match v with
  | JBool c => Bool.eqb c b
  | _ => false
  end.

(** [typeof v !== 'undefined'] *)
Definition is_defined (v : JsValue) : bool :=
  match v with
  | JUndefined => false
  | _ => true
  end.

(** Property read on an object literal: [o.k]. *)
Fixpoint get_field (k : string) (fields : list (string * JsValue)) : JsValue :=
  match fields with
  | [] => JUndefined
  | (k', v) :: rest => if String.eqb k k' then v else get_field k rest
  end.

Definition prop (k : string) (v : JsValue) : JsValue :=
  match v with
  | JObj fields => get_field k fields
  | _ => JUndefined
  end.

(** ** Strings *)

Definition is_lower (c : ascii) : bool :=
  let n := nat_of_ascii c in (97 <=? n)%nat && (n <=? 122)%nat.

Definition upper_ascii (c : ascii) : ascii :=
  if is_lower c then ascii_of_nat (nat_of_ascii c - 32) else c.

(** [s.toUpperCase()] on the UTF-8 bytes of [s].  ASCII letters are mapped
    to their capitals.  Of the characters outside ASCII only U+017F (long
    s, bytes C5 BF) has an upper case that is a letter of a registry key
    ([S]); it is mapped, the others are left as they are, which does not
    change whether the result is a registry key. *)
Fixpoint toUpperCase (s : string) : string :=
  match s with
  | EmptyString => EmptyString
  | String c rest =>
      match rest with
      | String d rest' =>
          if (Ascii.eqb c "197"%char && Ascii.eqb d "191"%char)%bool
          then String "S"%char (toUpperCase rest')
          else String (upper_ascii c) (toUpperCase rest)
      | EmptyString => String (upper_ascii c) EmptyString
      end
  end.

(** ** Numbers in text *)

(** The white space and line terminators of one byte: TAB, LF, VT, FF,
    CR and the space. *)
Definition is_space (c : ascii) : bool :=
  let n := nat_of_ascii c in
  ((n =? 32) || (9 <=? n) && (n <=? 13))%nat.

(** The last byte of the white space that is encoded [E2 80 xx]: U+2000
    to U+200A, U+2028, U+2029 and U+202F. *)
Definition is_space_2000 (c : ascii) : bool :=
  let n := nat_of_ascii c in
  ((128 <=? n) && (n <=? 138) || (n =? 168) || (n =? 169) || (n =? 175))%nat.

Definition digit_val (c : ascii) : option Z :=
  let n := nat_of_ascii c in
  if ((48 <=? n) && (n <=? 57))%nat then Some (Z.of_nat (n - 48))
  else if ((97 <=? n) && (n <=? 102))%nat then Some (Z.of_nat (n - 87))
  else if ((65 <=? n) && (n <=? 70))%nat then Some (Z.of_nat (n - 55))
  else None.

(** The string without the white space it starts with, on the UTF-8
    bytes of the string: the white space of one byte and U+00A0, U+1680,
    U+2000 to U+200A, U+2028, U+2029, U+202F, U+205F, U+3000 and
    U+FEFF. *)
Fixpoint skip_space (s : string) : string :=
  match s with
  | String c rest =>
      if is_space c then skip_space rest
      else
        match nat_of_ascii c, rest with
        | 194%nat, String d r =>
            if (nat_of_ascii d =? 160)%nat then skip_space r else s
        | 225%nat, String d (String e r) =>
            if ((nat_of_ascii d =? 154) && (nat_of_ascii e =? 128))%nat
            then skip_space r else s
        | 226%nat, String d (String e r) =>
            if ((nat_of_ascii d =? 128)%nat && is_space_2000 e)
               || ((nat_of_ascii d =? 129) && (nat_of_ascii e =? 159))%nat
            then skip_space r else s
        | 227%nat, String d (String e r) =>
            if ((nat_of_ascii d =? 128) && (nat_of_ascii e =? 128))%nat
            then skip_space r else s
        | 239%nat, String d (String e r) =>
            if ((nat_of_ascii d =? 187) && (nat_of_ascii e =? 191))%nat
            then skip_space r else s
        | _, _ => s
        end
  | EmptyString => s
  end.

(** The longest prefix of digits of the radix, read as a number; [None]
    when there is no digit at all. *)
Fixpoint read_digits (radix : Z) (acc : option Z) (s : string) : option Z :=
  match s with
  | String c rest =>
      match digit_val c with
      | Some d =>
          if d <? radix
          then read_digits radix (Some (match acc with Some a => a * radix + d | None => d end)) rest
          else acc
      | None => acc
      end
  | EmptyString => acc
  end.

Definition read_unsigned (s : string) : option Z :=
  match s with
  | String "0"%char (String "x"%char rest) => read_digits 16 None rest
  | String "0"%char (String "X"%char rest) => read_digits 16 None rest
  | _ => read_digits 10 None s
  end.

(** The integer [parseInt] reads, before it is made a number. *)
Definition parse_integer (s : string) : option Z :=
  match skip_space s with
  | String "-"%char rest => option_map Z.opp (read_unsigned rest)
  | String "+"%char rest => read_unsigned rest
  | t => read_unsigned t
  end.

(** [parseInt(v)] of an environment variable: the integer read, as the
    double nearest to it (the runtime reads all the digits); [NaN] when
    there is no digit, and for a variable that is not set. *)
Definition parseInt (v : option string) : double :=
  match v with
  | None => NaN
  | Some s =>
      match parse_integer s with
      | Some n => Double.round (inject_Z n)
      | None => NaN
      end
  end.

(** * The runtime: [crypto], [Buffer], [Date] and [JSON] *)

(** ** [crypto]: bytes *)

Module Bytes.
Local Open Scope nat_scope.

(** The bits of a byte, least significant first. *)
Definition bits8 : Type :=
  (bool * (bool * (bool * (bool * (bool * (bool * (bool * bool)))))))%type.

Definition xor_bits (x y : bits8) : bits8 :=
  let '(x0, (x1, (x2, (x3, (x4, (x5, (x6, x7))))))) := x in
  let '(y0, (y1, (y2, (y3, (y4, (y5, (y6, y7))))))) := y in
  (xorb x0 y0, (xorb x1 y1, (xorb x2 y2, (xorb x3 y3,
   (xorb x4 y4, (xorb x5 y5, (xorb x6 y6, xorb x7 y7))))))).

Definition bxor (a b : byte) : byte :=
  Byte.of_bits (xor_bits (Byte.to_bits a) (Byte.to_bits b)).

Definition of_nat (n : nat) : byte :=
  match Byte.of_nat n with
  | Some b => b
  | None => x00
  end.

Definition all : list byte := map of_nat (seq 0 256).

(** [xor_bytes s k]: the bytes of [s], each xor-ed with the byte of [k] at
    its position ([x00] where [k] is shorter). *)
Fixpoint xor_bytes (s k : list byte) : list byte :=
  match s with
  | [] => []
  | b :: s' => bxor b (hd x00 k) :: xor_bytes s' (tl k)
  end.

Fixpoint chunks (size : nat) (n : nat) (l : list byte) : list (list byte) :=
  match n with
  | O => []
  | S n' => firstn size l :: chunks size n' (skipn size l)
  end.

End Bytes.

(** ** [crypto]: AES-256 (FIPS 197) *)

Module AES.
Local Open Scope nat_scope.
Import Bytes.

(** Multiplication by [x] in GF(2^8) modulo [x^8 + x^4 + x^3 + x + 1], on
    the bits and on the byte. *)
Definition xtime_bits (x : bits8) : bits8 :=
  let '(b0, (b1, (b2, (b3, (b4, (b5, (b6, b7))))))) := x in
  (b7, (xorb b0 b7, (b1, (xorb b2 b7, (xorb b3 b7, (b4, (b5, b6))))))).

Definition xtime (a : byte) : byte := Byte.of_bits (xtime_bits (Byte.to_bits a)).

Definition gmul (a b : byte) : byte :=
  let '(b0, (b1, (b2, (b3, (b4, (b5, (b6, b7))))))) := Byte.to_bits b in
  let pick (bit : bool) (x : byte) := if bit then x else x00 in
  let a1 := xtime a in let a2 := xtime a1 in let a3 := xtime a2 in
  let a4 := xtime a3 in let a5 := xtime a4 in let a6 := xtime a5 in
  let a7 := xtime a6 in
  bxor (pick b0 a) (bxor (pick b1 a1) (bxor (pick b2 a2) (bxor (pick b3 a3)
    (bxor (pick b4 a4) (bxor (pick b5 a5) (bxor (pick b6 a6) (pick b7 a7))))))).

(** The multiplicative inverse, with 0 sent to 0. *)
Definition ginv (a : byte) : byte :=
  match find (fun y => Byte.eqb (gmul a y) x01) all with
  | Some y => y
  | None => x00
  end.

Definition rotl (a : byte) : byte :=
  let '(b0, (b1, (b2, (b3, (b4, (b5, (b6, b7))))))) := Byte.to_bits a in
  Byte.of_bits (b7, (b0, (b1, (b2, (b3, (b4, (b5, b6))))))).

Definition affine (y : byte) : byte :=
  let y1 := rotl y in let y2 := rotl y1 in let y3 := rotl y2 in let y4 := rotl y3 in
  bxor y (bxor y1 (bxor y2 (bxor y3 (bxor y4 x63)))).

Definition sbox_table : list byte :=
  Eval vm_compute in map (fun a => affine (ginv a)) all.

Definition sbox (a : byte) : byte := nth (Byte.to_nat a) sbox_table x00.

Definition inv_sbox_table : list byte :=
  Eval vm_compute in
    map (fun y => match find (fun a => Byte.eqb (sbox a) y) all with
                  | Some a => a
                  | None => x00
                  end) all.

Definition inv_sbox (a : byte) : byte := nth (Byte.to_nat a) inv_sbox_table x00.

Definition sub_bytes (s : list byte) : list byte := map sbox s.
Definition inv_sub_bytes (s : list byte) : list byte := map inv_sbox s.

(** The state is the block itself, column after column; [permute idx s]
    has at position [j] the byte of [s] at position [nth j idx]. *)
Definition permute (idx : list nat) (s : list byte) : list byte :=
  map (fun i => nth i s x00) idx.

Definition shift_rows : list byte -> list byte :=
  permute [0; 5; 10; 15; 4; 9; 14; 3; 8; 13; 2; 7; 12; 1; 6; 11]%nat.

Definition inv_shift_rows : list byte -> list byte :=
  permute [0; 13; 10; 7; 4; 1; 14; 11; 8; 5; 2; 15; 12; 9; 6; 3]%nat.

Definition mul2 (a : byte) : byte := xtime a.
Definition mul3 (a : byte) : byte := bxor (xtime a) a.
Definition mul9 (a : byte) : byte := bxor (xtime (xtime (xtime a))) a.
Definition mul11 (a : byte) : byte :=
  bxor (xtime (xtime (xtime a))) (bxor (xtime a) a).
Definition mul13 (a : byte) : byte :=
  bxor (xtime (xtime (xtime a))) (bxor (xtime (xtime a)) a).
Definition mul14 (a : byte) : byte :=
  bxor (xtime (xtime (xtime a))) (bxor (xtime (xtime a)) (xtime a)).

Definition xor4 (a b c d : byte) : byte := bxor a (bxor b (bxor c d)).

Definition mix_column (a b c d : byte) : list byte :=
  [ xor4 (mul2 a) (mul3 b) c d;
    xor4 a (mul2 b) (mul3 c) d;
    xor4 a b (mul2 c) (mul3 d);
    xor4 (mul3 a) b c (mul2 d) ].

Definition inv_mix_column (a b c d : byte) : list byte :=
  [ xor4 (mul14 a) (mul11 b) (mul13 c) (mul9 d);
    xor4 (mul9 a) (mul14 b) (mul11 c) (mul13 d);
    xor4 (mul13 a) (mul9 b) (mul14 c) (mul11 d);
    xor4 (mul11 a) (mul13 b) (mul9 c) (mul14 d) ].

Fixpoint columns (f : byte -> byte -> byte -> byte -> list byte) (s : list byte)
  : list byte :=
  match s with
  | a :: b :: c :: d :: rest => f a b c d ++ columns f rest
  | _ => []
  end.

Definition mix_columns : list byte -> list byte := columns mix_column.
Definition inv_mix_columns : list byte -> list byte := columns inv_mix_column.

(** *** Key expansion, for a key of 8 words *)

Definition rot_word (w : list byte) : list byte := tl w ++ firstn 1 w.

Fixpoint rcon (j : nat) : byte :=
  match j with
  | O => x01
  | S j' => xtime (rcon j')
  end.

(** [expand n i ws]: [n] more words after the [i] words [ws], which are
    held last word first. *)
Fixpoint expand (n i : nat) (ws : list (list byte)) : list (list byte) :=
  match n with
  | O => ws
  | S n' =>
      let prev := nth 0 ws [] in
      let t :=
        if (i mod 8 =? 0)%nat
        then xor_bytes (sub_bytes (rot_word prev)) [rcon (i / 8 - 1)]
        else if (i mod 8 =? 4)%nat then sub_bytes prev
        else prev in
      expand n' (S i) (xor_bytes (nth 7 ws []) t :: ws)
  end.

(** The 15 round keys of a 32-byte key. *)
Definition round_keys (key : list byte) : list (list byte) :=
  chunks 16 15 (List.concat (rev (expand 52 8 (rev (chunks 4 8 key))))).

Definition round (s k : list byte) : list byte :=
  xor_bytes (mix_columns (shift_rows (sub_bytes s))) k.

Definition inv_round (k s : list byte) : list byte :=
  inv_sub_bytes (inv_shift_rows (inv_mix_columns (xor_bytes s k))).

Definition final_round (s k : list byte) : list byte :=
  xor_bytes (shift_rows (sub_bytes s)) k.

Definition inv_final_round (k s : list byte) : list byte :=
  inv_sub_bytes (inv_shift_rows (xor_bytes s k)).

(** The cipher with first round key [k0], middle round keys [mid] and
    last round key [kn]. *)
Definition cipher (k0 : list byte) (mid : list (list byte)) (kn : list byte)
    (block : list byte) : list byte :=
  final_round (fold_left round mid (xor_bytes block k0)) kn.

Definition inv_cipher (k0 : list byte) (mid : list (list byte)) (kn : list byte)
    (block : list byte) : list byte :=
  xor_bytes (fold_right inv_round (inv_final_round kn block) mid) k0.

Definition encrypt_block (key block : list byte) : list byte :=
  let rks := round_keys key in
  cipher (hd [] rks) (firstn 13 (tl rks)) (nth 14 rks []) block.

Definition decrypt_block (key block : list byte) : list byte :=
  let rks := round_keys key in
  inv_cipher (hd [] rks) (firstn 13 (tl rks)) (nth 14 rks []) block.

End AES.

(** ** [crypto]: triple DES (FIPS 46-3), on bits, most significant first *)

Module DES.
Local Open Scope nat_scope.

(** [permute table b]: the bit of [b] at position [nth j table] (counted
    from 1) goes to position [j]. *)
Definition permute (table : list nat) (b : list bool) : list bool :=
  map (fun i => nth (i - 1) b false) table.

Fixpoint index_of (x : nat) (l : list nat) : nat :=
  match l with
  | [] => 0
  | y :: rest => if (x =? y)%nat then 1 else S (index_of x rest)
  end.

(** The initial permutation, row by row, and its inverse. *)
Definition IP : list nat :=
  Eval vm_compute in
    flat_map (fun r => map (fun c => r - 8 * c) (seq 0 8))%nat
      [58; 60; 62; 64; 57; 59; 61; 63]%nat.

Definition FP : list nat :=
  Eval vm_compute in map (fun j => index_of j IP) (seq 1 64).

(** The expansion: eight rows of six, each overlapping its neighbours. *)
Definition E : list nat :=
  Eval vm_compute in
    map (fun i => (4 * (i / 6) + i mod 6 + 31) mod 32 + 1)%nat (seq 0 48).

Definition P : list nat :=
  [ 16; 7; 20; 21; 29; 12; 28; 17; 1; 15; 23; 26; 5; 18; 31; 10;
    2; 8; 24; 14; 32; 27; 3; 9; 19; 13; 30; 6; 22; 11; 4; 25 ]%nat.

Definition PC1 : list nat :=
  [ 57; 49; 41; 33; 25; 17; 9; 1; 58; 50; 42; 34; 26; 18;
    10; 2; 59; 51; 43; 35; 27; 19; 11; 3; 60; 52; 44; 36;
    63; 55; 47; 39; 31; 23; 15; 7; 62; 54; 46; 38; 30; 22;
    14; 6; 61; 53; 45; 37; 29; 21; 13; 5; 28; 20; 12; 4 ]%nat.

Definition PC2 : list nat :=
  [ 14; 17; 11; 24; 1; 5; 3; 28; 15; 6; 21; 10;
    23; 19; 12; 4; 26; 8; 16; 7; 27; 20; 13; 2;
    41; 52; 31; 37; 47; 55; 30; 40; 51; 45; 33; 48;
    44; 49; 39; 56; 34; 53; 46; 42; 50; 36; 29; 32 ]%nat.

Definition shifts : list nat :=
  [ 1; 1; 2; 2; 2; 2; 2; 2; 1; 2; 2; 2; 2; 2; 2; 1 ]%nat.

(** The eight substitution boxes, four rows of sixteen entries each, one
    hexadecimal digit per entry. *)
Definition SBOXES : list string :=
  [ "e4d12fb83a6c59070f74e2d1a6cb953841e8d62bfc973a50fc8249175b3ea06d";
    "f18e6b34972dc05a3d47f28ec01a69b50e7ba4d158c6932fd8a13f42b67c05e9";
    "a09e63f51dc7b428d709346a285ecbf1d6498f30b12c5ae71ad069874fe3b52c";
    "7de3069a1285bc4fd8b56f03472c1ae9a690cb7df13e52843f06a1d8945bc72e";
    "2c417ab6853fd0e9eb2c47d150fa3986421bad78f9c5630eb8c71e2d6f09a453";
    "c1af92680d34e75baf427c9561de0b389ef528c3704a1db6432c95fabe17608d";
    "4b2ef08d3c975a61d0b7491ae35c2f8614bdc37eaf6805926bd814a7950fe23c";
    "d2846fb1a93e50c71fd8a374c56b0e927b419ce206adf35821e74a8dfc90356b" ]%string.

Definition bit (b : bool) : nat := if b then 1 else 0.

(** The [width] low bits of [n], most significant first. *)
Fixpoint to_bits (width n : nat) : list bool :=
  match width with
  | O => []
  | S w => Nat.odd (n / 2 ^ w) :: to_bits w n
  end.

Definition hex_value (c : ascii) : nat :=
  let n := nat_of_ascii c in if (n <? 58)%nat then n - 48 else n - 87.

(** One box on six bits: the outer bits choose the row, the inner four
    the column. *)
Definition sbox (box : string) (b : list bool) : list bool :=
  match b with
  | [b1; b2; b3; b4; b5; b6] =>
      let row := 2 * bit b1 + bit b6 in
      let col := 8 * bit b2 + 4 * bit b3 + 2 * bit b4 + bit b5 in
      match String.get (16 * row + col) box with
      | Some c => to_bits 4 (hex_value c)
      | None => []
      end
  | _ => []
  end.

Fixpoint sboxes (boxes : list string) (b : list bool) : list bool :=
  match boxes with
  | [] => []
  | box :: rest => sbox box (firstn 6 b) ++ sboxes rest (skipn 6 b)
  end.

(** [xor_bits l m]: the bits of [l], each xor-ed with the bit of [m] at
    its position. *)
Fixpoint xor_bits (l m : list bool) : list bool :=
  match l with
  | [] => []
  | b :: l' => xorb b (hd false m) :: xor_bits l' (tl m)
  end.

(** The cipher function [f(R, K)]. *)
Definition f (r k : list bool) : list bool :=
  permute P (sboxes SBOXES (xor_bits (permute E r) k)).

Definition rotl (n : nat) (b : list bool) : list bool := skipn n b ++ firstn n b.

(** The sixteen round keys of a 64-bit key. *)
Fixpoint schedule (sh : list nat) (c d : list bool) : list (list bool) :=
  match sh with
  | [] => []
  | n :: rest =>
      let c' := rotl n c in
      let d' := rotl n d in
      permute PC2 (c' ++ d') :: schedule rest c' d'
  end.

Definition round_keys (key : list bool) : list (list bool) :=
  let cd := permute PC1 key in
  schedule shifts (firstn 28 cd) (skipn 28 cd).

(** One round on the two halves. *)
Definition round (lr : list bool * list bool) (k : list bool)
  : list bool * list bool :=
  (snd lr, xor_bits (fst lr) (f (snd lr) k)).

Definition swap (lr : list bool * list bool) : list bool * list bool :=
  (snd lr, fst lr).

(** Two halves of 32 bits, which the rounds keep. *)
Definition halves32 (lr : list bool * list bool) : Prop :=
  List.length (fst lr) = 32 /\ List.length (snd lr) = 32.

(** The block cipher under the round keys [ks]; deciphering is the same
    with the keys in reverse order. *)
Definition crypt (ks : list (list bool)) (block : list bool) : list bool :=
  let b := permute IP block in
  let lr := swap (fold_left round ks (firstn 32 b, skipn 32 b)) in
  permute FP (fst lr ++ snd lr).

Definition encrypt (key block : list bool) : list bool :=
  crypt (round_keys key) block.

Definition decrypt (key block : list bool) : list bool :=
  crypt (rev (round_keys key)) block.

(** *** On bytes *)

Definition bits_of_byte (b : byte) : list bool :=
  let '(b0, (b1, (b2, (b3, (b4, (b5, (b6, b7))))))) := Byte.to_bits b in
  [b7; b6; b5; b4; b3; b2; b1; b0].

Definition byte_of_bits (l : list bool) : byte :=
  let b i := nth i l false in
  Byte.of_bits (b 7%nat, (b 6%nat, (b 5%nat, (b 4%nat, (b 3%nat, (b 2%nat, (b 1%nat, b 0%nat))))))).

Definition bits_of_bytes (l : list byte) : list bool := flat_map bits_of_byte l.

Fixpoint bytes_of_bits (n : nat) (l : list bool) : list byte :=
  match n with
  | O => []
  | S n' => byte_of_bits (firstn 8 l) :: bytes_of_bits n' (skipn 8 l)
  end.

(** Triple DES in the encrypt-decrypt-encrypt order, with the three keys
    taken from a 24-byte key. *)
Definition key1 (key : list byte) : list bool := bits_of_bytes (firstn 8 key).
Definition key2 (key : list byte) : list bool := bits_of_bytes (firstn 8 (skipn 8 key)).
Definition key3 (key : list byte) : list bool := bits_of_bytes (firstn 8 (skipn 16 key)).

Definition encrypt_block (key block : list byte) : list byte :=
  bytes_of_bits 8
    (encrypt (key3 key) (decrypt (key2 key) (encrypt (key1 key) (bits_of_bytes block)))).

Definition decrypt_block (key block : list byte) : list byte :=
  bytes_of_bits 8
    (decrypt (key1 key) (encrypt (key2 key) (decrypt (key3 key) (bits_of_bytes block)))).

End DES.

(** ** [crypto]: cipher block chaining with PKCS#7 padding *)

Module CBC.
Import Bytes.
Local Open Scope nat_scope.

Section Mode.

Variable bs : nat.
Variable E D : list byte -> list byte.

(** [n] blocks of [pt], each xor-ed with the previous block of cipher
    text (the IV for the first) before it is enciphered. *)
Fixpoint encrypt (n : nat) (prev pt : list byte) : list byte :=
  match n with
  | O => []
  | S n' =>
      let c := E (xor_bytes (firstn bs pt) prev) in
      c ++ encrypt n' c (skipn bs pt)
  end.

Fixpoint decrypt (n : nat) (prev ct : list byte) : list byte :=
  match n with
  | O => []
  | S n' =>
      let c := firstn bs ct in
      xor_bytes (D c) prev ++ decrypt n' c (skipn bs ct)
  end.

End Mode.

(** The padding always adds between 1 and [bs] bytes, each holding their
    number. *)
Definition pad (bs : nat) (pt : list byte) : list byte :=
  let n := (bs - List.length pt mod bs)%nat in
  pt ++ repeat (Bytes.of_nat n) n.

Definition unpad (bs : nat) (l : list byte) : option (list byte) :=
  let n := Byte.to_nat (last l x00) in
  let len := List.length l in
  if ((1 <=? n) && (n <=? bs) && (n <=? len)
      && forallb (Byte.eqb (last l x00)) (skipn (len - n) l))%nat%bool
  then Some (firstn (len - n) l)
  else None.

End CBC.

(** ** [crypto]: the ciphers the registry names *)

Record BlockCipher : Type := {
  key_size : nat;
  block_size : nat;
  encrypt_block : list byte -> list byte -> list byte;
  decrypt_block : list byte -> list byte -> list byte
}.

Definition cipher_of (id : string) : option BlockCipher :=
  if String.eqb id "aes-256-cbc" then
    Some {| key_size := 32; block_size := 16;
            encrypt_block := AES.encrypt_block; decrypt_block := AES.decrypt_block |}
  else if String.eqb id "des-ede3-cbc" then
    Some {| key_size := 24; block_size := 8;
            encrypt_block := DES.encrypt_block; decrypt_block := DES.decrypt_block |}
  else None.

(** A [Cipher] or [Decipher] object: the cipher with its key and IV. *)
Record CipherCtx : Type := {
  ctx_cipher : BlockCipher;
  ctx_key : list byte;
  ctx_iv : list byte
}.

(** [crypto.createCipheriv(id, key, iv)] and [crypto.createDecipheriv(id,
    key, iv)]: both throw on a name, a key length or an IV length that is
    not the cipher's. *)
Definition createCipheriv (id : string) (key iv : list byte) : Result CipherCtx :=
  match cipher_of id with
  | None => Throw "Unknown cipher"
  | Some c =>
      if negb (List.length key =? key_size c)%nat then Throw "Invalid key length"
      else if negb (List.length iv =? block_size c)%nat
      then Throw "Invalid initialization vector"
      else Ok {| ctx_cipher := c; ctx_key := key; ctx_iv := iv |}
  end.

Definition createDecipheriv : string -> list byte -> list byte -> Result CipherCtx :=
  createCipheriv.

(** [Buffer.concat([cipher.update(plain), cipher.final()])] *)
Definition cipher_update_final (ctx : CipherCtx) (plain : list byte) : list byte :=
  let c := ctx_cipher ctx in
  let padded := CBC.pad (block_size c) plain in
  CBC.encrypt (block_size c) (encrypt_block c (ctx_key ctx))
    (List.length padded / block_size c) (ctx_iv ctx) padded.

(** [Buffer.concat([decipher.update(data), decipher.final()])]: [final]
    throws on data that is not a whole number of blocks or whose padding is
    not well formed. *)
Definition decipher_update_final (ctx : CipherCtx) (data : list byte)
  : Result (list byte) :=
  let c := ctx_cipher ctx in
  if negb (List.length data mod block_size c =? 0)%nat || (List.length data =? 0)%nat
  then Throw "wrong final block length"
  else
    match CBC.unpad (block_size c)
            (CBC.decrypt (block_size c) (decrypt_block c (ctx_key ctx))
               (List.length data / block_size c) (ctx_iv ctx) data) with
    | Some plain => Ok plain
    | None => Throw "bad decrypt"
    end.

(** ** [crypto]: SHA-256 *)

(** SHA-256 (FIPS 180-4), what [crypto.createHash('sha256')] computes, on
    32-bit words held in [Z]. *)
Module SHA256.

Definition w32 (x : Z) : Z := x mod 4294967296.

Definition add32 (x y : Z) : Z := w32 (x + y).

Definition rotr (n x : Z) : Z :=
  Z.lor (Z.shiftr x n) (w32 (Z.shiftl x (32 - n))).

Definition Ch (x y z : Z) : Z :=
  Z.lxor (Z.land x y) (Z.land (Z.lnot x) z).

Definition Maj (x y z : Z) : Z :=
  Z.lxor (Z.lxor (Z.land x y) (Z.land x z)) (Z.land y z).

Definition Sigma0 (x : Z) : Z :=
  Z.lxor (Z.lxor (rotr 2 x) (rotr 13 x)) (rotr 22 x).

Definition Sigma1 (x : Z) : Z :=
  Z.lxor (Z.lxor (rotr 6 x) (rotr 11 x)) (rotr 25 x).

Definition sigma0 (x : Z) : Z :=
  Z.lxor (Z.lxor (rotr 7 x) (rotr 18 x)) (Z.shiftr x 3).

Definition sigma1 (x : Z) : Z :=
  Z.lxor (Z.lxor (rotr 17 x) (rotr 19 x)) (Z.shiftr x 10).

(** Integer roots by bisection on the bits of the result: the largest [x]
    below [2 ^ bits] with [x ^ e <= n]. *)
Fixpoint iroot (e : Z) (bits : nat) (n x : Z) : Z :=
  match bits with
  | O => x
  | S b =>
      let y := x + 2 ^ Z.of_nat b in
      iroot e b n (if y ^ e <=? n then y else x)
  end.

Definition is_prime (p : nat) : bool :=
  forallb (fun d => negb (p mod d =? 0)%nat) (seq 2 (p - 2)).

Definition primes : list Z :=
  map Z.of_nat (filter is_prime (seq 2 310)).

(** The first 32 bits of the fractional part of the root of order [e]. *)
Definition frac_root (e : Z) (p : Z) : Z :=
  w32 (iroot e 40 (p * 2 ^ (32 * e)) 0).

(** The round constants: from the cube roots of the first 64 primes. *)
Definition K : list Z := Eval vm_compute in map (frac_root 3) primes.

(** The eight working variables [a .. h]. *)
Record Regs : Type := {
  ra : Z; rb : Z; rc : Z; rd : Z; re : Z; rf : Z; rg : Z; rh : Z
}.

(** The initial hash value: from the square roots of the first 8 primes. *)
Definition H0 : Regs :=
  Eval vm_compute in
    let h i := frac_root 2 (nth i primes 0) in
    {| ra := h 0%nat; rb := h 1%nat; rc := h 2%nat; rd := h 3%nat;
       re := h 4%nat; rf := h 5%nat; rg := h 6%nat; rh := h 7%nat |}.

Definition round (r : Regs) (k w : Z) : Regs :=
  let t1 := add32 (add32 (add32 (add32 (rh r) (Sigma1 (re r))) (Ch (re r) (rf r) (rg r))) k) w in
  let t2 := add32 (Sigma0 (ra r)) (Maj (ra r) (rb r) (rc r)) in
  {| ra := add32 t1 t2; rb := ra r; rc := rb r; rd := rc r;
     re := add32 (rd r) t1; rf := re r; rg := rf r; rh := rg r |}.

(** The message schedule as a window of sixteen words: at round [t] the
    window holds [W t .. W (t+15)]. *)
Definition next_window (win : list Z) : list Z :=
  let w i := nth i win 0 in
  tl win ++ [add32 (add32 (add32 (sigma1 (w 14%nat)) (w 9%nat)) (sigma0 (w 1%nat))) (w 0%nat)].

Fixpoint rounds (ks : list Z) (win : list Z) (r : Regs) : Regs :=
  match ks with
  | [] => r
  | k :: ks' => rounds ks' (next_window win) (round r k (nth 0 win 0))
  end.

Fixpoint be_words (n : nat) (bytes : list Z) : list Z :=
  match n with
  | O => []
  | S n' =>
      let b i := nth i bytes 0 in
      (b 0%nat * 16777216 + b 1%nat * 65536 + b 2%nat * 256 + b 3%nat)
        :: be_words n' (skipn 4 bytes)
  end.

Definition compress (h : Regs) (block : list Z) : Regs :=
  let r := rounds K (be_words 16 block) h in
  {| ra := add32 (ra h) (ra r); rb := add32 (rb h) (rb r);
     rc := add32 (rc h) (rc r); rd := add32 (rd h) (rd r);
     re := add32 (re h) (re r); rf := add32 (rf h) (rf r);
     rg := add32 (rg h) (rg r); rh := add32 (rh h) (rh r) |}.

Fixpoint blocks (n : nat) (msg : list Z) (h : Regs) : Regs :=
  match n with
  | O => h
  | S n' => blocks n' (skipn 64 msg) (compress h (firstn 64 msg))
  end.

Fixpoint be_bytes (n : nat) (x : Z) : list Z :=
  match n with
  | O => []
  | S n' => (Z.shiftr x (8 * Z.of_nat n')) mod 256 :: be_bytes n' x
  end.

Definition pad (msg : list Z) : list Z :=
  let len := Z.of_nat (List.length msg) in
  msg ++ [128] ++ repeat 0 (Z.to_nat ((55 - len) mod 64)) ++ be_bytes 8 (8 * len).

Definition to_byte (z : Z) : byte :=
  match Byte.of_N (Z.to_N (z mod 256)) with
  | Some b => b
  | None => x00
  end.

Definition of_byte (b : byte) : Z := Z.of_N (Byte.to_N b).

Definition word_bytes (x : Z) : list byte := map to_byte (be_bytes 4 x).

Definition digest (msg : list byte) : list byte :=
  let padded := pad (map of_byte msg) in
  let h := blocks (List.length padded / 64) padded H0 in
  word_bytes (ra h) ++ word_bytes (rb h) ++ word_bytes (rc h) ++ word_bytes (rd h)
    ++ word_bytes (re h) ++ word_bytes (rf h) ++ word_bytes (rg h) ++ word_bytes (rh h).

End SHA256.

(** ** Buffers *)

(** [buf.toString('hex')] and [Buffer.from(s, 'hex')] *)
Definition hex_digit (n : N) : ascii :=
  ascii_of_N (if (n <? 10)%N then 48 + n else 87 + n)%N.

Fixpoint hex (bytes : list byte) : string :=
  match bytes with
  | [] => EmptyString
  | b :: rest =>
      let n := Byte.to_N b in
      String (hex_digit (n / 16)%N) (String (hex_digit (n mod 16)%N) (hex rest))
  end.

Definition hex_val (c : ascii) : N :=
  let n := N_of_ascii c in
  (if n <? 58 then n - 48 else if n <? 91 then n - 55 else n - 87)%N.

Fixpoint unhex (s : string) : list byte :=
  match s with
  | String a (String b rest) =>
      Bytes.of_nat (N.to_nat (hex_val a * 16 + hex_val b)) :: unhex rest
  | _ => []
  end.

(** [buf.toString('base64')] *)
Module Base64.

Definition alphabet : list ascii :=
  list_ascii_of_string
    "ABCDEFGHIJKLMNOPQRSTUVWXYZabcdefghijklmnopqrstuvwxyz0123456789+/".

Definition char_of (sextet : N) : ascii :=
  nth (N.to_nat sextet) alphabet "="%char.

Fixpoint encode (buf : list byte) : string :=
  match buf with
  | [] => EmptyString
  | [a] =>
      let n := (Byte.to_N a * 65536)%N in
      String (char_of (n / 262144)) (String (char_of ((n / 4096) mod 64)) "==")
  | [a; b] =>
      let n := (Byte.to_N a * 65536 + Byte.to_N b * 256)%N in
      String (char_of (n / 262144)) (String (char_of ((n / 4096) mod 64))
        (String (char_of ((n / 64) mod 64)) "="))
  | a :: b :: c :: rest =>
      let n := (Byte.to_N a * 65536 + Byte.to_N b * 256 + Byte.to_N c)%N in
      String (char_of (n / 262144)) (String (char_of ((n / 4096) mod 64))
        (String (char_of ((n / 64) mod 64)) (String (char_of (n mod 64))
          (encode rest))))
  end.

(** The value of a character of the alphabet. *)
Fixpoint index (c : ascii) (l : list ascii) : option N :=
  match l with
  | [] => None
  | x :: rest => if Ascii.eqb c x then Some 0%N else option_map N.succ (index c rest)
  end.

Definition value_of (c : ascii) : option N := index c alphabet.

Definition byte_of (n : N) : byte :=
  match Byte.of_N (n mod 256) with
  | Some b => b
  | None => x00
  end.

(** [Buffer.from(s, 'base64')] on a padded text; [None] when the text is
    not one [encode] produces. *)
Fixpoint decode (s : string) : option (list byte) :=
  match s with
  | EmptyString => Some []
  | String c1 (String c2 (String c3 (String c4 rest))) =>
      match value_of c1, value_of c2 with
      | Some v1, Some v2 =>
          if Ascii.eqb c3 "=" then
            if (Ascii.eqb c4 "=" && match rest with EmptyString => true | _ => false end)%bool
            then Some [byte_of ((v1 * 64 + v2) / 16)]
            else None
          else
            match value_of c3 with
            | Some v3 =>
                if Ascii.eqb c4 "=" then
                  match rest with
                  | EmptyString =>
                      let n := ((v1 * 64 + v2) * 64 + v3)%N in
                      Some [byte_of (n / 1024); byte_of (n / 4)]
                  | _ => None
                  end
                else
                  match value_of c4, decode rest with
                  | Some v4, Some bytes =>
                      let n := (((v1 * 64 + v2) * 64 + v3) * 64 + v4)%N in
                      Some (byte_of (n / 65536) :: byte_of (n / 256) :: byte_of n :: bytes)
                  | _, _ => None
                  end
            | None => None
            end
      | _, _ => None
      end
  | _ => None
  end.

End Base64.

(** ** Dates *)

(** [date.toISOString()] for the date of epoch time [ms]: the civil date
    of the proleptic Gregorian calendar in UTC. *)
Module ISODate.

Fixpoint digits (width : nat) (n : Z) (acc : string) : string :=
  match width with
  | O => acc
  | S w => digits w (n / 10) (String (ascii_of_N (Z.to_N (48 + n mod 10))) acc)
  end.

Definition civil (days : Z) : Z * Z * Z :=
  let z := days + 719468 in
  let era := z / 146097 in
  let doe := z - era * 146097 in
  let yoe := (doe - doe / 1460 + doe / 36524 - doe / 146096) / 365 in
  let doy := doe - (365 * yoe + yoe / 4 - yoe / 100) in
  let mp := (5 * doy + 2) / 153 in
  let d := doy - (153 * mp + 2) / 5 + 1 in
  let m := if mp <? 10 then mp + 3 else mp - 9 in
  let y := yoe + era * 400 + (if m <=? 2 then 1 else 0) in
  (y, m, d).

Definition year (y : Z) : string :=
  if (0 <=? y) && (y <=? 9999) then digits 4 y ""
  else String (if y <? 0 then "-"%char else "+"%char) (digits 6 (Z.abs y) "").

Definition toISOString (ms : Z) : string :=
  let days := ms / 86400000 in
  let t := ms mod 86400000 in
  let '(y, m, d) := civil days in
  String.concat ""
    [ year y; "-"; digits 2 m ""; "-"; digits 2 d ""; "T";
      digits 2 (t / 3600000) ""; ":"; digits 2 ((t / 60000) mod 60) ""; ":";
      digits 2 ((t / 1000) mod 60) ""; "."; digits 3 (t mod 1000) ""; "Z" ].

End ISODate.

(** ** JSON text *)

(** [JSON.stringify] and [JSON.parse] on the values whose numbers are
    integers of the safe range, which print as their decimal digits; a
    number outside is not given a text here ([Throw]).  A value that
    [JSON.stringify] maps to [undefined] is a [Throw] as well. *)
Module Json.

Definition quote : ascii := ascii_of_nat 34.
Definition backslash : ascii := ascii_of_nat 92.

Fixpoint decimal_digits (fuel : nat) (n : Z) (acc : string) : string :=
  match fuel with
  | O => acc
  | S f =>
      let acc' := String (ascii_of_N (Z.to_N (48 + n mod 10))) acc in
      if n <? 10 then acc' else decimal_digits f (n / 10) acc'
  end.

Definition decimal (z : Z) : string :=
  if z <? 0 then String "-" (decimal_digits 20 (- z) "") else decimal_digits 20 z "".

Definition escape_char (c : ascii) : string :=
  let n := nat_of_ascii c in
  let esc (e : ascii) := String backslash (String e "") in
  if Ascii.eqb c quote then esc quote
  else if Ascii.eqb c backslash then esc backslash
  else if (n =? 8)%nat then esc "b"%char
  else if (n =? 9)%nat then esc "t"%char
  else if (n =? 10)%nat then esc "n"%char
  else if (n =? 12)%nat then esc "f"%char
  else if (n =? 13)%nat then esc "r"%char
  else if (n <? 32)%nat
  then String backslash
         (String "u" (String "0" (String "0"
           (String (hex_digit (N.of_nat n / 16)) (String (hex_digit (N.of_nat n mod 16)) "")))))
  else String c "".

Fixpoint escape (s : string) : string :=
  match s with
  | EmptyString => EmptyString
  | String c rest => String.append (escape_char c) (escape rest)
  end.

Definition quoted (s : string) : string :=
  String quote (String.append (escape s) (String quote "")).

(** A number that is not finite is written [null]. *)
Definition number (d : double) : Result string :=
  match d with
  | Finite q =>
      let r := Qred q in
      if (Z.pos (Qden r) =? 1) && (Z.abs (Qnum r) <? 2 ^ 53)
      then Ok (decimal (Qnum r))
      else Throw "Json.stringify: a number that is not a safe integer"
  | _ => Ok "null"
  end.

Fixpoint stringify (v : JsValue) : Result string :=
  match v with
  | JUndefined => Throw "Json.stringify: undefined"
  | JNull => Ok "null"
  | JBool b => Ok (if b then "true" else "false")
  | JNum d => number d
  | JStr s => Ok (quoted s)
  | JDate ms => Ok (quoted (ISODate.toISOString ms))
  | JArr items =>
      (fix elements (l : list JsValue) (sep acc : string) {struct l} : Result string :=
         match l with
         | [] => Ok (String.append acc "]")
         | x :: rest =>
             match x with
             | JUndefined => elements rest "," (String.append acc (String.append sep "null"))
             | _ =>
                 match stringify x with
                 | Ok s => elements rest "," (String.append acc (String.append sep s))
                 | Throw m => Throw m
                 end
             end
         end) items "" "["
  | JObj fields =>
      (fix members (l : list (string * JsValue)) (sep acc : string) {struct l}
         : Result string :=
         match l with
         | [] => Ok (String.append acc "}")
         | (k, x) :: rest =>
             match x with
             | JUndefined => members rest sep acc
             | _ =>
                 match stringify x with
                 | Ok s =>
                     members rest ","
                       (String.concat "" [acc; sep; quoted k; ":"; s])
                 | Throw m => Throw m
                 end
             end
         end) fields "" "{"
  end.

Definition is_ws (c : ascii) : bool :=
  let n := nat_of_ascii c in ((n =? 32) || (n =? 9) || (n =? 10) || (n =? 13))%nat.

Fixpoint skip_ws (s : list ascii) : list ascii :=
  match s with
  | c :: rest => if is_ws c then skip_ws rest else s
  | [] => []
  end.

Definition hex4 (a b c d : ascii) : option ascii :=
  match digit_val a, digit_val b, digit_val c, digit_val d with
  | Some 0, Some 0, Some x, Some y => Some (ascii_of_N (Z.to_N (16 * x + y)))
  | _, _, _, _ => None
  end.

(** The characters of a string literal after its opening quote, up to the
    closing one; [acc] holds those read, last first. *)
Fixpoint string_body (s : list ascii) (acc : list ascii) : option (string * list ascii) :=
  match s with
  | [] => None
  | c :: rest =>
      if Ascii.eqb c quote then Some (string_of_list_ascii (rev acc), rest)
      else if Ascii.eqb c backslash then
        match rest with
        | "u"%char :: h1 :: h2 :: h3 :: h4 :: rest' =>
            match hex4 h1 h2 h3 h4 with
            | Some x => string_body rest' (x :: acc)
            | None => None
            end
        | e :: rest' =>
            let n := nat_of_ascii e in
            if (Ascii.eqb e quote || Ascii.eqb e backslash || Ascii.eqb e "/")%bool
            then string_body rest' (e :: acc)
            else if Ascii.eqb e "b" then string_body rest' (ascii_of_nat 8 :: acc)
            else if Ascii.eqb e "t" then string_body rest' (ascii_of_nat 9 :: acc)
            else if Ascii.eqb e "n" then string_body rest' (ascii_of_nat 10 :: acc)
            else if Ascii.eqb e "f" then string_body rest' (ascii_of_nat 12 :: acc)
            else if Ascii.eqb e "r" then string_body rest' (ascii_of_nat 13 :: acc)
            else None
        | [] => None
        end
      else if (nat_of_ascii c <? 32)%nat then None
      else string_body rest (c :: acc)
  end.

Definition is_digit (c : ascii) : bool :=
  let n := nat_of_ascii c in ((48 <=? n) && (n <=? 57))%nat.

Fixpoint digits (s : list ascii) (acc : Z) : Z * list ascii :=
  match s with
  | c :: rest =>
      if is_digit c then digits rest (10 * acc + Z.of_nat (nat_of_ascii c - 48))
      else (acc, s)
  | [] => (acc, [])
  end.

(** An integer literal; a fraction or an exponent after it is refused. *)
Definition integer (s : list ascii) : option (JsValue * list ascii) :=
  let '(neg, s1) := match s with
                    | "-"%char :: r => (true, r)
                    | _ => (false, s)
                    end in
  match s1 with
  | c :: _ =>
      if is_digit c then
        let '(n, rest) := digits s1 0 in
        match rest with
        | "."%char :: _ | "e"%char :: _ | "E"%char :: _ => None
        | _ => Some (JInt (if neg then - n else n), rest)
        end
      else None
  | [] => None
  end.

Section Sequences.

Variable value : list ascii -> option (JsValue * list ascii).

(** The elements of an array after the first has been found to be there:
    a value, then a comma and more, or the closing bracket. *)
Fixpoint elements (fuel : nat) (s : list ascii) (acc : list JsValue)
  : option (JsValue * list ascii) :=
  match fuel with
  | O => None
  | S f =>
      match value s with
      | Some (v, rest) =>
          match skip_ws rest with
          | ","%char :: rest' => elements f rest' (v :: acc)
          | "]"%char :: rest' => Some (JArr (rev (v :: acc)), rest')
          | _ => None
          end
      | None => None
      end
  end.

Fixpoint members (fuel : nat) (s : list ascii) (acc : list (string * JsValue))
  : option (JsValue * list ascii) :=
  match fuel with
  | O => None
  | S f =>
      match skip_ws s with
      | q :: rest =>
          if Ascii.eqb q quote then
            match string_body rest [] with
            | Some (k, rest1) =>
                match skip_ws rest1 with
                | ":"%char :: rest2 =>
                    match value rest2 with
                    | Some (v, rest3) =>
                        match skip_ws rest3 with
                        | ","%char :: rest4 => members f rest4 ((k, v) :: acc)
                        | "}"%char :: rest4 => Some (JObj (rev ((k, v) :: acc)), rest4)
                        | _ => None
                        end
                    | None => None
                    end
                | _ => None
                end
            | None => None
            end
          else None
      | [] => None
      end
  end.

End Sequences.

Fixpoint value (fuel : nat) (s : list ascii) : option (JsValue * list ascii) :=
  match fuel with
  | O => None
  | S f =>
      match skip_ws s with
      | "n"%char :: "u"%char :: "l"%char :: "l"%char :: rest => Some (JNull, rest)
      | "t"%char :: "r"%char :: "u"%char :: "e"%char :: rest => Some (JBool true, rest)
      | "f"%char :: "a"%char :: "l"%char :: "s"%char :: "e"%char :: rest =>
          Some (JBool false, rest)
      | "["%char :: rest =>
          match skip_ws rest with
          | "]"%char :: rest' => Some (JArr [], rest')
          | _ => elements (value f) (List.length rest) rest []
          end
      | "{"%char :: rest =>
          match skip_ws rest with
          | "}"%char :: rest' => Some (JObj [], rest')
          | _ => members (value f) (List.length rest) rest []
          end
      | c :: rest =>
          if Ascii.eqb c quote then
            match string_body rest [] with
            | Some (str, rest') => Some (JStr str, rest')
            | None => None
            end
          else integer (c :: rest)
      | [] => None
      end
  end.

Definition parse (text : string) : Result JsValue :=
  let s := list_ascii_of_string text in
  match value (List.length s + 1) s with
  | Some (v, rest) =>
      match skip_ws rest with
      | [] => Ok v
      | _ => Throw "Unexpected non-whitespace character after JSON"
      end
  | None => Throw "Unexpected token in JSON"
  end.

End Json.

(** ** [URL] *)

(** What the script reads of a parsed URL. *)
Record Url : Type := {
  url_hostname : string;
  url_port : string;      (* empty for the port of the scheme *)
  url_pathname : string
}.

(** A [new URL(input, base)] for the plain http addresses of a main
    server: the base is [http://host] or [http://host:port], followed by
    nothing or by a path; the host is one label of small letters, digits
    and hyphens that starts with a letter; the input is a path of such
    characters and slashes.  Whatever else it is given it refuses, as
    the runtime refuses a base that has no scheme. *)
Module URL.

Definition is_small_letter (c : ascii) : bool :=
  let n := nat_of_ascii c in ((97 <=? n) && (n <=? 122))%nat.

Definition is_digit (c : ascii) : bool :=
  let n := nat_of_ascii c in ((48 <=? n) && (n <=? 57))%nat.

Definition is_host_char (c : ascii) : bool :=
  is_small_letter c || is_digit c || Ascii.eqb c "-".

Definition is_path_char (c : ascii) : bool :=
  is_host_char c || Ascii.eqb c "/".

(** The longest prefix of characters with the property, and the rest. *)
Fixpoint span (p : ascii -> bool) (s : string) : string * string :=
  match s with
  | String c rest =>
      if p c then let '(taken, remaining) := span p rest in (String c taken, remaining)
      else (EmptyString, s)
  | EmptyString => (EmptyString, EmptyString)
  end.

Fixpoint all (p : ascii -> bool) (s : string) : bool :=
  match s with
  | String c rest => p c && all p rest
  | EmptyString => true
  end.

Fixpoint number (s : string) (acc : Z) : Z :=
  match s with
  | String c rest => number rest (10 * acc + Z.of_nat (nat_of_ascii c - 48))
  | EmptyString => acc
  end.

Definition host_ok (host : string) : bool :=
  match host with
  | String c _ => is_small_letter c && negb (String.prefix "xn--" host)
  | EmptyString => false
  end.

Definition path_ok (input : string) : bool :=
  match input with
  | String "/"%char _ => all is_path_char input
  | _ => false
  end.

Definition parse (input base : string) : Result Url :=
  let invalid := Throw "Invalid URL" in
  if negb (String.prefix "http://" base) || negb (path_ok input) then invalid
  else
    let '(host, after_host) :=
      span is_host_char (String.substring 7 (String.length base) base) in
    if negb (host_ok host) then invalid
    else
      match after_host with
      | EmptyString | String "/"%char _ =>
          Ok {| url_hostname := host; url_port := ""; url_pathname := input |}
      | String ":"%char rest =>
          let '(digits, after_port) := span is_digit rest in
          let n := number digits 0 in
          match after_port with
          | EmptyString | String "/"%char _ =>
              if 65535 <? n then invalid
              else Ok {| url_hostname := host;
                         url_port :=
                           match digits with
                           | EmptyString => ""
                           | _ => if n =? 80 then "" else Json.decimal n
                           end;
                         url_pathname := input |}
          | _ => invalid
          end
      | _ => invalid
      end.

End URL.

(** * The script *)

(** ** Process configuration ([process.env]) *)

(** [s || d] on a string read from the environment: [undefined] and the
    empty string are falsy. *)
Definition str_or (s : option string) (d : string) : string :=
  match s with
  | Some (String c r) => String c r
  | _ => d
  end.

(** The variables of [process.env] the script reads.  Those read with
    [parseFloat] are given by the number they parse to, [NaN] for a
    variable that is not set or does not start with a number. *)
Record Env : Type := {
  env_DATA_SECRET : option string;
  env_ENC_ALGO : option string;
  env_TEMP_MIN : double;
  env_TEMP_MAX : double;
  env_HUM_MIN : double;
  env_HUM_MAX : double;
  env_TEMP_INTERVAL : option string;
  env_DATA_HEALTH_MAX_AGE_MS : option string;
  env_MAIN_SERVER_URL : option string;
  env_SEND_TO_MAIN_SERVER : option string;
  env_PORT : option string
}.

Definition DATA_SECRET (env : Env) : string :=
  str_or (env_DATA_SECRET env) "165743".

Definition DEFAULT_ENC_ALGO (env : Env) : string :=
  match env_ENC_ALGO env with
  | Some s => if String.eqb s "DES" then "DES" else "AES"
  | None => "AES"
  end.

Definition tempInterval (env : Env) : double :=
  Double.or (parseInt (env_TEMP_INTERVAL env)) 5000.

(** ** CipherSuite registry *)

Record AlgoProfile : Type := {
  cipher : string;
  keyLen : nat;
  ivLen : nat
}.

(** The own properties of the object literal [ALGORITHMS]. *)
Definition ALGORITHMS : list (string * AlgoProfile) :=
  [ ("AES", {| cipher := "aes-256-cbc"; keyLen := 32; ivLen := 16 |});
    ("DES", {| cipher := "des-ede3-cbc"; keyLen := 24; ivLen := 8 |}) ].

(** [ALGORITHMS] is a plain object, so a read [ALGORITHMS[name]] that finds
    no own property goes on to [Object.prototype]; these are its property
    names, every one bound to a function or an object (truthy), none of
    which has a [keyLen] or an [ivLen]. *)
Definition Object_prototype_keys : list string :=
  [ "constructor"; "__defineGetter__"; "__defineSetter__"; "hasOwnProperty";
    "__lookupGetter__"; "__lookupSetter__"; "isPrototypeOf";
    "propertyIsEnumerable"; "toString"; "valueOf"; "__proto__";
    "toLocaleString" ].

Inductive Lookup : Type :=
| Own (p : AlgoProfile)
| Inherited
| Undefined.

Fixpoint own_property (name : string) (table : list (string * AlgoProfile)) : option AlgoProfile :=
  match table with
  | [] => None
  | (k, p) :: rest => if String.eqb name k then Some p else own_property name rest
  end.

(** [ALGORITHMS[name]] *)
Definition ALGORITHMS_get (name : string) : Lookup :=
  match own_property name ALGORITHMS with
  | Some p => Own p
  | None =>
      if existsb (String.eqb name) Object_prototype_keys then Inherited else Undefined
  end.

(** Truthiness of the value read: [if (ALGORITHMS[name])]. *)
Definition truthy (l : Lookup) : bool :=
  match l with
  | Undefined => false
  | _ => true
  end.

(** ** Key derivation *)

(** [buf.subarray(0, n)] clamps [n] to the length of the buffer. *)
Definition subarray0 (n : nat) (buf : list byte) : list byte := firstn n buf.

Definition deriveKey (secret : string) (keyLen : nat) : list byte :=
  subarray0 keyLen (SHA256.digest (list_byte_of_string secret)).

(** ** Device state *)

Record DeviceState : Type := {
  led : bool;
  fan : bool;
  allowFanControl : bool;
  temperature : double;
  humidity : double;
  lastUpdate : option Z   (* a [Date], as epoch milliseconds *)
}.

(** A stored history entry, the object [encryptJSON] returns. *)
Record Envelope : Type := {
  algo : string;
  iv : string;
  data : string
}.

(** The three module-level variables of the script. *)
Record State : Type := {
  deviceState : DeviceState;
  currentEncAlgo : string;
  sensorHistory : list Envelope
}.

Definition set_led (d : DeviceState) (b : bool) : DeviceState :=
  {| led := b; fan := fan d; allowFanControl := allowFanControl d;
     temperature := temperature d; humidity := humidity d; lastUpdate := lastUpdate d |}.

Definition set_fan (d : DeviceState) (b : bool) : DeviceState :=
  {| led := led d; fan := b; allowFanControl := allowFanControl d;
     temperature := temperature d; humidity := humidity d; lastUpdate := lastUpdate d |}.

Definition set_allowFanControl (d : DeviceState) (b : bool) : DeviceState :=
  {| led := led d; fan := fan d; allowFanControl := b;
     temperature := temperature d; humidity := humidity d; lastUpdate := lastUpdate d |}.

Definition set_temperature (d : DeviceState) (t : double) : DeviceState :=
  {| led := led d; fan := fan d; allowFanControl := allowFanControl d;
     temperature := t; humidity := humidity d; lastUpdate := lastUpdate d |}.

Definition set_humidity (d : DeviceState) (h : double) : DeviceState :=
  {| led := led d; fan := fan d; allowFanControl := allowFanControl d;
     temperature := temperature d; humidity := h; lastUpdate := lastUpdate d |}.

Definition set_lastUpdate (d : DeviceState) (t : option Z) : DeviceState :=
  {| led := led d; fan := fan d; allowFanControl := allowFanControl d;
     temperature := temperature d; humidity := humidity d; lastUpdate := t |}.

Definition with_deviceState (st : State) (d : DeviceState) : State :=
  {| deviceState := d; currentEncAlgo := currentEncAlgo st;
     sensorHistory := sensorHistory st |}.

Definition with_currentEncAlgo (st : State) (a : string) : State :=
  {| deviceState := deviceState st; currentEncAlgo := a;
     sensorHistory := sensorHistory st |}.

Definition with_sensorHistory (st : State) (h : list Envelope) : State :=
  {| deviceState := deviceState st; currentEncAlgo := currentEncAlgo st;
     sensorHistory := h |}.

(** The state when the script has been loaded, at time [t0]. *)
Definition initial_state (env : Env) (t0 : Z) : State :=
  {| deviceState :=
       {| led := false; fan := false; allowFanControl := true;
          temperature := Finite 25; humidity := Finite 60; lastUpdate := Some t0 |};
     currentEncAlgo := DEFAULT_ENC_ALGO env;
     sensorHistory := [] |}.

(** ** Effects and responses *)

Inductive Effect : Type :=
| Emit (event : string) (payload : JsValue)      (* [io.emit] *)
| ConsoleError (label : string) (msg : string)   (* [console.error] *)
| HttpPost (hostname port path : string) (postData : JsValue).
    (* [http.request] with method POST, then [req.write(postData)]; the port
       as its text, [url.port] or 80; the data as the object that is written
       as JSON *)

(** How a function of the script ends: it returns, or an exception
    leaves it. *)
Inductive Completion : Type :=
| Returned
| Thrown (msg : string).

Record Response : Type := {
  status : Z;
  body : JsValue
}.

(** [res.json(o)] and [res.status(c).json(o)] *)
Definition json (o : list (string * JsValue)) : Response :=
  {| status := 200; body := JObj o |}.

Definition status_json (c : Z) (o : list (string * JsValue)) : Response :=
  {| status := c; body := JObj o |}.

Definition js_date (t : option Z) : JsValue :=
  match t with
  | Some ms => JDate ms
  | None => JNull
  end.

(** ** Freshness evaluator *)

Inductive HealthStatus : Type := OK | STALE | UNKNOWN.

Record Health : Type := {
  h_status : HealthStatus;
  h_ageMs : option Z;
  h_isFresh : bool;
  h_lastUpdate : option Z
}.

Definition maxAge (env : Env) : double :=
  Double.or (parseInt (env_DATA_HEALTH_MAX_AGE_MS env)) (Double.mul (tempInterval env) 2).

(** [ageMs <= maxAge], for an age in milliseconds. *)
Definition within (ageMs : Z) (M : double) : bool :=
  Double.leb (Double.of_Z ageMs) M.

(** [getDataHealth()], with [now] the value of [Date.now()]. *)
Definition getDataHealth (env : Env) (now : Z) (st : State) : Health :=
  match lastUpdate (deviceState st) with
  | None =>
      {| h_status := UNKNOWN; h_ageMs := None; h_isFresh := false; h_lastUpdate := None |}
  | Some t =>
      let ageMs := now - t in
      let isFresh := within ageMs (maxAge env) in
      {| h_status := if isFresh then OK else STALE;
         h_ageMs := Some ageMs;
         h_isFresh := isFresh;
         h_lastUpdate := Some t |}
  end.

Definition status_name (s : HealthStatus) : string :=
  match s with
  | OK => "OK"
  | STALE => "STALE"
  | UNKNOWN => "UNKNOWN"
  end.

Definition health_js (h : Health) : JsValue :=
  JObj [ ("status", JStr (status_name (h_status h)));
         ("ageMs", match h_ageMs h with Some a => JInt a | None => JNull end);
         ("isFresh", JBool (h_isFresh h));
         ("lastUpdate", js_date (h_lastUpdate h)) ].

(** ** Actuator control *)

(** [state === 'ON' || state === 1 || state === true] *)
Definition is_on (state : JsValue) : bool :=
  strict_eq_str state "ON" || strict_eq_num state 1 || strict_eq_bool state true.

(** [state === 'OFF' || state === 0 || state === false] *)
Definition is_off (state : JsValue) : bool :=
  strict_eq_str state "OFF" || strict_eq_num state 0 || strict_eq_bool state false.

Definition on_off (b : bool) : string := if b then "ON" else "OFF".

(** A request body is the object [express.json()] leaves in [req.body]. *)
Definition Body : Type := list (string * JsValue).

(** [app.post('/led', ...)]; [now] is the clock read by [new Date()]. *)
Definition post_led (now : Z) (req_body : Body) (st : State)
  : State * list Effect * Response :=
  let state := get_field "state" req_body in
  let d0 := deviceState st in
  let d1 :=
    if is_on state then set_led d0 true
    else if is_off state then set_led d0 false
    else d0 in
  let d2 := set_lastUpdate d1 (Some now) in
  (with_deviceState st d2,
   [ Emit "ledStateChanged"
       (JObj [ ("led", JBool (led d2)); ("timestamp", js_date (lastUpdate d2)) ]) ],
   json [ ("success", JBool true);
          ("led", JBool (led d2));
          ("message", JStr (String.append "LED " (on_off (led d2)))) ]).

(** [app.post('/fan', ...)] *)
Definition post_fan (now : Z) (req_body : Body) (st : State)
  : State * list Effect * Response :=
  let state := get_field "state" req_body in
  let d0 := deviceState st in
  if negb (allowFanControl d0) then
    (st, [], status_json 403 [ ("success", JBool false);
                               ("message", JStr "Fan control is disabled") ])
  else
    let after_state :=
      if is_on state then Some (set_fan d0 true)
      else if is_off state then Some (set_fan d0 false)
      else None in
    match after_state with
    | None =>
        (st, [], status_json 400 [ ("success", JBool false);
                                   ("message", JStr "Invalid fan state") ])
    | Some d1 =>
        let d2 := set_lastUpdate d1 (Some now) in
        (with_deviceState st d2,
         [ Emit "fanStateChanged"
             (JObj [ ("fan", JBool (fan d2)); ("timestamp", js_date (lastUpdate d2)) ]) ],
         json [ ("success", JBool true);
                ("fan", JBool (fan d2));
                ("message", JStr (String.append "FAN " (on_off (fan d2)))) ])
    end.

(** ** Settings *)

(** The coercion of [allowFanControl] to a strict boolean. *)
Definition flag_of (v : JsValue) : bool :=
  strict_eq_bool v true || strict_eq_str v "true" || strict_eq_num v 1
  || strict_eq_str v "1".

(** [app.post('/settings', ...)]; [now] is the clock read inside
    [getDataHealth]. *)
Definition post_settings (env : Env) (now : Z) (req_body : Body) (st : State)
  : State * list Effect * Response :=
  let v_allow := get_field "allowFanControl" req_body in
  let v_algo := get_field "algo" req_body in
  let st1 :=
    if is_defined v_allow
    then with_deviceState st (set_allowFanControl (deviceState st) (flag_of v_allow))
    else st in
  let after_algo :=
    match v_algo with
    | JStr s =>
        let upper := toUpperCase s in
        if truthy (ALGORITHMS_get upper)
        then Some (with_currentEncAlgo st1 upper)
        else None
    | _ => Some st1
    end in
  match after_algo with
  | None =>
      (st1, [], status_json 400
         [ ("success", JBool false);
           ("message", JStr "Invalid encryption algorithm. Use AES or DES.") ])
  | Some st2 =>
      let health := getDataHealth env now st2 in
      (st2,
       [ Emit "settingsUpdated"
           (JObj [ ("allowFanControl", JBool (allowFanControl (deviceState st2)));
                   ("encAlgo", JStr (currentEncAlgo st2)) ]) ],
       json [ ("success", JBool true);
              ("allowFanControl", JBool (allowFanControl (deviceState st2)));
              ("encAlgo", JStr (currentEncAlgo st2));
              ("dataHealth", health_js health) ])
  end.

(** The parts of what a route handler or a tick returns. *)
Definition state_of {A : Type} (r : State * list Effect * A) : State := fst (fst r).
Definition effects_of {A : Type} (r : State * list Effect * A) : list Effect :=
  snd (fst r).
Definition response_of (r : State * list Effect * Response) : Response := snd r.
Definition completion_of (r : State * list Effect * Completion) : Completion := snd r.

(** ** History ring buffer *)

(** [sensorHistory.push(payload); if (sensorHistory.length > 500)
    sensorHistory.shift();] *)
Definition history_push (payload : Envelope) (history : list Envelope) : list Envelope :=
  let pushed := history ++ [payload] in
  if (500 <? List.length pushed)%nat then tl pushed else pushed.

(** The buffer after the envelopes [ps] have been appended, in this
    order, to an empty history. *)
Definition pushes (ps : list Envelope) : list Envelope :=
  fold_left (fun history payload => history_push payload history) ps [].

(** ** Simulated sensor values *)

(** [Math.floor(Math.random() * (max - min + 1)) + min], each operation
    rounded as the doubles are; [rnd] is the value of [Math.random()]. *)
Definition floor_range (rnd : Q) (min max : double) : double :=
  Double.add
    (Double.floor (Double.mul (Finite rnd) (Double.add (Double.sub max min) 1)))
    min.

Definition generateRandomTemperature (env : Env) (rnd : Q) : double :=
  floor_range rnd (Double.or (env_TEMP_MIN env) 20) (Double.or (env_TEMP_MAX env) 35).

Definition generateRandomHumidity (env : Env) (rnd : Q) : double :=
  floor_range rnd (Double.or (env_HUM_MIN env) 40) (Double.or (env_HUM_MAX env) 80).

(** ** Entropy *)

(** [crypto.randomBytes(n)] on the entropy the system can supply: it
    throws when there is not enough. *)
Definition randomBytes (n : nat) (pool : list byte) : Result (list byte) :=
  if (n <=? List.length pool)%nat then Ok (firstn n pool)
  else Throw "crypto.randomBytes: no entropy".

(** ** What the update cycle reads and writes *)

(** Truthiness of a string read from the environment, as in
    [!mainServerUrl]. *)
Definition nonempty (s : option string) : bool :=
  match s with
  | Some (String _ _) => true
  | _ => false
  end.

(** What one run of [updateSensorData] reads from outside the script. *)
Record TickInput : Type := {
  rnd_temperature : Q;   (* [Math.random()] in [generateRandomTemperature] *)
  rnd_humidity : Q;      (* [Math.random()] in [generateRandomHumidity]:
                            doubles of [0, 1) *)
  tick_now : Z;          (* [new Date()] *)
  tick_pool : list byte; (* entropy for [crypto.randomBytes] *)
  health_now : Z         (* [Date.now()] in [getDataHealth] *)
}.

(** The records that are encrypted: [{timestamp, temperature, humidity}]
    for the history and the sensor export, [{timestamp, humidity}] for the
    humidity export. *)
Definition sensor_record (timestamp : string) (d : DeviceState) : JsValue :=
  JObj [ ("timestamp", JStr timestamp);
         ("temperature", JNum (temperature d));
         ("humidity", JNum (humidity d)) ].

Definition humidity_record (timestamp : string) (d : DeviceState) : JsValue :=
  JObj [ ("timestamp", JStr timestamp);
         ("humidity", JNum (humidity d)) ].

(** ** Reading the state *)

(** [app.get('/sensor', ...)] *)
Definition get_sensor (st : State) : Response :=
  let d := deviceState st in
  json [ ("temperature", JNum (temperature d));
         ("humidity", JNum (humidity d));
         ("timestamp", js_date (lastUpdate d)) ].

(** [{...deviceState, encAlgo: currentEncAlgo, dataHealth: getDataHealth()}],
    the object both [/status] and a new socket connection are given; the
    spread lists the fields of [deviceState] in the order of its literal. *)
Definition status_snapshot (env : Env) (now : Z) (st : State) : list (string * JsValue) :=
  let d := deviceState st in
  [ ("led", JBool (led d));
    ("fan", JBool (fan d));
    ("allowFanControl", JBool (allowFanControl d));
    ("temperature", JNum (temperature d));
    ("humidity", JNum (humidity d));
    ("lastUpdate", js_date (lastUpdate d));
    ("encAlgo", JStr (currentEncAlgo st));
    ("dataHealth", health_js (getDataHealth env now st)) ].

(** [app.get('/status', ...)] *)
Definition get_status (env : Env) (now : Z) (st : State) : Response :=
  json (status_snapshot env now st).

(** [app.get('/data-health', ...)] *)
Definition get_data_health (env : Env) (now : Z) (st : State) : Response :=
  {| status := 200; body := health_js (getDataHealth env now st) |}.

(** [io.on('connection', ...)]: the event sent to the socket that has
    connected, and its payload. *)
Definition on_connection (env : Env) (now : Z) (st : State) : string * JsValue :=
  ("initialState", JObj (status_snapshot env now st)).

(** ** Start of the server *)

(** [process.env.PORT || 4000], as the text the listening address is
    printed with. *)
Definition PORT (env : Env) : string := str_or (env_PORT env) "4000".

(** The effects that are requests to the main server. *)
Definition is_request (e : Effect) : bool :=
  match e with
  | HttpPost _ _ _ _ => true
  | _ => false
  end.

(** ** Shapes of values *)

(** The number [d] is the integer [z]. *)
Definition is_integer (d : double) (z : Z) : Prop :=
  exists q, d = Finite q /\ (q == inject_Z z)%Q.

(** The representations [/settings] takes for a set flag. *)
Inductive flag_repr : JsValue -> Prop :=
| flag_true : flag_repr (JBool true)
| flag_true_text : flag_repr (JStr "true")
| flag_one (q : Q) : (q == 1)%Q -> flag_repr (JNum q)
| flag_one_text : flag_repr (JStr "1").

(** An envelope a client can take apart: its algorithm is a profile of
    the registry, its [iv] is the base64 text of as many bytes as the
    profile's [ivLen], and its [data] is the base64 text of a whole,
    positive number of cipher blocks. *)
Definition envelope_ok (e : Envelope) : Prop :=
  exists p iv_bytes encrypted,
    In (algo e, p) ALGORITHMS
    /\ Base64.decode (iv e) = Some iv_bytes
    /\ List.length iv_bytes = ivLen p
    /\ Base64.decode (data e) = Some encrypted
    /\ (0 < List.length encrypted)%nat
    /\ (List.length encrypted mod ivLen p = 0)%nat.

(** The answer of an export that failed. *)
Definition EncryptionError : Response :=
  status_json 500 [ ("encrypted", JBool false); ("error", JStr "encryption error") ].

(** ** Sample inputs *)

(** A process started without any of the variables set, and the script
    loaded at time 0. *)
Definition no_env : Env :=
  {| env_DATA_SECRET := None; env_ENC_ALGO := None; env_TEMP_MIN := NaN;
     env_TEMP_MAX := NaN; env_HUM_MIN := NaN; env_HUM_MAX := NaN;
     env_TEMP_INTERVAL := None; env_DATA_HEALTH_MAX_AGE_MS := None;
     env_MAIN_SERVER_URL := None; env_SEND_TO_MAIN_SERVER := None;
     env_PORT := None |}.

Definition loaded : State := initial_state no_env 0.

(** The loaded state with another [lastUpdate]. *)
Definition updated_at (T : option Z) : State :=
  with_deviceState loaded (set_lastUpdate (deviceState loaded) T).

(** A process started with only [DATA_HEALTH_MAX_AGE_MS] set. *)
Definition env_max_age (v : string) : Env :=
  {| env_DATA_SECRET := None; env_ENC_ALGO := None; env_TEMP_MIN := NaN;
     env_TEMP_MAX := NaN; env_HUM_MIN := NaN; env_HUM_MAX := NaN;
     env_TEMP_INTERVAL := None; env_DATA_HEALTH_MAX_AGE_MS := Some v;
     env_MAIN_SERVER_URL := None; env_SEND_TO_MAIN_SERVER := None;
     env_PORT := None |}.

(** Sixteen bytes of entropy, [00 01 .. 0f]. *)
Definition pool16 : list byte := unhex "000102030405060708090a0b0c0d0e0f".

(** The first tick of a process started at time 0 with an update period
    of 5000 ms, with and without entropy. *)
Definition tick1 (pool : list byte) : TickInput :=
  {| rnd_temperature := 5 # 16; rnd_humidity := 1 # 2; tick_now := 5000;
     tick_pool := pool; health_now := 5001 |}.

(** The state of a process that has been updated at the time of the
    sample below, with the active algorithm [name]. *)
Definition sampled (name : string) : State :=
  with_currentEncAlgo (updated_at (Some 1793556720123)) name.

(** Envelopes that differ in their data. *)
Definition numbered (n : nat) : Envelope :=
  {| algo := "AES"; iv := "AAECAwQFBgcICQoLDA0ODw=="; data := Json.decimal (Z.of_nat n) |}.

(** A process started with forwarding to a main server switched on and
    no [PORT]. *)
Definition env_forwarding : Env :=
  {| env_DATA_SECRET := None; env_ENC_ALGO := None; env_TEMP_MIN := NaN;
     env_TEMP_MAX := NaN; env_HUM_MIN := NaN; env_HUM_MAX := NaN;
     env_TEMP_INTERVAL := None; env_DATA_HEALTH_MAX_AGE_MS := None;
     env_MAIN_SERVER_URL := Some "http://main-server:3000";
     env_SEND_TO_MAIN_SERVER := Some "true";
     env_PORT := None |}.


(** ** The vocabulary of the specification *)

(** The representations of ON and of OFF a control call may carry. *)
Inductive on_repr : JsValue -> Prop :=
| on_string : on_repr (JStr "ON")
| on_number (q : Q) : (q == 1)%Q -> on_repr (JNum q)
| on_true : on_repr (JBool true).

Inductive off_repr : JsValue -> Prop :=
| off_string : off_repr (JStr "OFF")
| off_number (q : Q) : (q == 0)%Q -> off_repr (JNum q)
| off_false : off_repr (JBool false).

(** The error results of the specification, as the responses that carry
    them. *)
Definition FanControlDisabled : Response :=
  status_json 403 [ ("success", JBool false);
                    ("message", JStr "Fan control is disabled") ].

Definition InvalidState : Response :=
  status_json 400 [ ("success", JBool false);
                    ("message", JStr "Invalid fan state") ].

Definition InvalidAlgorithm : Response :=
  status_json 400 [ ("success", JBool false);
                    ("message", JStr "Invalid encryption algorithm. Use AES or DES.") ].

(** A name resolves in the registry when it is the name of a profile. *)
Definition resolves (name : string) : Prop :=
  exists p, In (name, p) ALGORITHMS.

(** ** Query parameters *)

(** What the query parser leaves in [req.query.algo] when the parameter
    is there: a string, an array ([?algo[]=DES], [?algo=a&algo=b]) or an
    object ([?algo[k]=v]). *)
Inductive QueryValue : Type :=
| QString (s : string)
| QArray (items : list QueryValue)
| QObject (fields : list (string * QueryValue)).

(** The value as it is put in a response body. *)
Fixpoint js_of_query (q : QueryValue) : JsValue :=
  match q with
  | QString s => JStr s
  | QArray items => JArr (map js_of_query items)
  | QObject fields => JObj (map (fun kv => (fst kv, js_of_query (snd kv))) fields)
  end.

Definition has_key (k : string) (fields : list (string * QueryValue)) : bool :=
  existsb (fun kv => String.eqb (fst kv) k) fields.

(** The string of the value, which is what a property read
    [ALGORITHMS[v]] and a template literal use: an array is its elements
    joined by commas; an object is [[object Object]], unless it has a
    [toString] of its own, which the parser never makes a function: then
    the conversion throws a [TypeError]. *)
Fixpoint ToString (q : QueryValue) : Result string :=
  match q with
  | QString s => Ok s
  | QArray items =>
      (fix join (l : list QueryValue) (sep acc : string) {struct l} : Result string :=
         match l with
         | [] => Ok acc
         | x :: rest =>
             match ToString x with
             | Ok t => join rest "," (String.append acc (String.append sep t))
             | Throw m => Throw m
             end
         end) items "" ""
  | QObject fields =>
      if has_key "toString" fields
      then Throw "Cannot convert object to primitive value"
      else Ok "[object Object]"
  end.

(** Truthiness: of these values only the empty string is falsy. *)
Definition query_truthy (q : QueryValue) : bool :=
  match q with
  | QString EmptyString => false
  | _ => true
  end.

(** ** The encryptor and what calls it *)

Section WithRuntime.

(** The runtime's [JSON.stringify], which yields the JSON text of a value
    or throws, its [JSON.parse], and its [new URL(input, base)], which
    parses [input] against [base] or throws. *)
Variable JSON_stringify : JsValue -> Result string.
Variable JSON_parse : string -> Result JsValue.
Variable new_URL : string -> string -> Result Url.

(** [encryptJSON(data, algoName, secret)]; [pool] is the entropy
    [crypto.randomBytes] can draw on. *)
Definition encryptJSON (pool : list byte) (data : JsValue) (algoName secret : string)
  : Result Envelope :=
  match ALGORITHMS_get algoName with
  | Undefined => Throw (String.append "Unsupported algorithm: " algoName)
  | Inherited =>
      (* [algo.ivLen] is [undefined] and [crypto.randomBytes(undefined)] throws
         a [TypeError]; its message, without the quotes around [size] *)
      Throw "The size argument must be of type number. Received undefined"
  | Own algo =>
      let key := deriveKey secret (keyLen algo) in
      iv <- randomBytes (ivLen algo) pool ;;
      cipher <- createCipheriv (cipher algo) key iv ;;
      json <- JSON_stringify data ;;
      let encrypted := cipher_update_final cipher (list_byte_of_string json) in
      Ok {| algo := algoName; iv := Base64.encode iv; data := Base64.encode encrypted |}
  end.

(** [deviceState.lastUpdate.toISOString()] *)
Definition lastUpdate_toISOString (d : DeviceState) : Result string :=
  match lastUpdate d with
  | Some t => Ok (ISODate.toISOString t)
  | None => Throw "Cannot read properties of null (reading 'toISOString')"
  end.

(** The body of the [try] block of [updateSensorData]: the new history. *)
Definition record_history (env : Env) (pool : list byte) (st : State)
  : Result (list Envelope) :=
  let d := deviceState st in
  timestamp <- lastUpdate_toISOString d ;;
  let record := sensor_record timestamp d in
  payload <- encryptJSON pool record (currentEncAlgo st) (DATA_SECRET env) ;;
  Ok (history_push payload (sensorHistory st)).

(** The first three assignments of [updateSensorData]. *)
Definition refresh (env : Env) (i : TickInput) (st : State) : State :=
  let d1 := set_temperature (deviceState st)
              (generateRandomTemperature env (rnd_temperature i)) in
  let d2 := set_humidity d1 (generateRandomHumidity env (rnd_humidity i)) in
  with_deviceState st (set_lastUpdate d2 (Some (tick_now i))).

(** [sendToMainServer()]: the request handed to [http.request].  The
    data are made before the URL is parsed, and [new URL] throws when
    [MAIN_SERVER_URL] is not a base it accepts. *)
Definition sendToMainServer (env : Env) (st : State) : Result (list Effect) :=
  let shouldSend :=
    match env_SEND_TO_MAIN_SERVER env with
    | Some s => String.eqb s "true"
    | None => false
    end in
  if negb shouldSend || negb (nonempty (env_MAIN_SERVER_URL env)) then Ok []
  else
    let d := deviceState st in
    let postData :=
      JObj [ ("ip", JStr (String.append "localhost:" (str_or (env_PORT env) "4001")));
             ("temperature", JNum (temperature d));
             ("humidity", JNum (humidity d));
             ("timestamp", js_date (lastUpdate d)) ] in
    url <- new_URL "/api/sensor-data" (str_or (env_MAIN_SERVER_URL env) "") ;;
    Ok [ HttpPost (url_hostname url) (str_or (Some (url_port url)) "80")
           (url_pathname url) postData ].

(** The [try] block of [updateSensorData] with its [catch]: the state
    it leaves and what it has logged. *)
Definition try_history (env : Env) (pool : list byte) (st1 : State)
  : State * list Effect :=
  match record_history env pool st1 with
  | Ok history => (with_sensorHistory st1 history, [])
  | Throw msg =>
      (st1, [ ConsoleError "[ESP32 Simulator] Encrypt history error:" msg ])
  end.

(** [updateSensorData()]: the state it leaves, what it has done, and how
    it ends.  The call of [sendToMainServer] is its last statement and is
    outside the [try] block: what that throws leaves the tick. *)
Definition updateSensorData (env : Env) (i : TickInput) (st : State)
  : State * list Effect * Completion :=
  let st1 := refresh env i st in
  let '(st2, logged) := try_history env (tick_pool i) st1 in
  let health := getDataHealth env (health_now i) st2 in
  let emitted :=
    logged
    ++ [ Emit "temperatureUpdated"
           (JObj [ ("temperature", JNum (temperature (deviceState st2)));
                   ("humidity", JNum (humidity (deviceState st2)));
                   ("timestamp", js_date (lastUpdate (deviceState st2))) ]);
         Emit "dataHealthUpdated" (health_js health) ] in
  match sendToMainServer env st2 with
  | Ok requests => (st2, emitted ++ requests, Returned)
  | Throw msg => (st2, emitted, Thrown msg)
  end.

(** The requests a call of [sendToMainServer] makes, and how it ends. *)
Definition forwarded (env : Env) (st : State) : list Effect :=
  match sendToMainServer env st with
  | Ok requests => requests
  | Throw _ => []
  end.

Definition forwarding_ends (env : Env) (st : State) : Completion :=
  match sendToMainServer env st with
  | Ok _ => Returned
  | Throw msg => Thrown msg
  end.

(** ** Encrypted exports *)

(** [(req.query.algo && ALGORITHMS[req.query.algo]) ? req.query.algo
    : currentEncAlgo]: the property read takes the string of the value,
    which can throw; the name chosen is the value itself. *)
Definition export_algoName (query_algo : option QueryValue) (st : State)
  : Result QueryValue :=
  match query_algo with
  | Some q =>
      if query_truthy q then
        key <- ToString q ;;
        Ok (if truthy (ALGORITHMS_get key) then q else QString (currentEncAlgo st))
      else Ok (QString (currentEncAlgo st))
  | None => Ok (QString (currentEncAlgo st))
  end.

(** [encryptJSON(data, algoName, DATA_SECRET)] for a name that need not
    be a string: [encryptJSON] reads the name through its string, as a
    property key and in its error message. *)
Definition encrypt_for (env : Env) (pool : list byte) (data : JsValue)
    (algoName : QueryValue) : Result Envelope :=
  key <- ToString algoName ;;
  encryptJSON pool data key (DATA_SECRET env).

(** The [try] block of an export and its [catch]: [{encrypted: true,
    ...payload}], in which [algo] is the name as it was handed to
    [encryptJSON], or the answer 500. *)
Definition export_response (label : string) (algoName : QueryValue)
    (r : Result Envelope) : list Effect * Response :=
  match r with
  | Ok payload =>
      ([], json [ ("encrypted", JBool true);
                  ("algo", js_of_query algoName);
                  ("iv", JStr (iv payload));
                  ("data", JStr (data payload)) ])
  | Throw msg =>
      ([ ConsoleError label msg ],
       status_json 500 [ ("encrypted", JBool false);
                         ("error", JStr "encryption error") ])
  end.

(** [app.get('/sensor_encrypted', ...)]; a [Throw] leaves the handler. *)
Definition get_sensor_encrypted (env : Env) (pool : list byte)
    (query_algo : option QueryValue) (st : State) : Result (list Effect * Response) :=
  algoName <- export_algoName query_algo st ;;
  let d := deviceState st in
  timestamp <- lastUpdate_toISOString d ;;
  let data := sensor_record timestamp d in
  Ok (export_response "[ESP32 Simulator] /sensor_encrypted error:" algoName
        (encrypt_for env pool data algoName)).

(** [app.get('/humidity_encrypted', ...)] *)
Definition get_humidity_encrypted (env : Env) (pool : list byte)
    (query_algo : option QueryValue) (st : State) : Result (list Effect * Response) :=
  algoName <- export_algoName query_algo st ;;
  let d := deviceState st in
  timestamp <- lastUpdate_toISOString d ;;
  let data := humidity_record timestamp d in
  Ok (export_response "[ESP32 Simulator] /humidity_encrypted error:" algoName
        (encrypt_for env pool data algoName)).

(** ** The running process *)

(** What can happen to the process once the script is loaded: a timer
    tick or one of the requests that change the state. *)
Inductive Event : Type :=
| Tick (i : TickInput)
| PostLed (now : Z) (req_body : Body)
| PostFan (now : Z) (req_body : Body)
| PostSettings (now : Z) (req_body : Body).

Definition handle (env : Env) (e : Event) (st : State)
  : State * list Effect * Completion :=
  match e with
  | Tick i => updateSensorData env i st
  | PostLed now b => let '(st', eff, _) := post_led now b st in (st', eff, Returned)
  | PostFan now b => let '(st', eff, _) := post_fan now b st in (st', eff, Returned)
  | PostSettings now b =>
      let '(st', eff, _) := post_settings env now b st in (st', eff, Returned)
  end.

(** The state after the events, one after the other.  An exception that
    leaves a tick is caught by nothing: it ends the process, and the
    events after it do not happen. *)
Fixpoint run (env : Env) (events : list Event) (st : State) : Result State :=
  match events with
  | [] => Ok st
  | e :: rest =>
      match completion_of (handle env e st) with
      | Returned => run env rest (state_of (handle env e st))
      | Thrown msg => Throw msg
      end
  end.

(** The states the process can be in: those a run from the loaded script
    reaches. *)
Definition reachable (env : Env) (st : State) : Prop :=
  exists t0 events, run env events (initial_state env t0) = Ok st.

(** Modelled from the spec: the decrypt operation of sections 4.2 and 8,
    which the source does not have.  It takes the envelope apart the way
    [encryptJSON] built it: the profile from [algo], the key from the
    secret, the IV and the cipher text from their base64 texts. *)
Definition decryptJSON (envelope : Envelope) (secret : string) : Result JsValue :=
  match ALGORITHMS_get (algo envelope) with
  | Own profile =>
      let key := deriveKey secret (keyLen profile) in
      match Base64.decode (iv envelope), Base64.decode (data envelope) with
      | Some iv_bytes, Some encrypted =>
          decipher <- createDecipheriv (cipher profile) key iv_bytes ;;
          plain <- decipher_update_final decipher encrypted ;;
          JSON_parse (string_of_list_byte plain)
      | _, _ => Throw "Invalid base64 text"
      end
  | _ => Throw (String.append "Unsupported algorithm: " (algo envelope))
  end.

(** * Properties *)

(** ** Numbers *)

Lemma pow2_pos (e : Z) : (0 < Double.pow2 e)%Q.
Proof. apply Qpower_0_lt. reflexivity. Qed.

Lemma pow2_add (a b : Z) : (Double.pow2 (a + b) == Double.pow2 a * Double.pow2 b)%Q.
Proof. apply Qpower_plus. discriminate. Qed.

Lemma pow2_0 : (Double.pow2 0 == 1)%Q.
Proof. reflexivity. Qed.

Lemma pow2_int (e : Z) : 0 <= e -> (Double.pow2 e == inject_Z (2 ^ e))%Q.
Proof. intros H. symmetry. apply (Zpower_Qpower 2 e H). Qed.

Lemma pow2_cancel (e : Z) : (Double.pow2 e * Double.pow2 (- e) == 1)%Q.
Proof. rewrite <- pow2_add. replace (e + - e) with 0 by lia. reflexivity. Qed.

Lemma pow2_ge_1 (e : Z) : 0 <= e -> (1 <= Double.pow2 e)%Q.
Proof.
  intros H. rewrite (pow2_int e H). change 1%Q with (inject_Z 1).
  rewrite <- Zle_Qle. pose proof (Z.pow_pos_nonneg 2 e ltac:(lia) H). lia.
Qed.

Lemma pow2_mono (a b : Z) : a <= b -> (Double.pow2 a <= Double.pow2 b)%Q.
Proof.
  intros H. replace b with (a + (b - a)) by lia. rewrite pow2_add.
  pose proof (pow2_pos a). pose proof (pow2_ge_1 (b - a) ltac:(lia)). nra.
Qed.

Lemma pow2_lt (a b : Z) : a < b -> (Double.pow2 a < Double.pow2 b)%Q.
Proof.
  intros H. replace b with (a + 1 + (b - a - 1)) by lia. rewrite !pow2_add.
  pose proof (pow2_pos a). pose proof (pow2_ge_1 (b - a - 1) ltac:(lia)).
  change (Double.pow2 1) with 2%Q. nra.
Qed.

Lemma pow2_lt_inv (a b : Z) : (Double.pow2 a < Double.pow2 b)%Q -> a < b.
Proof.
  intros H. destruct (Z_lt_le_dec a b) as [|Hle]; [assumption |].
  pose proof (pow2_mono b a Hle). lra.
Qed.

Lemma log2_bounds (a : Z) :
  0 < a -> (Double.pow2 (Z.log2 a) <= inject_Z a)%Q /\ (inject_Z a < Double.pow2 (Z.log2 a + 1))%Q.
Proof.
  intros H. destruct (Z.log2_spec a H) as [Hlo Hhi].
  pose proof (Z.log2_nonneg a) as Hn.
  rewrite (pow2_int _ Hn), (pow2_int (Z.log2 a + 1)) by lia.
  rewrite <- Zle_Qle, <- Zlt_Qlt. replace (Z.log2 a + 1) with (Z.succ (Z.log2 a)) by lia.
  split; assumption.
Qed.

Lemma Qmake_mul (q : Q) : (q * inject_Z (Zpos (Qden q)) == inject_Z (Qnum q))%Q.
Proof.
  destruct q as [a b]. unfold Qeq, Qmult, inject_Z. simpl. rewrite Pos.mul_1_r. ring.
Qed.

Lemma ilog2_spec (q : Q) :
  (0 < q)%Q -> (Double.pow2 (Double.ilog2 q) <= q)%Q /\ (q < Double.pow2 (Double.ilog2 q + 1))%Q.
Proof.
  intros Hq.
  assert (Ha : 0 < Qnum q).
  { destruct q as [a b]. unfold Qlt in Hq. cbn [Qnum Qden] in *. lia. }
  destruct (log2_bounds (Qnum q) Ha) as [Ha1 Ha2].
  destruct (log2_bounds (Zpos (Qden q)) ltac:(lia)) as [Hb1 Hb2].
  pose proof (Qmake_mul q) as Hm.
  set (la := Z.log2 (Qnum q)) in *. set (lb := Z.log2 (Zpos (Qden q))) in *.
  set (A := inject_Z (Qnum q)) in *. set (B := inject_Z (Zpos (Qden q))) in *.
  unfold Double.ilog2. fold la lb.
  destruct (Qle_bool (Double.pow2 (la - lb)) q) eqn:E.
  - apply Qle_bool_iff in E. split; [exact E |].
    assert (Hp : (Double.pow2 (la - lb + 1) * Double.pow2 lb == Double.pow2 (la + 1))%Q).
    { rewrite <- pow2_add. replace (la - lb + 1 + lb) with (la + 1) by lia. reflexivity. }
    pose proof (pow2_pos (la - lb + 1)). pose proof (pow2_pos lb).
    destruct (Qlt_le_dec q (Double.pow2 (la - lb + 1))) as [|Hge]; [assumption |].
    exfalso. nra.
  - assert (Hlt : (q < Double.pow2 (la - lb))%Q).
    { destruct (Qlt_le_dec q (Double.pow2 (la - lb))) as [|Hge]; [assumption |].
      apply Qle_bool_iff in Hge. congruence. }
    replace (la - lb - 1 + 1) with (la - lb) by lia. split; [| exact Hlt].
    assert (Hp : (Double.pow2 (la - lb - 1) * Double.pow2 (lb + 1) == Double.pow2 la)%Q).
    { rewrite <- pow2_add. replace (la - lb - 1 + (lb + 1)) with la by lia. reflexivity. }
    pose proof (pow2_pos (la - lb - 1)). pose proof (pow2_pos (lb + 1)).
    destruct (Qlt_le_dec q (Double.pow2 (la - lb - 1))) as [Hl |]; [| assumption].
    exfalso. nra.
Qed.

Lemma ilog2_lt (q : Q) (e : Z) : (0 < q)%Q -> (q < Double.pow2 e)%Q -> Double.ilog2 q < e.
Proof.
  intros Hq H. destruct (ilog2_spec q Hq) as [Hlo _].
  apply pow2_lt_inv. lra.
Qed.

Lemma ilog2_ge (q : Q) (e : Z) : (0 < q)%Q -> (Double.pow2 e <= q)%Q -> e <= Double.ilog2 q.
Proof.
  intros Hq H. destruct (ilog2_spec q Hq) as [_ Hhi].
  assert (e < Double.ilog2 q + 1) by (apply pow2_lt_inv; lra). lia.
Qed.

(** Rounding to the nearest integer. *)

Lemma nearest_even_int (y : Q) (z : Z) : (y == inject_Z z)%Q -> Double.nearest_even y = z.
Proof.
  intros H. unfold Double.nearest_even.
  assert (Ef : Qfloor y = z) by (rewrite H; apply Qfloor_Z).
  rewrite Ef.
  assert (E : (y - inject_Z z ?= 1 # 2)%Q = Lt).
  { apply (proj1 (Qlt_alt _ _)). lra. }
  rewrite E. reflexivity.
Qed.

Lemma nearest_even_bounds (y : Q) :
  (inject_Z (Double.nearest_even y) <= y + (1 # 2))%Q /\ (y - (1 # 2) <= inject_Z (Double.nearest_even y))%Q.
Proof.
  unfold Double.nearest_even. pose proof (Qfloor_le y) as Hf. pose proof (Qlt_floor y) as Hc.
  rewrite inject_Z_plus in Hc. change (inject_Z 1) with 1%Q in Hc.
  destruct (y - inject_Z (Qfloor y) ?= 1 # 2)%Q eqn:E.
  - apply (proj2 (Qeq_alt _ _)) in E. destruct (Z.even (Qfloor y)).
    + split; lra.
    + rewrite inject_Z_plus. change (inject_Z 1) with 1%Q. split; lra.
  - apply (proj2 (Qlt_alt _ _)) in E. split; lra.
  - apply (proj2 (Qgt_alt _ _)) in E. rewrite inject_Z_plus. change (inject_Z 1) with 1%Q. split; lra.
Qed.

Lemma nearest_even_below (y : Q) (n : Z) :
  (y < inject_Z n - (1 # 2))%Q -> Double.nearest_even y <= n - 1.
Proof.
  intros H. destruct (nearest_even_bounds y) as [Hup _].
  assert (Hlt : (inject_Z (Double.nearest_even y) < inject_Z n)%Q) by lra.
  rewrite <- Zlt_Qlt in Hlt. lia.
Qed.

Lemma nearest_even_nonneg (y : Q) : (0 <= y)%Q -> 0 <= Double.nearest_even y.
Proof.
  intros H. destruct (nearest_even_bounds y) as [_ Hlo].
  assert (Hlt : (inject_Z (-1) < inject_Z (Double.nearest_even y))%Q).
  { change (inject_Z (-1)) with (-1)%Q. lra. }
  rewrite <- Zlt_Qlt in Hlt. lia.
Qed.

Lemma inject_Z_le_pred (m n : Z) : m <= n - 1 -> (inject_Z m <= inject_Z n - 1)%Q.
Proof.
  intros H. rewrite Zle_Qle in H. unfold Z.sub in H.
  rewrite inject_Z_plus, inject_Z_opp in H. exact H.
Qed.

Lemma Qred_int (q : Q) (z : Z) : (q == inject_Z z)%Q -> Qred q = inject_Z z.
Proof.
  intros H. rewrite (Qred_complete _ _ H). unfold Qred, inject_Z.
  pose proof (Z.ggcd_gcd z 1) as Hg. pose proof (Z.ggcd_correct_divisors z 1) as Hd.
  destruct (Z.ggcd z 1) as [g [aa bb]]. cbn [fst snd] in *.
  rewrite Z.gcd_1_r in Hg. subst g. destruct Hd as [Ha Hb].
  rewrite Z.mul_1_l in Ha, Hb. subst aa bb. reflexivity.
Qed.

Lemma pow2_53 : (Double.pow2 53 == inject_Z (2 ^ 53))%Q.
Proof. apply pow2_int. lia. Qed.

Lemma ulp_exponent_le (q : Q) (b : Z) :
  (0 < q)%Q -> (q < Double.pow2 (b + 53))%Q -> -1074 <= b -> Double.ulp_exponent q <= b.
Proof.
  intros Hq Hlt Hb. unfold Double.ulp_exponent.
  pose proof (ilog2_lt q (b + 53) Hq Hlt). lia.
Qed.

Lemma pow2_ulp_exponent (q : Q) :
  (0 < q)%Q -> (Double.pow2 (Double.ulp_exponent q + 52) <= q)%Q \/ Double.ulp_exponent q = -1074.
Proof.
  intros Hq. unfold Double.ulp_exponent. destruct (ilog2_spec q Hq) as [Hlo _].
  destruct (Z.max_spec (-1074) (Double.ilog2 q - 52)) as [[_ E] | [_ E]]; rewrite E.
  - replace (Double.ilog2 q - 52 + 52) with (Double.ilog2 q) by lia. left. exact Hlo.
  - right. reflexivity.
Qed.

(** An integer below [2^53] is a double. *)
Lemma round_magnitude_int (q : Q) (z : Z) :
  (q == inject_Z z)%Q -> 0 < z < 2 ^ 53 -> Double.round_magnitude q = Some (inject_Z z).
Proof.
  intros H [Hpos Hlt].
  assert (Hq : (0 < q)%Q).
  { rewrite H. change 0%Q with (inject_Z 0). rewrite <- Zlt_Qlt. exact Hpos. }
  assert (Hq53 : (q < Double.pow2 (0 + 53))%Q).
  { rewrite H. change (0 + 53) with 53. rewrite pow2_53, <- Zlt_Qlt. exact Hlt. }
  pose proof (ulp_exponent_le q 0 Hq Hq53 ltac:(lia)) as He.
  unfold Double.round_magnitude. set (e := Double.ulp_exponent q) in *.
  assert (Hm : Double.nearest_even (q * Double.pow2 (- e)) = z * 2 ^ (- e)).
  { apply nearest_even_int. rewrite inject_Z_mult, H, (pow2_int (- e)) by lia.
    reflexivity. }
  rewrite Hm.
  assert (Hv : (inject_Z (z * 2 ^ (- e)) * Double.pow2 e == inject_Z z)%Q).
  { rewrite inject_Z_mult, <- (pow2_int (- e)) by lia.
    rewrite <- Qmult_assoc, (Qmult_comm (Double.pow2 (- e))), pow2_cancel. ring. }
  assert (Ho : Qle_bool (Double.pow2 1024) (inject_Z (z * 2 ^ (- e)) * Double.pow2 e) = false).
  { destruct (Qle_bool _ _) eqn:E; [| reflexivity].
    apply Qle_bool_iff in E. rewrite Hv in E.
    pose proof (pow2_lt 53 1024 ltac:(lia)) as Hp. rewrite pow2_53 in Hp.
    rewrite Zlt_Qlt in Hlt. lra. }
  rewrite Ho. f_equal. apply Qred_int, Hv.
Qed.

Lemma round_int (q : Q) (z : Z) :
  (q == inject_Z z)%Q -> - 2 ^ 53 < z < 2 ^ 53 -> Double.round q = Finite (inject_Z z).
Proof.
  intros H Hz. unfold Double.round.
  destruct (Z.lt_trichotomy z 0) as [Hneg | [-> | Hpos]].
  - assert (E : (q ?= 0)%Q = Lt).
    { apply (proj1 (Qlt_alt _ _)). rewrite H. change 0%Q with (inject_Z 0).
      rewrite <- Zlt_Qlt. exact Hneg. }
    rewrite E.
    assert (H' : (- q == inject_Z (- z))%Q) by (rewrite H, inject_Z_opp; reflexivity).
    rewrite (round_magnitude_int (- q) (- z) H') by lia.
    unfold Qopp, inject_Z. cbn [Qnum Qden]. rewrite Z.opp_involutive. reflexivity.
  - assert (E : (q ?= 0)%Q = Eq) by (apply (proj1 (Qeq_alt _ _)); exact H).
    rewrite E. reflexivity.
  - assert (E : (q ?= 0)%Q = Gt).
    { apply (proj1 (Qgt_alt _ _)). rewrite H. change 0%Q with (inject_Z 0).
      rewrite <- Zlt_Qlt. exact Hpos. }
    rewrite E, (round_magnitude_int q z H) by lia. reflexivity.
Qed.

(** A product of a value below 1 with an integer [n] is rounded to a
    double below [n]. *)
Lemma round_below_int (x : Q) (n : Z) :
  (0 <= x)%Q -> 1 <= n <= 2 ^ 53 ->
  (x <= inject_Z n * (1 - Double.pow2 (-53)))%Q ->
  exists v, Double.round x = Finite v /\ (0 <= v)%Q /\ (v < inject_Z n)%Q.
Proof.
  intros Hx0 [Hn1 Hn53] Hx.
  assert (Hn1' : (1 <= inject_Z n)%Q).
  { change 1%Q with (inject_Z 1). rewrite <- Zle_Qle. exact Hn1. }
  assert (Hn53' : (inject_Z n <= Double.pow2 53)%Q) by (rewrite pow2_53, <- Zle_Qle; exact Hn53).
  pose proof (pow2_pos (-53)) as Hp53.
  unfold Double.round. destruct (x ?= 0)%Q eqn:E.
  - exists 0%Q. split; [reflexivity | split; lra].
  - apply (proj2 (Qlt_alt _ _)) in E. lra.
  - apply (proj2 (Qgt_alt _ _)) in E.
    assert (Hxn : (x < inject_Z n)%Q) by nra.
    assert (He : Double.ulp_exponent x <= 0).
    { apply ulp_exponent_le; [exact E | change (0 + 53) with 53; lra | lia]. }
    pose proof (pow2_ulp_exponent x E) as Hu.
    unfold Double.round_magnitude. set (e := Double.ulp_exponent x) in *.
    pose proof (pow2_pos e) as Hpe. pose proof (pow2_pos (- e)) as Hpne.
    pose proof (pow2_cancel e) as Hc.
    assert (Hgap : (Double.pow2 (e + 52) < inject_Z n)%Q).
    { destruct Hu as [Hu | Hu]; [lra |].
      rewrite Hu. pose proof (pow2_lt (-1074 + 52) 0 ltac:(lia)) as Hl.
      rewrite pow2_0 in Hl. lra. }
    assert (Hgap' : (1 # 2 < inject_Z n * Double.pow2 (-53) * Double.pow2 (- e))%Q).
    { assert (Hs : (Double.pow2 (e + 52) * Double.pow2 (-53) * Double.pow2 (- e) == 1 # 2)%Q).
      { rewrite <- !pow2_add. replace (e + 52 + -53 + - e) with (-1) by lia. reflexivity. }
      assert (Hpp : (0 < Double.pow2 (-53) * Double.pow2 (- e))%Q) by nra.
      nra. }
    set (N := n * 2 ^ (- e)).
    assert (HN : (inject_Z N == inject_Z n * Double.pow2 (- e))%Q).
    { unfold N. rewrite inject_Z_mult, (pow2_int (- e)) by lia. reflexivity. }
    assert (Hy : (x * Double.pow2 (- e) < inject_Z N - (1 # 2))%Q).
    { rewrite HN. nra. }
    pose proof (nearest_even_below _ _ Hy) as Hm.
    assert (Hy0 : (0 <= x * Double.pow2 (- e))%Q) by nra.
    pose proof (nearest_even_nonneg _ Hy0) as Hm0.
    set (m := Double.nearest_even (x * Double.pow2 (- e))) in *.
    assert (Hm' : (inject_Z m <= inject_Z N - 1)%Q).
    { apply inject_Z_le_pred. lia. }
    assert (Hm0' : (0 <= inject_Z m)%Q).
    { change 0%Q with (inject_Z 0). rewrite <- Zle_Qle. exact Hm0. }
    assert (Hv : (inject_Z m * Double.pow2 e < inject_Z n)%Q).
    { assert (Hb : (inject_Z m * Double.pow2 e <= (inject_Z N - 1) * Double.pow2 e)%Q) by nra.
      assert (Hs : ((inject_Z N - 1) * Double.pow2 e == inject_Z n - Double.pow2 e)%Q).
      { rewrite HN. setoid_replace ((inject_Z n * Double.pow2 (- e) - 1) * Double.pow2 e)%Q
          with (inject_Z n * (Double.pow2 e * Double.pow2 (- e)) - Double.pow2 e)%Q by ring.
        rewrite Hc. ring. }
      lra. }
    assert (Ho : Qle_bool (Double.pow2 1024) (inject_Z m * Double.pow2 e) = false).
    { destruct (Qle_bool _ _) eqn:Eo; [| reflexivity].
      apply Qle_bool_iff in Eo.
      pose proof (pow2_lt 53 1024 ltac:(lia)). lra. }
    rewrite Ho. exists (Qred (inject_Z m * Double.pow2 e)).
    split; [reflexivity |]. rewrite Qred_correct. split; [nra | exact Hv].
Qed.

Lemma representable_below_1 (r : Q) :
  Double.representable r -> (0 <= r)%Q -> (r < 1)%Q -> (r <= 1 - Double.pow2 (-53))%Q.
Proof.
  intros [v [Hr Hv]] H0 H1.
  pose proof (pow2_pos (-53)) as Hp53.
  destruct (Qlt_le_dec r (1 # 2)) as [Hsmall | Hbig].
  { assert (Hh : (Double.pow2 (-53) <= 1 # 2)%Q).
    { pose proof (pow2_mono (-53) (-1) ltac:(lia)) as Hm.
      change (Double.pow2 (-1)) with (1 # 2)%Q in Hm. exact Hm. }
    lra. }
  assert (Hpos : (0 < r)%Q) by lra.
  unfold Double.round in Hr.
  assert (E : (r ?= 0)%Q = Gt) by (apply (proj1 (Qgt_alt _ _)); exact Hpos).
  rewrite E in Hr. unfold Double.round_magnitude in Hr.
  assert (He : Double.ulp_exponent r = -53).
  { unfold Double.ulp_exponent.
    assert (Double.ilog2 r < 0) by (apply ilog2_lt; [exact Hpos | rewrite pow2_0; exact H1]).
    assert (-1 <= Double.ilog2 r).
    { apply ilog2_ge; [exact Hpos | change (Double.pow2 (-1)) with (1 # 2)%Q; exact Hbig]. }
    lia. }
  rewrite He in Hr. change (- -53) with 53 in Hr.
  set (m := Double.nearest_even (r * Double.pow2 53)) in *.
  destruct (Qle_bool (Double.pow2 1024) (inject_Z m * Double.pow2 (-53))); [discriminate Hr |].
  apply (f_equal (fun d => match d with Finite q => q | _ => 0%Q end)) in Hr.
  cbv beta iota in Hr. rewrite <- Hr in Hv.
  pose proof (Qred_correct (inject_Z m * Double.pow2 (-53))) as Hq.
  pose proof (pow2_cancel 53 : (Double.pow2 53 * Double.pow2 (-53) == 1)%Q) as Hc.
  pose proof (pow2_pos 53) as Hp.
  assert (Hm : (inject_Z m < Double.pow2 53)%Q).
  { destruct (Qlt_le_dec (inject_Z m) (Double.pow2 53)) as [| Hge]; [assumption |].
    exfalso.
    assert (Double.pow2 53 * Double.pow2 (-53) <= inject_Z m * Double.pow2 (-53))%Q
      by (apply Qmult_le_compat_r; lra).
    lra. }
  rewrite pow2_53, <- Zlt_Qlt in Hm.
  assert (Hm' : (inject_Z m <= Double.pow2 53 - 1)%Q).
  { rewrite pow2_53. apply inject_Z_le_pred. lia. }
  assert (inject_Z m * Double.pow2 (-53) <= (Double.pow2 53 - 1) * Double.pow2 (-53))%Q
    by (apply Qmult_le_compat_r; lra).
  lra.
Qed.


(** ** Bytes and the block ciphers *)

Import Bytes.

Lemma to_bits_inj (a b : byte) : Byte.to_bits a = Byte.to_bits b -> a = b.
Proof.
  intros H. rewrite <- (Byte.of_bits_to_bits a), <- (Byte.of_bits_to_bits b), H.
  reflexivity.
Qed.

Lemma to_bits_bxor (a b : byte) :
  Byte.to_bits (bxor a b) = xor_bits (Byte.to_bits a) (Byte.to_bits b).
Proof. unfold bxor. apply Byte.to_bits_of_bits. Qed.

Lemma to_bits_xtime (a : byte) :
  Byte.to_bits (AES.xtime a) = AES.xtime_bits (Byte.to_bits a).
Proof. unfold AES.xtime. apply Byte.to_bits_of_bits. Qed.

Ltac bits_eq :=
  apply to_bits_inj;
  repeat rewrite ?to_bits_bxor, ?to_bits_xtime;
  repeat match goal with
         | |- context [Byte.to_bits ?a] =>
             is_var a;
             let x := fresh "x" in
             generalize (Byte.to_bits a); intros x;
             destruct x as (?, (?, (?, (?, (?, (?, (?, ?)))))))
         end;
  cbv [xor_bits AES.xtime_bits];
  repeat (apply f_equal2; [btauto |]); btauto.

Lemma bxor_involutive (a k : byte) : bxor (bxor a k) k = a.
Proof. bits_eq. Qed.

Lemma inv_mix_column_mix_column (a b c d : byte) :
  AES.inv_mix_column
    (nth 0 (AES.mix_column a b c d) x00) (nth 1 (AES.mix_column a b c d) x00)
    (nth 2 (AES.mix_column a b c d) x00) (nth 3 (AES.mix_column a b c d) x00)
  = [a; b; c; d].
Proof.
  cbv [AES.inv_mix_column AES.mix_column nth AES.xor4 AES.mul2 AES.mul3 AES.mul9
       AES.mul11 AES.mul13 AES.mul14].
  repeat (apply f_equal2; [bits_eq |]). reflexivity.
Qed.

Lemma xor_bytes_involutive (s k : list byte) : xor_bytes (xor_bytes s k) k = s.
Proof.
  revert k. induction s as [|b s IH]; intros k; simpl.
  - reflexivity.
  - rewrite bxor_involutive, IH. reflexivity.
Qed.

Lemma xor_bytes_length (s k : list byte) : List.length (xor_bytes s k) = List.length s.
Proof.
  revert k. induction s as [|b s IH]; intros k; simpl; [reflexivity | rewrite IH; reflexivity].
Qed.

Lemma inv_sbox_sbox (a : byte) : AES.inv_sbox (AES.sbox a) = a.
Proof. destruct a; vm_compute; reflexivity. Qed.

Lemma inv_sub_bytes_sub_bytes (s : list byte) :
  AES.inv_sub_bytes (AES.sub_bytes s) = s.
Proof.
  unfold AES.inv_sub_bytes, AES.sub_bytes. rewrite map_map.
  induction s as [|b s IH]; simpl; [reflexivity | rewrite inv_sbox_sbox, IH; reflexivity].
Qed.

(** A list of sixteen bytes, taken apart. *)
Ltac block16 s H :=
  do 16 (destruct s as [|? s]; [discriminate H |]);
  destruct s; [| discriminate H]; clear H.

Lemma inv_shift_rows_shift_rows (s : list byte) :
  List.length s = 16%nat -> AES.inv_shift_rows (AES.shift_rows s) = s.
Proof. intros H. block16 s H. reflexivity. Qed.

Lemma shift_rows_length (s : list byte) : List.length (AES.shift_rows s) = 16%nat.
Proof. reflexivity. Qed.

Lemma sub_bytes_length (s : list byte) :
  List.length (AES.sub_bytes s) = List.length s.
Proof. apply length_map. Qed.

Lemma inv_mix_columns_mix_columns (s : list byte) :
  List.length s = 16%nat -> AES.inv_mix_columns (AES.mix_columns s) = s.
Proof.
  intros H. block16 s H.
  unfold AES.mix_columns, AES.inv_mix_columns.
  cbn [AES.columns].
  repeat match goal with
         | |- context [AES.mix_column ?a ?b ?c ?d] =>
             let col := fresh "col" in
             let E := fresh "E" in
             pose proof (inv_mix_column_mix_column a b c d) as E;
             remember (AES.mix_column a b c d) as col eqn:Hcol;
             assert (Hlen : List.length col = 4%nat) by (subst col; reflexivity);
             clear Hcol;
             do 4 (destruct col as [|? col]; [discriminate Hlen |]);
             destruct col; [| discriminate Hlen]; clear Hlen;
             cbn [nth] in E
         end.
  cbn [app AES.columns].
  repeat match goal with E : AES.inv_mix_column _ _ _ _ = _ |- _ => rewrite E; clear E end.
  reflexivity.
Qed.

Lemma mix_columns_length (s : list byte) :
  List.length s = 16%nat -> List.length (AES.mix_columns s) = 16%nat.
Proof. intros H. block16 s H. reflexivity. Qed.

Lemma round_length (s k : list byte) :
  List.length s = 16%nat -> List.length (AES.round s k) = 16%nat.
Proof.
  intros H. unfold AES.round. rewrite xor_bytes_length.
  apply mix_columns_length, shift_rows_length.
Qed.

Lemma inv_round_round (s k : list byte) :
  List.length s = 16%nat -> AES.inv_round k (AES.round s k) = s.
Proof.
  intros H. unfold AES.inv_round, AES.round.
  rewrite xor_bytes_involutive, inv_mix_columns_mix_columns by apply shift_rows_length.
  rewrite inv_shift_rows_shift_rows by (rewrite sub_bytes_length; exact H).
  apply inv_sub_bytes_sub_bytes.
Qed.

Lemma inv_final_round_final_round (s k : list byte) :
  List.length s = 16%nat -> AES.inv_final_round k (AES.final_round s k) = s.
Proof.
  intros H. unfold AES.inv_final_round, AES.final_round.
  rewrite xor_bytes_involutive.
  rewrite inv_shift_rows_shift_rows by (rewrite sub_bytes_length; exact H).
  apply inv_sub_bytes_sub_bytes.
Qed.

Lemma rounds_length (mid : list (list byte)) (s : list byte) :
  List.length s = 16%nat -> List.length (fold_left AES.round mid s) = 16%nat.
Proof.
  revert s. induction mid as [|k mid IH]; intros s H; simpl; [exact H |].
  apply IH, round_length, H.
Qed.

Lemma inv_rounds_rounds (mid : list (list byte)) (s : list byte) :
  List.length s = 16%nat ->
  fold_right AES.inv_round (fold_left AES.round mid s) mid = s.
Proof.
  revert s. induction mid as [|k mid IH]; intros s H; simpl; [reflexivity |].
  rewrite IH by (apply round_length, H). apply inv_round_round, H.
Qed.

Lemma inv_cipher_cipher (k0 : list byte) (mid : list (list byte)) (kn block : list byte) :
  List.length block = 16%nat ->
  AES.inv_cipher k0 mid kn (AES.cipher k0 mid kn block) = block.
Proof.
  intros H. unfold AES.inv_cipher, AES.cipher.
  rewrite inv_final_round_final_round
    by (apply rounds_length; rewrite xor_bytes_length; exact H).
  rewrite inv_rounds_rounds by (rewrite xor_bytes_length; exact H).
  apply xor_bytes_involutive.
Qed.

Lemma cipher_length (k0 : list byte) (mid : list (list byte)) (kn block : list byte) :
  List.length (AES.cipher k0 mid kn block) = 16%nat.
Proof. unfold AES.cipher, AES.final_round. rewrite xor_bytes_length. reflexivity. Qed.

Lemma aes_decrypt_encrypt (key block : list byte) :
  List.length block = 16%nat ->
  AES.decrypt_block key (AES.encrypt_block key block) = block.
Proof. intros H. apply inv_cipher_cipher, H. Qed.

(** The vector of FIPS 197, appendix C.3. *)
Example aes_sbox_53 : hex [AES.sbox x53; AES.sbox x00; AES.inv_sbox xed] = "ed6353".
Proof. vm_compute. reflexivity. Qed.

Example aes256_fips197 :
  hex (AES.encrypt_block (unhex "000102030405060708090a0b0c0d0e0f101112131415161718191a1b1c1d1e1f")
         (unhex "00112233445566778899aabbccddeeff"))
  = "8ea2b7ca516745bfeafc49904b496089".
Proof. vm_compute. reflexivity. Qed.

Example aes256_fips197_inv :
  hex (AES.decrypt_block (unhex "000102030405060708090a0b0c0d0e0f101112131415161718191a1b1c1d1e1f")
         (unhex "8ea2b7ca516745bfeafc49904b496089"))
  = "00112233445566778899aabbccddeeff".
Proof. vm_compute. reflexivity. Qed.

Lemma des_xor_bits_involutive (l m : list bool) :
  DES.xor_bits (DES.xor_bits l m) m = l.
Proof.
  revert m. induction l as [|b l IH]; intros m; simpl; [reflexivity |].
  rewrite IH, xorb_assoc, xorb_nilpotent, xorb_false_r. reflexivity.
Qed.

Lemma des_xor_bits_length (l m : list bool) :
  List.length (DES.xor_bits l m) = List.length l.
Proof.
  revert m. induction l as [|b l IH]; intros m; simpl; [reflexivity | rewrite IH; reflexivity].
Qed.

(** A list of [n] elements, taken apart. *)
Tactic Notation "explode" integer(n) ident(l) ident(H) :=
  do n (destruct l as [|? l]; [discriminate H |]);
  destruct l; [| discriminate H]; clear H.

Lemma FP_IP (b : list bool) :
  List.length b = 64%nat -> DES.permute DES.FP (DES.permute DES.IP b) = b.
Proof. intros H. explode 64 b H. reflexivity. Qed.

Lemma IP_FP (b : list bool) :
  List.length b = 64%nat -> DES.permute DES.IP (DES.permute DES.FP b) = b.
Proof. intros H. explode 64 b H. reflexivity. Qed.

Lemma round_swap_round (lr : list bool * list bool) (k : list bool) :
  DES.round (DES.swap (DES.round lr k)) k = DES.swap lr.
Proof.
  destruct lr as [l r]. unfold DES.round, DES.swap. simpl.
  rewrite des_xor_bits_involutive. reflexivity.
Qed.

Lemma rounds_rev (ks : list (list bool)) (lr : list bool * list bool) :
  fold_left DES.round (rev ks) (DES.swap (fold_left DES.round ks lr)) = DES.swap lr.
Proof.
  revert lr. induction ks as [|k ks IH] using rev_ind; intros lr.
  - reflexivity.
  - rewrite rev_app_distr, !fold_left_app. cbn [rev app fold_left].
    rewrite round_swap_round. apply IH.
Qed.

Lemma round_halves (lr : list bool * list bool) (k : list bool) :
  DES.halves32 lr -> DES.halves32 (DES.round lr k).
Proof.
  intros [Hl Hr]. split; simpl; [exact Hr | rewrite des_xor_bits_length; exact Hl].
Qed.

Lemma rounds_halves (ks : list (list bool)) (lr : list bool * list bool) :
  DES.halves32 lr -> DES.halves32 (fold_left DES.round ks lr).
Proof.
  revert lr. induction ks as [|k ks IH]; intros lr H; simpl; [exact H |].
  apply IH, round_halves, H.
Qed.

Lemma split_halves (b : list bool) :
  List.length b = 64%nat -> DES.halves32 (firstn 32 b, skipn 32 b).
Proof.
  intros H. split; cbn [fst snd]; [rewrite length_firstn | rewrite length_skipn]; lia.
Qed.

Lemma permute_length (table : list nat) (b : list bool) :
  List.length (DES.permute table b) = List.length table.
Proof. apply length_map. Qed.

Lemma crypt_length (ks : list (list bool)) (b : list bool) :
  List.length (DES.crypt ks b) = 64%nat.
Proof. unfold DES.crypt. cbv zeta. rewrite permute_length. reflexivity. Qed.

Lemma crypt_rev (ks : list (list bool)) (b : list bool) :
  List.length b = 64%nat -> DES.crypt (rev ks) (DES.crypt ks b) = b.
Proof.
  intros H. unfold DES.crypt. cbv zeta.
  set (x := (firstn 32 (DES.permute DES.IP b), skipn 32 (DES.permute DES.IP b))).
  assert (Hx : DES.halves32 x) by (apply split_halves; rewrite permute_length; reflexivity).
  pose proof (rounds_halves ks x Hx) as Hy.
  pose proof (rounds_rev ks x) as Hrev.
  destruct (fold_left DES.round ks x) as [l r].
  destruct Hy as [Hl Hr]. unfold DES.swap in *. cbn [fst snd] in *.
  rewrite IP_FP by (rewrite length_app; lia).
  rewrite firstn_app, skipn_app, Hr.
  rewrite firstn_all2, skipn_all2 by lia.
  change (32 - 32)%nat with 0%nat. cbn [firstn skipn app]. rewrite app_nil_r.
  rewrite Hrev. unfold x. cbn [fst snd].
  rewrite firstn_skipn. apply FP_IP, H.
Qed.

Lemma des_decrypt_encrypt (key b : list bool) :
  List.length b = 64%nat -> DES.decrypt key (DES.encrypt key b) = b.
Proof. intros H. apply crypt_rev, H. Qed.

Lemma des_encrypt_decrypt (key b : list bool) :
  List.length b = 64%nat -> DES.encrypt key (DES.decrypt key b) = b.
Proof.
  intros H. unfold DES.encrypt, DES.decrypt.
  rewrite <- (rev_involutive (DES.round_keys key)) at 1.
  apply crypt_rev, H.
Qed.

Lemma byte_of_bits_of_byte (b : byte) : DES.byte_of_bits (DES.bits_of_byte b) = b.
Proof.
  unfold DES.byte_of_bits, DES.bits_of_byte.
  destruct (Byte.to_bits b) as (b0, (b1, (b2, (b3, (b4, (b5, (b6, b7))))))) eqn:E.
  cbn [nth]. rewrite <- E. apply Byte.of_bits_to_bits.
Qed.

Lemma bits_of_byte_of_bits (l : list bool) :
  List.length l = 8%nat -> DES.bits_of_byte (DES.byte_of_bits l) = l.
Proof.
  intros H. explode 8 l H. unfold DES.byte_of_bits, DES.bits_of_byte.
  rewrite Byte.to_bits_of_bits. reflexivity.
Qed.

Lemma firstn_bits_of_byte (b : byte) (rest : list bool) :
  firstn 8 (DES.bits_of_byte b ++ rest) = DES.bits_of_byte b.
Proof.
  unfold DES.bits_of_byte.
  destruct (Byte.to_bits b) as (b0, (b1, (b2, (b3, (b4, (b5, (b6, b7))))))).
  reflexivity.
Qed.

Lemma skipn_bits_of_byte (b : byte) (rest : list bool) :
  skipn 8 (DES.bits_of_byte b ++ rest) = rest.
Proof.
  unfold DES.bits_of_byte.
  destruct (Byte.to_bits b) as (b0, (b1, (b2, (b3, (b4, (b5, (b6, b7))))))).
  reflexivity.
Qed.

Lemma bytes_of_bits_of_bytes (l : list byte) :
  DES.bytes_of_bits (List.length l) (DES.bits_of_bytes l) = l.
Proof.
  induction l as [|b l IH]; [reflexivity |].
  unfold DES.bits_of_bytes in *. cbn [List.length DES.bytes_of_bits flat_map].
  rewrite firstn_bits_of_byte, skipn_bits_of_byte, byte_of_bits_of_byte, IH.
  reflexivity.
Qed.

Lemma bits_of_bytes_of_bits (n : nat) (l : list bool) :
  List.length l = (8 * n)%nat -> DES.bits_of_bytes (DES.bytes_of_bits n l) = l.
Proof.
  revert l. induction n as [|n IH]; intros l H.
  - destruct l; [reflexivity | discriminate H].
  - unfold DES.bits_of_bytes in *. cbn [DES.bytes_of_bits flat_map].
    rewrite IH by (rewrite length_skipn; lia).
    rewrite bits_of_byte_of_bits by (rewrite length_firstn; lia).
    apply firstn_skipn.
Qed.

Lemma bits_of_bytes_length (l : list byte) :
  List.length (DES.bits_of_bytes l) = (8 * List.length l)%nat.
Proof.
  induction l as [|b l IH]; [reflexivity |].
  unfold DES.bits_of_bytes in *. cbn [flat_map]. rewrite length_app, IH.
  unfold DES.bits_of_byte.
  destruct (Byte.to_bits b) as (b0, (b1, (b2, (b3, (b4, (b5, (b6, b7))))))).
  simpl. lia.
Qed.

Lemma bytes_of_bits_length (n : nat) (l : list bool) :
  List.length (DES.bytes_of_bits n l) = n.
Proof.
  revert l. induction n as [|n IH]; intros l; simpl; [reflexivity | rewrite IH; reflexivity].
Qed.

Lemma des3_decrypt_encrypt (key block : list byte) :
  List.length block = 8%nat ->
  DES.decrypt_block key (DES.encrypt_block key block) = block.
Proof.
  intros H. unfold DES.decrypt_block, DES.encrypt_block.
  assert (Hb : List.length (DES.bits_of_bytes block) = 64%nat)
    by (rewrite bits_of_bytes_length, H; reflexivity).
  rewrite bits_of_bytes_of_bits by apply crypt_length.
  rewrite des_decrypt_encrypt by apply crypt_length.
  rewrite des_encrypt_decrypt by apply crypt_length.
  rewrite des_decrypt_encrypt by exact Hb.
  rewrite <- H. apply bytes_of_bits_of_bytes.
Qed.

Lemma des3_encrypt_length (key block : list byte) :
  List.length (DES.encrypt_block key block) = 8%nat.
Proof. apply bytes_of_bits_length. Qed.

Example des_single :
  hex (DES.bytes_of_bits 8 (DES.encrypt (DES.bits_of_bytes (unhex "133457799BBCDFF1"))
                              (DES.bits_of_bytes (unhex "0123456789abcdef"))))
  = "85e813540f0ab405".
Proof. vm_compute. reflexivity. Qed.

Example des_ede3 :
  hex (DES.encrypt_block (unhex "0123456789abcdef23456789abcdef01456789abcdef0123")
         (unhex "0123456789abcdef"))
  = "f2afd84ee809e2b5"
  /\ hex (DES.decrypt_block (unhex "0123456789abcdef23456789abcdef01456789abcdef0123")
         (unhex "f2afd84ee809e2b5"))
  = "0123456789abcdef".
Proof. vm_compute. auto. Qed.

(** ** Cipher block chaining *)

Section ModeProperties.

Variable bs : nat.
Variable E D : list byte -> list byte.
Hypothesis E_length : forall b, List.length (E b) = bs.
Hypothesis D_E : forall b, List.length b = bs -> D (E b) = b.

Lemma cbc_encrypt_length (n : nat) (prev pt : list byte) :
  List.length (CBC.encrypt bs E n prev pt) = (n * bs)%nat.
Proof.
  revert prev pt. induction n as [|n IH]; intros prev pt; simpl; [reflexivity |].
  rewrite length_app, E_length, IH. reflexivity.
Qed.

Lemma cbc_decrypt_encrypt (n : nat) (prev pt : list byte) :
  List.length pt = (n * bs)%nat ->
  CBC.decrypt bs D n prev (CBC.encrypt bs E n prev pt) = pt.
Proof.
  revert prev pt. induction n as [|n IH]; intros prev pt H.
  - destruct pt; [reflexivity | discriminate H].
  - cbn [CBC.encrypt CBC.decrypt].
    set (c := E (xor_bytes (firstn bs pt) prev)).
    assert (Hc : List.length c = bs) by apply E_length.
    rewrite firstn_app, skipn_app, Hc, Nat.sub_diag.
    rewrite (@firstn_all2 _ bs c), (@skipn_all2 _ bs c) by lia.
    cbn [firstn skipn app]. rewrite app_nil_r.
    unfold c at 1. rewrite D_E.
    2:{ rewrite xor_bytes_length, length_firstn. simpl in H. lia. }
    rewrite xor_bytes_involutive, IH.
    + apply firstn_skipn.
    + rewrite length_skipn. simpl in H. lia.
Qed.

End ModeProperties.

Lemma of_nat_to_nat (n : nat) : (n < 256)%nat -> Byte.to_nat (Bytes.of_nat n) = n.
Proof.
  intros H. unfold Bytes.of_nat.
  destruct (Byte.of_nat n) as [b|] eqn:E.
  - apply Byte.to_of_nat in E. exact E.
  - apply Byte.of_nat_None_iff in E. lia.
Qed.

Lemma pad_length (bs : nat) (pt : list byte) :
  (0 < bs)%nat ->
  List.length (CBC.pad bs pt) = ((List.length pt / bs + 1) * bs)%nat.
Proof.
  intros H. unfold CBC.pad. cbv zeta. rewrite length_app, repeat_length.
  pose proof (Nat.div_mod_eq (List.length pt) bs) as E.
  pose proof (Nat.mod_upper_bound (List.length pt) bs) as B.
  nia.
Qed.

Lemma last_app_repeat (l : list byte) (x : byte) (n : nat) :
  (0 < n)%nat -> last (l ++ repeat x n) x00 = x.
Proof.
  intros H. destruct n as [|n]; [lia |].
  replace (repeat x (S n)) with (repeat x n ++ [x]).
  - rewrite app_assoc. apply last_last.
  - change [x] with (repeat x 1). rewrite <- repeat_app.
    f_equal. lia.
Qed.

Lemma forallb_repeat (x : byte) (n : nat) :
  forallb (Byte.eqb x) (repeat x n) = true.
Proof.
  induction n as [|n IH]; simpl; [reflexivity |].
  rewrite IH, andb_true_r. apply Byte.byte_dec_lb. reflexivity.
Qed.

Lemma unpad_pad (bs : nat) (pt : list byte) :
  (0 < bs < 256)%nat -> CBC.unpad bs (CBC.pad bs pt) = Some pt.
Proof.
  intros H. unfold CBC.unpad, CBC.pad. cbv zeta.
  pose proof (Nat.mod_upper_bound (List.length pt) bs) as B.
  set (n := (bs - List.length pt mod bs)%nat).
  assert (Hn : (0 < n <= bs)%nat) by (unfold n; lia).
  rewrite last_app_repeat by lia.
  rewrite of_nat_to_nat by lia.
  rewrite length_app, repeat_length.
  replace (List.length pt + n - n)%nat with (List.length pt) by lia.
  rewrite skipn_app, Nat.sub_diag, skipn_all. cbn [skipn app].
  rewrite forallb_repeat.
  rewrite firstn_app, Nat.sub_diag, firstn_all. cbn [firstn]. rewrite app_nil_r.
  assert (E1 : (1 <=? n)%nat = true) by (apply Nat.leb_le; lia).
  assert (E2 : (n <=? bs)%nat = true) by (apply Nat.leb_le; lia).
  assert (E3 : (n <=? List.length pt + n)%nat = true) by (apply Nat.leb_le; lia).
  rewrite E1, E2, E3. reflexivity.
Qed.

Lemma cipher_of_sound (id : string) (c : BlockCipher) :
  cipher_of id = Some c ->
  (0 < block_size c < 256)%nat
  /\ (forall key b, List.length (encrypt_block c key b) = block_size c)
  /\ (forall key b, List.length b = block_size c ->
                    decrypt_block c key (encrypt_block c key b) = b).
Proof.
  unfold cipher_of. intros H.
  destruct (String.eqb id "aes-256-cbc").
  - injection H as <-. cbn [block_size encrypt_block decrypt_block].
    split; [lia | split].
    + intros key b. apply cipher_length.
    + intros key b Hb. apply aes_decrypt_encrypt, Hb.
  - destruct (String.eqb id "des-ede3-cbc"); [| discriminate H].
    injection H as <-. cbn [block_size encrypt_block decrypt_block].
    split; [lia | split].
    + intros key b. apply des3_encrypt_length.
    + intros key b Hb. apply des3_decrypt_encrypt, Hb.
Qed.

(** What a [Cipher] enciphers, a [Decipher] made with the same cipher,
    key and IV deciphers. *)
Theorem decipher_cipher (id : string) (key iv plain : list byte) (enc dec : CipherCtx) :
  createCipheriv id key iv = Ok enc ->
  createDecipheriv id key iv = Ok dec ->
  decipher_update_final dec (cipher_update_final enc plain) = Ok plain.
Proof.
  unfold createDecipheriv, createCipheriv.
  destruct (cipher_of id) as [c|] eqn:Ec; [| discriminate].
  destruct (cipher_of_sound id c Ec) as [Hbs [Hlen Hinv]].
  destruct (negb (List.length key =? key_size c)%nat); [discriminate |].
  destruct (negb (List.length iv =? block_size c)%nat); [discriminate |].
  intros H1 H2. injection H1 as <-. injection H2 as <-.
  unfold decipher_update_final, cipher_update_final.
  cbn [ctx_cipher ctx_key ctx_iv]. cbv zeta.
  pose proof (pad_length (block_size c) plain (proj1 Hbs)) as Hpad.
  set (padded := CBC.pad (block_size c) plain) in *.
  assert (Hn : (List.length padded / block_size c
                = List.length plain / block_size c + 1)%nat).
  { rewrite Hpad. apply Nat.div_mul. lia. }
  rewrite cbc_encrypt_length by apply Hlen.
  rewrite Nat.Div0.mod_mul, Nat.div_mul by lia.
  assert (Hnz : (List.length padded / block_size c * block_size c =? 0)%nat = false).
  { apply Nat.eqb_neq. rewrite Hn. nia. }
  rewrite Hnz. cbn [negb orb Nat.eqb].
  rewrite cbc_decrypt_encrypt.
  - unfold padded. rewrite unpad_pad by exact Hbs. reflexivity.
  - apply Hlen.
  - intros b Hb. apply Hinv, Hb.
  - rewrite Hn. exact Hpad.
Qed.

(** ** Base64 *)

Example decode_foobar :
  Base64.decode "Zm9vYmFy" = Some (list_byte_of_string "foobar")
  /\ Base64.decode "Zm9vYmE=" = Some (list_byte_of_string "fooba")
  /\ Base64.decode "Zm9vYg==" = Some (list_byte_of_string "foob").
Proof. vm_compute. auto. Qed.

Lemma value_of_char_of (n : N) :
  (n < 64)%N -> Base64.value_of (Base64.char_of n) = Some n
               /\ Ascii.eqb (Base64.char_of n) "=" = false.
Proof.
  intros H.
  assert (E : exists k, (k < 64)%nat /\ n = N.of_nat k).
  { exists (N.to_nat n). split; lia. }
  destruct E as [k [Hk ->]].
  do 64 (destruct k as [|k]; [vm_compute; split; reflexivity |]).
  lia.
Qed.

Lemma byte_of_to_N (b : byte) : Base64.byte_of (Byte.to_N b) = b.
Proof.
  unfold Base64.byte_of.
  pose proof (Byte.to_N_bounded b) as B.
  rewrite N.mod_small by lia.
  rewrite Byte.of_to_N. reflexivity.
Qed.

Lemma byte_of_mod (n : N) (b : byte) :
  (n mod 256 = Byte.to_N b)%N -> Base64.byte_of n = b.
Proof.
  intros H. unfold Base64.byte_of. rewrite H, Byte.of_to_N. reflexivity.
Qed.

Ltac euclid := Z.to_euclidean_division_equations; lia.

Lemma sextets (n : N) :
  (n < 16777216)%N ->
  (n / 262144 < 64)%N
  /\ (((n / 262144 * 64 + (n / 4096) mod 64) * 64 + (n / 64) mod 64) * 64 + n mod 64 = n)%N
  /\ ((n / 262144 * 64 + (n / 4096) mod 64) * 64 + (n / 64) mod 64 = n / 64)%N
  /\ (n / 262144 * 64 + (n / 4096) mod 64 = n / 4096)%N.
Proof.
  intros H. zify. euclid.
Qed.

Lemma list_ind3 (P : list byte -> Prop) :
  P [] -> (forall a, P [a]) -> (forall a b, P [a; b]) ->
  (forall a b c rest, P rest -> P (a :: b :: c :: rest)) ->
  forall l, P l.
Proof.
  intros H0 H1 H2 H3.
  assert (H : forall n l, (List.length l <= n)%nat -> P l).
  { induction n as [|n IH]; intros l Hl.
    - destruct l; [exact H0 | simpl in Hl; lia].
    - destruct l as [|a [|b [|c rest]]]; auto.
      apply H3, IH. simpl in Hl. lia. }
  intros l. apply (H (List.length l)). lia.
Qed.

Lemma mod64_lt (n : N) : (n mod 64 < 64)%N.
Proof. apply N.mod_lt. discriminate. Qed.

Theorem decode_encode (l : list byte) : Base64.decode (Base64.encode l) = Some l.
Proof.
  induction l as [| a | a b | a b c rest IH] using list_ind3.
  - reflexivity.
  - cbn [Base64.encode]. cbv zeta.
    pose proof (Byte.to_N_bounded a) as Ba.
    set (n := (Byte.to_N a * 65536)%N).
    destruct (sextets n ltac:(unfold n; lia)) as [S1 [_ [_ S2]]].
    cbn [Base64.decode].
    rewrite (proj1 (value_of_char_of _ S1)).
    rewrite (proj1 (value_of_char_of _ (mod64_lt _))).
    cbn [Ascii.eqb Bool.eqb andb]. rewrite S2.
    f_equal. f_equal. apply byte_of_mod. unfold n. zify. euclid.
  - cbn [Base64.encode]. cbv zeta.
    pose proof (Byte.to_N_bounded a) as Ba. pose proof (Byte.to_N_bounded b) as Bb.
    set (n := (Byte.to_N a * 65536 + Byte.to_N b * 256)%N).
    destruct (sextets n ltac:(unfold n; lia)) as [S1 [_ [S3 _]]].
    cbn [Base64.decode].
    rewrite (proj1 (value_of_char_of _ S1)).
    rewrite (proj1 (value_of_char_of _ (mod64_lt _))).
    rewrite (proj2 (value_of_char_of _ (mod64_lt (n / 64)))).
    rewrite (proj1 (value_of_char_of _ (mod64_lt (n / 64)))).
    cbn [Ascii.eqb Bool.eqb andb]. rewrite S3.
    f_equal. f_equal; [| f_equal]; apply byte_of_mod; unfold n; zify; euclid.
  - cbn [Base64.encode]. cbv zeta.
    pose proof (Byte.to_N_bounded a) as Ba. pose proof (Byte.to_N_bounded b) as Bb.
    pose proof (Byte.to_N_bounded c) as Bc.
    set (n := (Byte.to_N a * 65536 + Byte.to_N b * 256 + Byte.to_N c)%N).
    destruct (sextets n ltac:(unfold n; lia)) as [S1 [S4 _]].
    cbn [Base64.decode].
    rewrite (proj1 (value_of_char_of _ S1)).
    rewrite (proj1 (value_of_char_of _ (mod64_lt _))).
    rewrite (proj2 (value_of_char_of _ (mod64_lt (n / 64)))).
    rewrite (proj1 (value_of_char_of _ (mod64_lt (n / 64)))).
    rewrite (proj2 (value_of_char_of _ (mod64_lt n))).
    rewrite (proj1 (value_of_char_of _ (mod64_lt n))).
    rewrite IH, S4.
    f_equal. f_equal; [| f_equal; [| f_equal]]; apply byte_of_mod; unfold n; zify; euclid.
Qed.

(** ** Values *)

Lemma strict_eq_str_true (v : JsValue) (lit : string) :
  strict_eq_str v lit = true <-> v = JStr lit.
Proof.
  destruct v; simpl; try (split; [discriminate | intros H; discriminate H]).
  rewrite String.eqb_eq. split; [intros ->; reflexivity | intros H; injection H; auto].
Qed.

Lemma strict_eq_bool_true (v : JsValue) (b : bool) :
  strict_eq_bool v b = true <-> v = JBool b.
Proof.
  destruct v; simpl; try (split; [discriminate | intros H; discriminate H]).
  rewrite Bool.eqb_true_iff. split; [intros ->; reflexivity | intros H; injection H; auto].
Qed.

Lemma strict_eq_num_true (v : JsValue) (n : Z) :
  strict_eq_num v n = true <-> exists q : Q, v = JNum q /\ (q == inject_Z n)%Q.
Proof.
  destruct v as [| | | [q | neg |] | | | |]; simpl;
    try (split; [discriminate | intros [q' [H _]]; discriminate H]).
  rewrite Qeq_bool_iff. split.
  - intros H. exists q. split; [reflexivity | exact H].
  - intros [q' [H Hq]]. injection H as ->. exact Hq.
Qed.

Lemma is_on_spec (v : JsValue) : is_on v = true <-> on_repr v.
Proof.
  unfold is_on. rewrite !orb_true_iff, strict_eq_str_true, strict_eq_bool_true,
    strict_eq_num_true.
  split.
  - intros [[-> | [q [-> Hq]]] | ->]; constructor. exact Hq.
  - intros H. destruct H; [left; left; reflexivity | left; right; eauto | right; reflexivity].
Qed.

Lemma is_off_spec (v : JsValue) : is_off v = true <-> off_repr v.
Proof.
  unfold is_off. rewrite !orb_true_iff, strict_eq_str_true, strict_eq_bool_true,
    strict_eq_num_true.
  split.
  - intros [[-> | [q [-> Hq]]] | ->]; constructor. exact Hq.
  - intros H. destruct H; [left; left; reflexivity | left; right; eauto | right; reflexivity].
Qed.

Lemma is_on_false (v : JsValue) : ~ on_repr v -> is_on v = false.
Proof.
  intros H. destruct (is_on v) eqn:E; [|reflexivity].
  exfalso. apply H, is_on_spec, E.
Qed.

Lemma is_off_false (v : JsValue) : ~ off_repr v -> is_off v = false.
Proof.
  intros H. destruct (is_off v) eqn:E; [|reflexivity].
  exfalso. apply H, is_off_spec, E.
Qed.

(** ** Actuator control *)

(** C6: a [setFan] call made while [allowFanControl] is false fails with
    FanControlDisabled and leaves the whole state as it was, whatever the
    requested value is; with [allowFanControl] true, a value that is
    neither an ON nor an OFF representation fails with InvalidState and
    leaves the state as it was.  Neither failure emits an event. *)
Theorem C6_fan_rejections (now : Z) (req_body : Body) (st : State) :
  (allowFanControl (deviceState st) = false ->
   post_fan now req_body st = (st, [], FanControlDisabled))
  /\ (allowFanControl (deviceState st) = true ->
      ~ on_repr (get_field "state" req_body) ->
      ~ off_repr (get_field "state" req_body) ->
      post_fan now req_body st = (st, [], InvalidState)).
Proof.
  split.
  - intros Hoff. unfold post_fan. rewrite Hoff. reflexivity.
  - intros Hallow Hon Hoffr. unfold post_fan. rewrite Hallow. simpl.
    rewrite (is_on_false _ Hon), (is_off_false _ Hoffr). reflexivity.
Qed.

Lemma C6_fan_rejections_witness :
  post_fan 7 [("state", JStr "ON")]
      (with_deviceState loaded (set_allowFanControl (deviceState loaded) false))
    = (with_deviceState loaded (set_allowFanControl (deviceState loaded) false),
       [], FanControlDisabled)
  /\ post_fan 7 [("state", JStr "on")] loaded = (loaded, [], InvalidState).
Proof.
  split.
  - apply (proj1 (C6_fan_rejections 7 [("state", JStr "ON")]
             (with_deviceState loaded (set_allowFanControl (deviceState loaded) false)))).
    reflexivity.
  - apply (proj2 (C6_fan_rejections 7 [("state", JStr "on")] loaded)).
    + reflexivity.
    + simpl. intros H. inversion H.
    + simpl. intros H. inversion H.
Defined.

(** C9: a [setLed] call whose value is neither an ON representation
    ('ON', 1, true) nor an OFF representation ('OFF', 0, false) leaves the
    LED as it was, and the caller is answered with status 200 and
    [success: true]: no error is signalled. *)
Theorem C9_led_ignores_unrecognized (now : Z) (req_body : Body) (st : State) :
  ~ on_repr (get_field "state" req_body) ->
  ~ off_repr (get_field "state" req_body) ->
  let r := post_led now req_body st in
  led (deviceState (state_of r)) = led (deviceState st)
  /\ status (response_of r) = 200
  /\ prop "success" (body (response_of r)) = JBool true
  /\ prop "led" (body (response_of r)) = JBool (led (deviceState st)).
Proof.
  intros Hon Hoff. unfold post_led.
  rewrite (is_on_false _ Hon), (is_off_false _ Hoff). simpl. auto.
Qed.

Lemma C9_led_ignores_unrecognized_witness :
  let r := post_led 7 [("state", JStr "blink")] loaded in
  led (deviceState (state_of r)) = false
  /\ status (response_of r) = 200
  /\ prop "success" (body (response_of r)) = JBool true
  /\ prop "led" (body (response_of r)) = JBool false.
Proof.
  apply (C9_led_ignores_unrecognized 7 [("state", JStr "blink")] loaded).
  - simpl. intros H. inversion H.
  - simpl. intros H. inversion H.
Defined.

(** C10: every [setLed] call sets [lastUpdate] to the current time,
    broadcasts [ledStateChanged] with the resulting [led] value and
    answers [success: true]; it modifies no field of the device state
    other than [led] and [lastUpdate], nor the active algorithm or the
    history; and when the value is neither ON nor OFF the [led] value it
    stores, broadcasts and returns is the one it found. *)
Theorem C10_led_frame (now : Z) (req_body : Body) (st : State) :
  let r := post_led now req_body st in
  let d := deviceState st in
  let d' := deviceState (state_of r) in
  lastUpdate d' = Some now
  /\ effects_of r
     = [ Emit "ledStateChanged" (JObj [ ("led", JBool (led d')); ("timestamp", JDate now) ]) ]
  /\ status (response_of r) = 200
  /\ prop "success" (body (response_of r)) = JBool true
  /\ prop "led" (body (response_of r)) = JBool (led d')
  /\ fan d' = fan d
  /\ allowFanControl d' = allowFanControl d
  /\ temperature d' = temperature d
  /\ humidity d' = humidity d
  /\ currentEncAlgo (state_of r) = currentEncAlgo st
  /\ sensorHistory (state_of r) = sensorHistory st
  /\ (~ on_repr (get_field "state" req_body) ->
      ~ off_repr (get_field "state" req_body) -> led d' = led d).
Proof.
  unfold post_led. cbv zeta.
  destruct (is_on (get_field "state" req_body)) eqn:Eon;
    [| destruct (is_off (get_field "state" req_body)) eqn:Eoff ];
    simpl; repeat split; try reflexivity; intros Hon Hoff.
  - exfalso. apply Hon, is_on_spec, Eon.
  - exfalso. apply Hoff, is_off_spec, Eoff.
Qed.

Lemma C10_led_frame_witness :
  let r := post_led 7 [("state", JNum 2)] loaded in
  lastUpdate (deviceState (state_of r)) = Some 7
  /\ led (deviceState (state_of r)) = led (deviceState loaded).
Proof.
  pose proof (C10_led_frame 7 [("state", JNum 2)] loaded) as H.
  cbv zeta in H. split.
  - apply H.
  - apply H; simpl; intros E; inversion E; subst; discriminate.
Defined.

(** ** Registry lookups *)

Definition has_lower (s : string) : bool :=
  existsb is_lower (list_ascii_of_string s).

Lemma upper_ascii_not_lower (c : ascii) : is_lower (upper_ascii c) = false.
Proof.
  destruct c as [[] [] [] [] [] [] [] []]; vm_compute; reflexivity.
Qed.

Lemma toUpperCase_no_lower (s : string) : has_lower (toUpperCase s) = false.
Proof.
  assert (H : forall n s, (String.length s <= n)%nat -> has_lower (toUpperCase s) = false).
  { intros n. induction n as [|n IH]; intros [|c [|d r]] Hlen; simpl in Hlen;
      try reflexivity; try lia.
    - unfold has_lower. simpl. rewrite upper_ascii_not_lower. reflexivity.
    - simpl toUpperCase.
      destruct (Ascii.eqb c "197" && Ascii.eqb d "191")%bool.
      + unfold has_lower. cbn [list_ascii_of_string existsb].
        change (is_lower "S") with false. simpl orb.
        apply (IH r). simpl in Hlen. lia.
      + unfold has_lower. cbn [list_ascii_of_string existsb].
        rewrite upper_ascii_not_lower. simpl orb.
        apply (IH (String d r)). simpl. lia. }
  apply (H (String.length s)). lia.
Qed.

Lemma prototype_keys_have_lower (name : string) :
  existsb (String.eqb name) Object_prototype_keys = true -> has_lower name = true.
Proof.
  unfold Object_prototype_keys. simpl existsb.
  rewrite !orb_true_iff, !String.eqb_eq.
  intros H. repeat (destruct H as [H | H]; [subst name; reflexivity |]).
  discriminate H.
Qed.

Lemma own_property_resolves (name : string) (p : AlgoProfile) :
  own_property name ALGORITHMS = Some p <-> In (name, p) ALGORITHMS.
Proof.
  unfold ALGORITHMS. cbn [own_property In].
  destruct (String.eqb_spec name "AES") as [-> | Haes].
  - split.
    + intros H. left. congruence.
    + intros [H | [H | []]]; [congruence | discriminate H].
  - destruct (String.eqb_spec name "DES") as [-> | Hdes].
    + split.
      * intros H. right. left. congruence.
      * intros [H | [H | []]]; [discriminate H | congruence].
    + split; [discriminate |].
      intros [H | [H | []]]; congruence.
Qed.

(** After upper-casing, the read [ALGORITHMS[upper]] is truthy exactly
    when the name resolves: no property of [Object.prototype] has an
    upper-case name. *)
Lemma truthy_upper_resolves (s : string) :
  truthy (ALGORITHMS_get (toUpperCase s)) = true <-> resolves (toUpperCase s).
Proof.
  unfold ALGORITHMS_get, resolves.
  destruct (own_property (toUpperCase s) ALGORITHMS) as [p|] eqn:E.
  - split; [|reflexivity]. intros _. exists p. apply own_property_resolves, E.
  - destruct (existsb (String.eqb (toUpperCase s)) Object_prototype_keys) eqn:Ek.
    + apply prototype_keys_have_lower in Ek.
      rewrite toUpperCase_no_lower in Ek. discriminate.
    + split; [discriminate |].
      intros [p Hp]. apply own_property_resolves in Hp. congruence.
Qed.

Lemma resolves_iff (name : string) : resolves name <-> name = "AES" \/ name = "DES".
Proof.
  unfold resolves, ALGORITHMS. split.
  - intros [p [H | [H | []]]]; [left | right]; congruence.
  - intros [-> | ->]; eexists; [left | right; left]; reflexivity.
Qed.

(** ** Settings *)

(** C1, as amended: a settings call whose [algo] is a string that does
    not resolve in the registry after upper-casing fails with
    InvalidAlgorithm, broadcasts nothing and leaves the active algorithm
    (and the history) as they were; [allowFanControl] is left as it was
    when the call carries no [allowFanControl] field, and otherwise holds
    the coerced value of that field, which is stored before [algo] is
    looked at.  No other field of the device state changes. *)
Theorem C1_invalid_algorithm (env : Env) (now : Z) (req_body : Body) (st : State)
    (s : string) :
  get_field "algo" req_body = JStr s ->
  ~ resolves (toUpperCase s) ->
  let r := post_settings env now req_body st in
  let d := deviceState st in
  let d' := deviceState (state_of r) in
  let v := get_field "allowFanControl" req_body in
  response_of r = InvalidAlgorithm
  /\ effects_of r = []
  /\ currentEncAlgo (state_of r) = currentEncAlgo st
  /\ sensorHistory (state_of r) = sensorHistory st
  /\ allowFanControl d' = (if is_defined v then flag_of v else allowFanControl d)
  /\ led d' = led d /\ fan d' = fan d /\ temperature d' = temperature d
  /\ humidity d' = humidity d /\ lastUpdate d' = lastUpdate d.
Proof.
  intros Halgo Hno. unfold post_settings. rewrite Halgo.
  destruct (truthy (ALGORITHMS_get (toUpperCase s))) eqn:E.
  - exfalso. apply Hno, truthy_upper_resolves, E.
  - cbv zeta. destruct (is_defined (get_field "allowFanControl" req_body));
      simpl; repeat split; reflexivity.
Qed.

Lemma C1_invalid_algorithm_witness :
  let r := post_settings no_env 7 [("algo", JStr "xyz")] loaded in
  response_of r = InvalidAlgorithm
  /\ currentEncAlgo (state_of r) = "AES"
  /\ allowFanControl (deviceState (state_of r)) = true.
Proof.
  assert (Hno : ~ resolves (toUpperCase "xyz")).
  { intros H. apply resolves_iff in H. destruct H as [H | H]; discriminate H. }
  pose proof (C1_invalid_algorithm no_env 7 [("algo", JStr "xyz")] loaded "xyz"
                eq_refl Hno) as H.
  cbv zeta in H. split; [| split]; apply H.
Defined.

(** C1 as the specification states it fails: the first call below names
    an algorithm that does not resolve and is rejected with
    InvalidAlgorithm, yet it has changed [allowFanControl] from true to
    false; the second carries an [algo] that is no name at all, and is
    not rejected. *)
Lemma C1_counterexample :
  let req_body := [("allowFanControl", JBool false); ("algo", JStr "XYZ")] in
  let r := post_settings no_env 7 req_body loaded in
  let r' := post_settings no_env 7 [("algo", JNum 5)] loaded in
  ~ resolves (toUpperCase "XYZ")
  /\ response_of r = InvalidAlgorithm
  /\ allowFanControl (deviceState loaded) = true
  /\ allowFanControl (deviceState (state_of r)) = false
  /\ status (response_of r') = 200
  /\ prop "success" (body (response_of r')) = JBool true.
Proof.
  cbv zeta. split; [| repeat split ].
  intros H. apply resolves_iff in H. destruct H as [H | H]; discriminate H.
Qed.

(** ** Freshness *)

Lemma round_not_NaN (q : Q) : Double.round q <> NaN.
Proof.
  unfold Double.round.
  destruct (q ?= 0)%Q; [discriminate | |];
    destruct (Double.round_magnitude _); discriminate.
Qed.

Lemma truthy_not_NaN (x : double) : Double.truthy x = true -> x <> NaN.
Proof. destruct x; [discriminate | discriminate | discriminate]. Qed.

Lemma tempInterval_truthy (env : Env) : Double.truthy (tempInterval env) = true.
Proof.
  unfold tempInterval, Double.or.
  destruct (Double.truthy (parseInt (env_TEMP_INTERVAL env))) eqn:E; [exact E | reflexivity].
Qed.

Lemma maxAge_not_NaN (env : Env) : maxAge env <> NaN.
Proof.
  unfold maxAge, Double.or.
  destruct (Double.truthy (parseInt (env_DATA_HEALTH_MAX_AGE_MS env))) eqn:E.
  - apply truthy_not_NaN, E.
  - pose proof (tempInterval_truthy env) as Ht.
    destruct (tempInterval env) as [q | neg |]; [| discriminate | discriminate Ht].
    apply round_not_NaN.
Qed.

Lemma within_finite (age : Z) (m : Q) :
  within age (Finite m) = true <-> (inject_Z age <= m)%Q.
Proof. unfold within, Double.of_Z, Double.leb. apply Qle_bool_iff. Qed.

(** C5, as amended: without a [lastUpdate] the verdict is UNKNOWN with no
    age and [isFresh] false; with [lastUpdate = T] it is OK and fresh when
    [now - T <= M] and STALE and not fresh when [now - T > M].  [M] is the
    override when [DATA_HEALTH_MAX_AGE_MS] parses to a number other than
    zero, and twice the update-cycle period otherwise (also when the
    override is 0).  [M] is a number, never [NaN]: it is finite, or, for a
    value of more than 308 digits, an infinity, under which every age is
    fresh (below which none is). *)
Theorem C5_freshness (env : Env) (now : Z) (st : State) :
  let h := getDataHealth env now st in
  let M := maxAge env in
  match lastUpdate (deviceState st) with
  | None =>
      h = {| h_status := UNKNOWN; h_ageMs := None; h_isFresh := false;
             h_lastUpdate := None |}
  | Some T =>
      h_ageMs h = Some (now - T)
      /\ h_lastUpdate h = Some T
      /\ (forall m : Q, M = Finite m ->
            ((inject_Z (now - T) <= m)%Q -> h_status h = OK /\ h_isFresh h = true)
            /\ ((m < inject_Z (now - T))%Q -> h_status h = STALE /\ h_isFresh h = false))
      /\ (M = Infinity false -> h_status h = OK /\ h_isFresh h = true)
      /\ (M = Infinity true -> h_status h = STALE /\ h_isFresh h = false)
  end
  /\ M <> NaN
  /\ (Double.truthy (parseInt (env_DATA_HEALTH_MAX_AGE_MS env)) = true ->
      M = parseInt (env_DATA_HEALTH_MAX_AGE_MS env))
  /\ (parseInt (env_DATA_HEALTH_MAX_AGE_MS env) = NaN
      \/ parseInt (env_DATA_HEALTH_MAX_AGE_MS env) = Finite 0 ->
      M = Double.mul (tempInterval env) 2).
Proof.
  cbv zeta. split; [| split; [apply maxAge_not_NaN | split]].
  - unfold getDataHealth. destruct (lastUpdate (deviceState st)) as [T|]; [|reflexivity].
    cbn [h_ageMs h_lastUpdate h_status h_isFresh].
    split; [reflexivity | split; [reflexivity | split; [| split]]].
    + intros m Hm. rewrite Hm. split; intros H.
      * apply within_finite in H. rewrite H. split; reflexivity.
      * assert (E : within (now - T) (Finite m) = false).
        { destruct (within (now - T) (Finite m)) eqn:E; [| reflexivity].
          apply within_finite in E. lra. }
        rewrite E. split; reflexivity.
    + intros ->. split; reflexivity.
    + intros ->. split; reflexivity.
  - intros H. unfold maxAge, Double.or. rewrite H. reflexivity.
  - intros [H | H]; unfold maxAge, Double.or; rewrite H; reflexivity.
Qed.

Lemma C5_freshness_witness :
  h_status (getDataHealth no_env 10000 (updated_at (Some 0))) = OK
  /\ h_status (getDataHealth no_env 10001 (updated_at (Some 0))) = STALE
  /\ maxAge no_env = Finite 10000.
Proof.
  pose proof (C5_freshness no_env 10000 (updated_at (Some 0))) as H1.
  pose proof (C5_freshness no_env 10001 (updated_at (Some 0))) as H2.
  cbv zeta in H1, H2. simpl lastUpdate in H1, H2.
  destruct H1 as [[_ [_ [Hok _]]] [_ [_ Hdef]]].
  destruct H2 as [[_ [_ [Hstale _]]] _].
  assert (HM : maxAge no_env = Finite 10000).
  { rewrite Hdef; [vm_compute; reflexivity | left; reflexivity]. }
  split; [| split].
  - apply (proj1 (Hok 10000%Q HM)). vm_compute. discriminate.
  - apply (proj2 (Hstale 10000%Q HM)). vm_compute. reflexivity.
  - exact HM.
Defined.

(** C5 as the specification states it fails: with the maximum age
    explicitly overridden to [M = 0], a state last updated at [T = 0] and
    read at [now = 5] has [now - T > M], yet the verdict is OK: the
    override 0 is not used, the default 10000 is. *)
Lemma C5_counterexample :
  parseInt (env_DATA_HEALTH_MAX_AGE_MS (env_max_age "0")) = Finite 0
  /\ 5 - 0 > 0
  /\ h_status (getDataHealth (env_max_age "0") 5 (updated_at (Some 0))) = OK
  /\ h_isFresh (getDataHealth (env_max_age "0") 5 (updated_at (Some 0))) = true
  /\ maxAge (env_max_age "0") = Finite 10000.
Proof.
  split; [vm_compute; reflexivity | split; [reflexivity |]].
  split; [vm_compute; reflexivity | split; vm_compute; reflexivity].
Qed.

(** ** History ring buffer *)

Lemma history_push_bounded (payload : Envelope) (history : list Envelope) :
  (List.length history <= 500)%nat ->
  (List.length (history_push payload history) <= 500)%nat.
Proof.
  intros H. unfold history_push.
  destruct (Nat.ltb_spec 500 (List.length (history ++ [payload]))) as [Hgt | Hle].
  - rewrite length_app in Hgt. simpl in Hgt.
    destruct history as [|x t]; simpl in *; [lia |].
    rewrite length_app. simpl. lia.
  - exact Hle.
Qed.

Lemma history_push_window (payload : Envelope) (history : list Envelope) :
  (List.length history <= 500)%nat ->
  history_push payload history
  = skipn (List.length (history ++ [payload]) - 500) (history ++ [payload]).
Proof.
  intros H. unfold history_push.
  destruct (Nat.ltb_spec 500 (List.length (history ++ [payload]))) as [Hgt | Hle].
  - rewrite length_app in *. simpl in *.
    replace (List.length history + 1 - 500)%nat with 1%nat by lia.
    destruct history; reflexivity.
  - replace (List.length (history ++ [payload]) - 500)%nat with 0%nat by lia.
    reflexivity.
Qed.

Lemma pushes_from_window (ps history : list Envelope) :
  (List.length history <= 500)%nat ->
  fold_left (fun h p => history_push p h) ps history
  = skipn (List.length (history ++ ps) - 500) (history ++ ps).
Proof.
  revert history. induction ps as [|p ps IH]; intros history H.
  - simpl. rewrite app_nil_r.
    replace (List.length history - 500)%nat with 0%nat by lia. reflexivity.
  - simpl fold_left. rewrite IH by (apply history_push_bounded, H).
    rewrite (history_push_window p history H).
    pose proof (length_app history [p]) as L1. simpl in L1.
    pose proof (length_app history (p :: ps)) as L2. simpl in L2.
    set (k := (List.length (history ++ [p]) - 500)%nat).
    assert (Hk : (k <= List.length (history ++ [p]))%nat) by (unfold k; lia).
    assert (E : skipn k (history ++ [p]) ++ ps = skipn k ((history ++ [p]) ++ ps)).
    { rewrite (skipn_app k (history ++ [p]) ps).
      replace (k - List.length (history ++ [p]))%nat with 0%nat by lia.
      reflexivity. }
    rewrite E, skipn_skipn. rewrite <- app_assoc. simpl.
    f_equal. rewrite length_skipn, L2. unfold k. rewrite L1. lia.
Qed.

Lemma pushes_window (ps : list Envelope) :
  pushes ps = skipn (List.length ps - 500) ps.
Proof.
  unfold pushes. rewrite pushes_from_window by (simpl; lia). reflexivity.
Qed.

Lemma led_keeps_history (now : Z) (b : Body) (st : State) :
  sensorHistory (state_of (post_led now b st)) = sensorHistory st.
Proof. reflexivity. Qed.

Lemma fan_keeps_history (now : Z) (b : Body) (st : State) :
  sensorHistory (state_of (post_fan now b st)) = sensorHistory st.
Proof.
  unfold post_fan. destruct (negb (allowFanControl (deviceState st))); [reflexivity |].
  destruct (is_on _); [reflexivity |]. destruct (is_off _); reflexivity.
Qed.

Lemma settings_keeps_history (env : Env) (now : Z) (b : Body) (st : State) :
  sensorHistory (state_of (post_settings env now b st)) = sensorHistory st.
Proof.
  unfold post_settings. cbv zeta.
  destruct (is_defined _); destruct (get_field "algo" b); try reflexivity;
    destruct (truthy _); reflexivity.
Qed.

(** The parts of a tick: the state is the one the [try] block leaves;
    what is done is what the block logged, the two events, and the
    requests of the forwarding step; the tick ends as that step does. *)
Lemma tick_parts (env : Env) (i : TickInput) (st : State) :
  let tried := try_history env (tick_pool i) (refresh env i st) in
  state_of (updateSensorData env i st) = fst tried
  /\ effects_of (updateSensorData env i st)
     = snd tried
       ++ [ Emit "temperatureUpdated"
              (JObj [ ("temperature", JNum (generateRandomTemperature env (rnd_temperature i)));
                      ("humidity", JNum (generateRandomHumidity env (rnd_humidity i)));
                      ("timestamp", JDate (tick_now i)) ]);
            Emit "dataHealthUpdated"
              (health_js (getDataHealth env (health_now i) (fst tried))) ]
       ++ forwarded env (fst tried)
  /\ completion_of (updateSensorData env i st) = forwarding_ends env (fst tried).
Proof.
  cbv zeta. unfold updateSensorData, forwarded, forwarding_ends. cbv zeta.
  assert (Ed : deviceState (fst (try_history env (tick_pool i) (refresh env i st)))
               = deviceState (refresh env i st)).
  { unfold try_history. destruct (record_history _ _ _); reflexivity. }
  destruct (try_history env (tick_pool i) (refresh env i st)) as [st2 logged].
  cbn [fst snd] in *. rewrite Ed.
  destruct (sendToMainServer env st2) as [requests | msg];
    unfold state_of, effects_of, completion_of; cbn [fst snd].
  - split; [reflexivity | split; [| reflexivity]].
    rewrite <- app_assoc. reflexivity.
  - split; [reflexivity | split; [| reflexivity]].
    rewrite !app_nil_r. reflexivity.
Qed.

Lemma tick_state (env : Env) (i : TickInput) (st : State) :
  state_of (updateSensorData env i st)
  = fst (try_history env (tick_pool i) (refresh env i st)).
Proof. apply (tick_parts env i st). Qed.

Lemma tick_history (env : Env) (i : TickInput) (st : State) :
  sensorHistory (state_of (updateSensorData env i st)) = sensorHistory st
  \/ exists payload,
       sensorHistory (state_of (updateSensorData env i st))
       = history_push payload (sensorHistory st).
Proof.
  rewrite tick_state. unfold try_history.
  destruct (record_history env (tick_pool i) _) as [h | msg] eqn:E; cbn [fst].
  - right. unfold record_history in E. simpl in E.
    destruct (encryptJSON _ _ _ _) as [payload | m]; simpl in E; [| discriminate].
    injection E as <-. exists payload. reflexivity.
  - left. reflexivity.
Qed.

Lemma handle_post_led (env : Env) (now : Z) (b : Body) (st : State) :
  state_of (handle env (PostLed now b) st) = state_of (post_led now b st)
  /\ completion_of (handle env (PostLed now b) st) = Returned.
Proof. split; reflexivity. Qed.

Lemma handle_post_fan (env : Env) (now : Z) (b : Body) (st : State) :
  state_of (handle env (PostFan now b) st) = state_of (post_fan now b st)
  /\ completion_of (handle env (PostFan now b) st) = Returned.
Proof.
  cbn [handle]. destruct (post_fan now b st) as [[st' eff] resp]. split; reflexivity.
Qed.

Lemma handle_post_settings (env : Env) (now : Z) (b : Body) (st : State) :
  state_of (handle env (PostSettings now b) st) = state_of (post_settings env now b st)
  /\ completion_of (handle env (PostSettings now b) st) = Returned.
Proof.
  cbn [handle]. destruct (post_settings env now b st) as [[st' eff] resp].
  split; reflexivity.
Qed.

Lemma handle_history_bounded (env : Env) (e : Event) (st : State) :
  (List.length (sensorHistory st) <= 500)%nat ->
  (List.length (sensorHistory (state_of (handle env e st))) <= 500)%nat.
Proof.
  intros H. destruct e as [i | now b | now b | now b].
  - cbn [handle]. destruct (tick_history env i st) as [E | [payload E]]; rewrite E.
    + exact H.
    + apply history_push_bounded, H.
  - exact H.
  - rewrite (proj1 (handle_post_fan env now b st)), fan_keeps_history. exact H.
  - rewrite (proj1 (handle_post_settings env now b st)), settings_keeps_history. exact H.
Qed.

(** What holds of the state the process starts in and is kept by every
    event holds of every state a run reaches. *)
Lemma run_invariant (P : State -> Prop) (env : Env) :
  (forall e st, P st -> P (state_of (handle env e st))) ->
  forall events st st', P st -> run env events st = Ok st' -> P st'.
Proof.
  intros Hstep events. induction events as [|e rest IH]; intros st st' H Hrun.
  - injection Hrun as <-. exact H.
  - cbn [run] in Hrun. destruct (completion_of (handle env e st)); [| discriminate Hrun].
    apply (IH _ _ (Hstep e st H) Hrun).
Qed.

Lemma run_history_bounded (env : Env) (events : list Event) (st st' : State) :
  (List.length (sensorHistory st) <= 500)%nat ->
  run env events st = Ok st' ->
  (List.length (sensorHistory st') <= 500)%nat.
Proof.
  apply (run_invariant (fun s => (List.length (sensorHistory s) <= 500)%nat) env).
  intros e s. apply handle_history_bounded.
Qed.

(** C2: whatever is appended to the history, its size never exceeds 500
    and it holds the last 500 appended envelopes (all of them while there
    are fewer) in insertion order, oldest first; after 501 appends it is
    exactly the last 500 and the first-appended envelope is no longer in
    it; and the history of every state the process reaches has at most
    500 entries. *)
Theorem C2_history_ring_buffer :
  (forall ps : list Envelope,
      (List.length (pushes ps) <= 500)%nat
      /\ pushes ps = skipn (List.length ps - 500) ps)
  /\ (forall (first : Envelope) (rest : list Envelope),
        List.length rest = 500%nat ->
        pushes (first :: rest) = rest
        /\ (~ In first rest -> ~ In first (pushes (first :: rest))))
  /\ (forall env st, reachable env st -> (List.length (sensorHistory st) <= 500)%nat).
Proof.
  split; [| split].
  - intros ps. split; [| apply pushes_window].
    rewrite pushes_window, length_skipn. lia.
  - intros first rest Hlen.
    assert (E : pushes (first :: rest) = rest).
    { rewrite pushes_window. simpl List.length. rewrite Hlen. reflexivity. }
    split; [exact E | rewrite E; auto].
  - intros env st [t0 [events Hrun]].
    apply (run_history_bounded env events (initial_state env t0) st);
      [simpl; lia | exact Hrun].
Qed.

(** ** Reachable states *)

Lemma led_keeps_algo (now : Z) (b : Body) (st : State) :
  currentEncAlgo (state_of (post_led now b st)) = currentEncAlgo st.
Proof. reflexivity. Qed.

Lemma fan_keeps_algo (now : Z) (b : Body) (st : State) :
  currentEncAlgo (state_of (post_fan now b st)) = currentEncAlgo st.
Proof.
  unfold post_fan. destruct (negb (allowFanControl (deviceState st))); [reflexivity |].
  destruct (is_on _); [reflexivity |]. destruct (is_off _); reflexivity.
Qed.

Lemma settings_algo_resolves (env : Env) (now : Z) (b : Body) (st : State) :
  resolves (currentEncAlgo st) ->
  resolves (currentEncAlgo (state_of (post_settings env now b st))).
Proof.
  intros H. unfold post_settings. cbv zeta.
  destruct (get_field "algo" b) as [| | | | s | | |];
    try (destruct (is_defined _); exact H).
  destruct (truthy (ALGORITHMS_get (toUpperCase s))) eqn:E.
  - apply truthy_upper_resolves in E. destruct (is_defined _); exact E.
  - destruct (is_defined _); exact H.
Qed.

Lemma tick_keeps_algo (env : Env) (i : TickInput) (st : State) :
  currentEncAlgo (state_of (updateSensorData env i st)) = currentEncAlgo st.
Proof.
  rewrite tick_state. unfold try_history.
  destruct (record_history env (tick_pool i) (refresh env i st)); reflexivity.
Qed.

Lemma tick_deviceState (env : Env) (i : TickInput) (st : State) :
  deviceState (state_of (updateSensorData env i st)) = deviceState (refresh env i st).
Proof.
  rewrite tick_state. unfold try_history.
  destruct (record_history env (tick_pool i) (refresh env i st)); reflexivity.
Qed.

Lemma handle_algo_resolves (env : Env) (e : Event) (st : State) :
  resolves (currentEncAlgo st) -> resolves (currentEncAlgo (state_of (handle env e st))).
Proof.
  intros H. destruct e as [i | now b | now b | now b].
  - cbn [handle]. rewrite tick_keeps_algo. exact H.
  - exact H.
  - rewrite (proj1 (handle_post_fan env now b st)), fan_keeps_algo. exact H.
  - rewrite (proj1 (handle_post_settings env now b st)).
    apply settings_algo_resolves, H.
Qed.

Lemma default_algo_resolves (env : Env) : resolves (DEFAULT_ENC_ALGO env).
Proof.
  apply resolves_iff. unfold DEFAULT_ENC_ALGO.
  destruct (env_ENC_ALGO env) as [s|]; [destruct (String.eqb s "DES") |]; auto.
Qed.

(** The active algorithm of a running process is always one of the
    registry, so the history step of a tick never meets an unsupported
    algorithm. *)
Lemma reachable_algo_resolves (env : Env) (st : State) :
  reachable env st -> resolves (currentEncAlgo st).
Proof.
  intros [t0 [events Hrun]].
  apply (run_invariant (fun s => resolves (currentEncAlgo s)) env
           (handle_algo_resolves env) events (initial_state env t0) st
           (default_algo_resolves env) Hrun).
Qed.

Lemma handle_lastUpdate (env : Env) (e : Event) (st : State) :
  lastUpdate (deviceState st) <> None ->
  lastUpdate (deviceState (state_of (handle env e st))) <> None.
Proof.
  intros H. destruct e as [i | now b | now b | now b].
  - cbn [handle]. rewrite tick_deviceState. discriminate.
  - discriminate.
  - rewrite (proj1 (handle_post_fan env now b st)).
    unfold post_fan. destruct (negb (allowFanControl (deviceState st))); [exact H |].
    destruct (is_on _); [simpl; discriminate |].
    destruct (is_off _); [simpl; discriminate | exact H].
  - rewrite (proj1 (handle_post_settings env now b st)).
    unfold post_settings. cbv zeta.
    destruct (is_defined _); destruct (get_field "algo" b); try exact H;
      destruct (truthy _); exact H.
Qed.

(** A running process always has a [lastUpdate], so [toISOString] never
    throws and the health verdict is never UNKNOWN. *)
Lemma reachable_lastUpdate (env : Env) (st : State) :
  reachable env st -> lastUpdate (deviceState st) <> None.
Proof.
  intros [t0 [events Hrun]].
  apply (run_invariant (fun s => lastUpdate (deviceState s) <> None) env
           (handle_lastUpdate env) events (initial_state env t0) st); [| exact Hrun].
  simpl. discriminate.
Qed.

(** ** Key derivation *)

Lemma digest_length (msg : list byte) : List.length (SHA256.digest msg) = 32%nat.
Proof.
  unfold SHA256.digest. cbv zeta. rewrite !length_app. reflexivity.
Qed.

Lemma deriveKey_length (secret name : string) (p : AlgoProfile) :
  In (name, p) ALGORITHMS -> List.length (deriveKey secret (keyLen p)) = keyLen p.
Proof.
  intros Hin. unfold deriveKey, subarray0. rewrite length_firstn, digest_length.
  destruct Hin as [H | [H | []]]; injection H as <- <-; reflexivity.
Qed.

(** C3: [deriveKey] yields the same bytes for the same secret and the same
    key length, and for every profile of the registry the derived key has
    exactly the profile's [keyLen] bytes, 32 for AES and 24 for DES. *)
Theorem C3_deriveKey :
  (forall secret1 secret2 p1 p2,
      secret1 = secret2 -> keyLen p1 = keyLen p2 ->
      deriveKey secret1 (keyLen p1) = deriveKey secret2 (keyLen p2))
  /\ (forall secret name p,
        In (name, p) ALGORITHMS ->
        List.length (deriveKey secret (keyLen p)) = keyLen p
        /\ (name = "AES" -> keyLen p = 32%nat)
        /\ (name = "DES" -> keyLen p = 24%nat)).
Proof.
  split.
  - intros secret1 secret2 p1 p2 -> ->. reflexivity.
  - intros secret name p Hin. split; [apply (deriveKey_length secret name p Hin) |].
    destruct Hin as [H | [H | []]]; injection H as <- <-; simpl;
      split; try reflexivity; discriminate.
Qed.

(** ** Encryptor *)

(** Every profile of the registry names a cipher of the runtime whose key
    and block sizes are the profile's [keyLen] and [ivLen]. *)
Lemma registry_cipher (name : string) (p : AlgoProfile) :
  In (name, p) ALGORITHMS ->
  exists c, cipher_of (cipher p) = Some c
            /\ key_size c = keyLen p /\ block_size c = ivLen p.
Proof.
  intros [H | [H | []]]; injection H as <- <-; eexists; repeat split.
Qed.

Lemma randomBytes_ok (n : nat) (pool : list byte) :
  (n <= List.length pool)%nat ->
  randomBytes n pool = Ok (firstn n pool) /\ List.length (firstn n pool) = n.
Proof.
  intros H. unfold randomBytes.
  destruct (Nat.leb_spec n (List.length pool)); [| lia].
  split; [reflexivity | rewrite length_firstn; lia].
Qed.

Lemma createCipheriv_ok (name secret : string) (p : AlgoProfile) (iv_bytes : list byte) :
  In (name, p) ALGORITHMS ->
  List.length iv_bytes = ivLen p ->
  exists ctx, createCipheriv (cipher p) (deriveKey secret (keyLen p)) iv_bytes = Ok ctx.
Proof.
  intros Hin Hiv. destruct (registry_cipher name p Hin) as [c [Ec [Hk Hb]]].
  unfold createCipheriv. rewrite Ec, (deriveKey_length secret name p Hin), Hk, Hiv, Hb.
  rewrite !Nat.eqb_refl. simpl. eauto.
Qed.

Lemma ALGORITHMS_get_own (name : string) (p : AlgoProfile) :
  In (name, p) ALGORITHMS -> ALGORITHMS_get name = Own p.
Proof.
  intros H. apply own_property_resolves in H. unfold ALGORITHMS_get. rewrite H.
  reflexivity.
Qed.

Lemma ALGORITHMS_get_falsy (name : string) :
  truthy (ALGORITHMS_get name) = false <-> ALGORITHMS_get name = Undefined.
Proof. destruct (ALGORITHMS_get name); simpl; split; congruence. Qed.

(** With enough entropy and a record that has a JSON text, [encryptJSON]
    returns an envelope, and what is in it. *)
Lemma encryptJSON_ok (pool : list byte) (record : JsValue) (name secret json : string)
    (p : AlgoProfile) :
  In (name, p) ALGORITHMS ->
  (ivLen p <= List.length pool)%nat ->
  JSON_stringify record = Ok json ->
  exists ctx,
    createCipheriv (cipher p) (deriveKey secret (keyLen p)) (firstn (ivLen p) pool) = Ok ctx
    /\ encryptJSON pool record name secret
       = Ok {| algo := name;
               iv := Base64.encode (firstn (ivLen p) pool);
               data := Base64.encode (cipher_update_final ctx (list_byte_of_string json)) |}.
Proof.
  intros Hin Hpool Hjson.
  destruct (randomBytes_ok _ _ Hpool) as [Hrnd Hlen].
  destruct (createCipheriv_ok name secret p _ Hin Hlen) as [ctx Hctx].
  exists ctx. split; [exact Hctx |].
  unfold encryptJSON. rewrite (ALGORITHMS_get_own name p Hin), Hrnd. simpl.
  rewrite Hctx. simpl. rewrite Hjson. reflexivity.
Qed.

(** C4: for every record that has a JSON text from which [JSON.parse]
    gives the record back, every registered algorithm and every secret,
    [encryptJSON] (given the entropy for an IV) returns an envelope that
    names the algorithm, and decrypting that envelope with the same secret
    recovers the record. *)
Theorem C4_decrypt_encrypt (pool : list byte) (record : JsValue)
    (name secret json : string) (p : AlgoProfile) :
  In (name, p) ALGORITHMS ->
  (ivLen p <= List.length pool)%nat ->
  JSON_stringify record = Ok json ->
  JSON_parse json = Ok record ->
  exists envelope,
    encryptJSON pool record name secret = Ok envelope
    /\ algo envelope = name
    /\ decryptJSON envelope secret = Ok record.
Proof.
  intros Hin Hpool Hjson Hparse.
  destruct (encryptJSON_ok pool record name secret json p Hin Hpool Hjson)
    as [ctx [Hctx Henc]].
  eexists. split; [exact Henc |]. split; [reflexivity |].
  unfold decryptJSON. cbn [algo iv data].
  rewrite (ALGORITHMS_get_own name p Hin), !decode_encode.
  assert (Hdec : createDecipheriv (cipher p) (deriveKey secret (keyLen p))
                   (firstn (ivLen p) pool) = Ok ctx) by exact Hctx.
  rewrite Hdec. simpl.
  rewrite (decipher_cipher _ _ _ _ ctx ctx Hctx Hdec). simpl.
  rewrite string_of_list_byte_of_string. exact Hparse.
Qed.

(** ** Encrypted exports *)

(** C7, as amended: on an encrypted export the requested name is looked
    up as it is given, and a name for which the lookup finds nothing does
    not make the export fail: the export is the one of a request that
    names no algorithm, made under the current active algorithm, and (in a
    state whose active algorithm is registered, with the entropy for an IV
    and a record that has a JSON text) it is answered with status 200,
    [encrypted: true] and the name of the active algorithm.  Only
    [encryptJSON] itself, handed such a name, throws [Unsupported
    algorithm]. *)
Theorem C7_export_unresolved_name (env : Env) (pool : list byte) (s : string)
    (st : State) :
  truthy (ALGORITHMS_get s) = false ->
  export_algoName (Some (QString s)) st = Ok (QString (currentEncAlgo st))
  /\ get_sensor_encrypted env pool (Some (QString s)) st
     = get_sensor_encrypted env pool None st
  /\ get_humidity_encrypted env pool (Some (QString s)) st
     = get_humidity_encrypted env pool None st
  /\ (forall data secret,
        encryptJSON pool data s secret
        = Throw (String.append "Unsupported algorithm: " s))
  /\ (forall p T json,
        In (currentEncAlgo st, p) ALGORITHMS ->
        lastUpdate (deviceState st) = Some T ->
        (ivLen p <= List.length pool)%nat ->
        JSON_stringify (sensor_record (ISODate.toISOString T) (deviceState st)) = Ok json ->
        exists r,
          get_sensor_encrypted env pool (Some (QString s)) st = Ok ([], r)
          /\ status r = 200
          /\ prop "encrypted" (body r) = JBool true
          /\ prop "algo" (body r) = JStr (currentEncAlgo st)).
Proof.
  intros Hfalsy.
  assert (Hname : export_algoName (Some (QString s)) st = Ok (QString (currentEncAlgo st))).
  { unfold export_algoName. destruct s as [|c r]; [reflexivity |].
    cbn [query_truthy ToString bind]. rewrite Hfalsy. reflexivity. }
  split; [exact Hname |].
  split; [unfold get_sensor_encrypted; rewrite Hname; reflexivity |].
  split; [unfold get_humidity_encrypted; rewrite Hname; reflexivity |].
  split.
  - intros record secret. unfold encryptJSON.
    apply ALGORITHMS_get_falsy in Hfalsy. rewrite Hfalsy. reflexivity.
  - intros p T json Hin HT Hpool Hjson.
    unfold get_sensor_encrypted. rewrite Hname. cbn [bind].
    unfold lastUpdate_toISOString. rewrite HT. cbn [bind].
    destruct (encryptJSON_ok pool _ _ (DATA_SECRET env) json p Hin Hpool Hjson)
      as [ctx [_ Henc]].
    unfold encrypt_for. cbn [ToString bind]. rewrite Henc. cbn [export_response].
    eexists. split; [reflexivity |].
    repeat split.
Qed.

(** * Further properties of the script *)

(** ** Simulated sensor values *)

Lemma floor_range_bounds (rnd : Q) (lo hi : double) (a b : Z) :
  Double.representable rnd -> (0 <= rnd)%Q -> (rnd < 1)%Q ->
  is_integer lo a -> is_integer hi b ->
  - 2 ^ 51 <= a -> a <= b -> b <= 2 ^ 51 ->
  exists k, a <= k <= b /\ floor_range rnd lo hi = Double.of_Z k.
Proof.
  intros Hrep H0 H1 [qa [-> Ha]] [qb [-> Hb]] Hlo Hab Hhi.
  pose proof (representable_below_1 rnd Hrep H0 H1) as Hr.
  assert (P51 : 2 ^ 51 = 2251799813685248) by reflexivity.
  assert (P53 : 2 ^ 53 = 9007199254740992) by reflexivity.
  unfold floor_range, Double.sub, Double.opp, Double.add.
  assert (E1 : Double.round (qb + - qa) = Finite (inject_Z (b - a))).
  { apply round_int; [| lia].
    unfold Z.sub. rewrite inject_Z_plus, inject_Z_opp, Ha, Hb. reflexivity. }
  rewrite E1.
  assert (E2 : Double.round (inject_Z (b - a) + 1) = Finite (inject_Z (b - a + 1))).
  { apply round_int; [| lia]. rewrite inject_Z_plus. reflexivity. }
  rewrite E2. unfold Double.mul.
  assert (Hn : (0 <= inject_Z (b - a + 1))%Q).
  { change 0%Q with (inject_Z 0). rewrite <- Zle_Qle. lia. }
  destruct (round_below_int (rnd * inject_Z (b - a + 1)) (b - a + 1))
    as [v [Ev [Hv0 Hv1]]].
  - apply Qmult_le_0_compat; assumption.
  - lia.
  - rewrite (Qmult_comm (inject_Z (b - a + 1))). apply Qmult_le_compat_r; assumption.
  - rewrite Ev. unfold Double.floor.
    assert (F0 : 0 <= Qfloor v).
    { rewrite <- (Qfloor_Z 0). apply Qfloor_resp_le. exact Hv0. }
    assert (F1 : Qfloor v < b - a + 1).
    { rewrite Zlt_Qlt. eapply Qle_lt_trans; [apply Qfloor_le | exact Hv1]. }
    exists (Qfloor v + a). split; [lia |].
    apply round_int; [| lia]. rewrite inject_Z_plus, Ha. reflexivity.
Qed.

(** X1: when [Math.random()] returns a double of [0, 1) and the bounds in
    use (the configured ones, or the defaults for those that are not set,
    not numbers or zero) are integers [min <= max] of at most 2^51 in
    size, the temperature and the humidity an update cycle generates are
    integers between their minimum and their maximum, both included,
    computed as the doubles are. *)
Theorem X1_generated_values_in_range (env : Env) (rnd : Q) :
  Double.representable rnd -> (0 <= rnd)%Q -> (rnd < 1)%Q ->
  (forall a b,
      is_integer (Double.or (env_TEMP_MIN env) 20) a ->
      is_integer (Double.or (env_TEMP_MAX env) 35) b ->
      - 2 ^ 51 <= a -> a <= b -> b <= 2 ^ 51 ->
      exists k, a <= k <= b /\ generateRandomTemperature env rnd = Double.of_Z k)
  /\ (forall a b,
        is_integer (Double.or (env_HUM_MIN env) 40) a ->
        is_integer (Double.or (env_HUM_MAX env) 80) b ->
        - 2 ^ 51 <= a -> a <= b -> b <= 2 ^ 51 ->
        exists k, a <= k <= b /\ generateRandomHumidity env rnd = Double.of_Z k).
Proof.
  intros Hrep H0 H1.
  split; intros a b Ha Hb Hlo Hab Hhi;
    apply (floor_range_bounds rnd _ _ a b Hrep H0 H1 Ha Hb Hlo Hab Hhi).
Qed.

(** ** Key derivation *)

(** X2: the derived key has [keyLen] bytes, at most the 32 of the digest,
    and a shorter key is the beginning of every longer one derived from
    the same secret: the DES key is the first 24 bytes of the AES key. *)
Theorem X2_deriveKey_prefix (secret : string) (n : nat) :
  List.length (deriveKey secret n) = Nat.min n 32
  /\ (forall m, (n <= m)%nat -> deriveKey secret n = firstn n (deriveKey secret m))
  /\ deriveKey secret 24 = firstn 24 (deriveKey secret 32).
Proof.
  unfold deriveKey, subarray0. split; [| split].
  - rewrite length_firstn, digest_length. reflexivity.
  - intros m Hm. rewrite firstn_firstn. f_equal. lia.
  - rewrite firstn_firstn. reflexivity.
Qed.

(** ** Encryptor *)

Lemma ALGORITHMS_get_own_inv (name : string) (p : AlgoProfile) :
  ALGORITHMS_get name = Own p -> In (name, p) ALGORITHMS.
Proof.
  unfold ALGORITHMS_get. intros H. apply own_property_resolves.
  destruct (own_property name ALGORITHMS) as [p'|]; [congruence |].
  destruct (existsb _ _); discriminate H.
Qed.

(** What an envelope [encryptJSON] has returned is made of. *)
Lemma encryptJSON_inv (pool : list byte) (record : JsValue) (name secret : string)
    (e : Envelope) :
  encryptJSON pool record name secret = Ok e ->
  exists p json ctx,
    In (name, p) ALGORITHMS
    /\ (ivLen p <= List.length pool)%nat
    /\ JSON_stringify record = Ok json
    /\ createCipheriv (cipher p) (deriveKey secret (keyLen p)) (firstn (ivLen p) pool)
       = Ok ctx
    /\ e = {| algo := name;
              iv := Base64.encode (firstn (ivLen p) pool);
              data := Base64.encode (cipher_update_final ctx (list_byte_of_string json)) |}.
Proof.
  unfold encryptJSON. intros H.
  destruct (ALGORITHMS_get name) as [p | |] eqn:Eget; try discriminate H.
  apply ALGORITHMS_get_own_inv in Eget.
  unfold randomBytes in H.
  destruct (Nat.leb_spec (ivLen p) (List.length pool)) as [Hpool |]; [| discriminate H].
  cbn [bind] in H.
  destruct (createCipheriv _ _ _) as [ctx | m] eqn:Ectx; [| discriminate H].
  cbn [bind] in H.
  destruct (JSON_stringify record) as [json | m] eqn:Ejson; [| discriminate H].
  cbn [bind] in H. injection H as <-.
  exists p, json, ctx. repeat split; assumption.
Qed.

Lemma cipher_update_final_length (id : string) (key iv_bytes plain : list byte)
    (ctx : CipherCtx) :
  createCipheriv id key iv_bytes = Ok ctx ->
  (0 < block_size (ctx_cipher ctx))%nat
  /\ List.length iv_bytes = block_size (ctx_cipher ctx)
  /\ List.length (cipher_update_final ctx plain)
     = ((List.length plain / block_size (ctx_cipher ctx) + 1)
        * block_size (ctx_cipher ctx))%nat.
Proof.
  unfold createCipheriv. intros H.
  destruct (cipher_of id) as [c|] eqn:Ec; [| discriminate H].
  destruct (List.length key =? key_size c)%nat; [| discriminate H].
  destruct (Nat.eqb_spec (List.length iv_bytes) (block_size c)) as [Hiv |];
    [| discriminate H].
  cbn [negb] in H. injection H as <-. cbn [ctx_cipher].
  destruct (cipher_of_sound id c Ec) as [[Hpos _] [Hlen _]].
  split; [exact Hpos | split; [exact Hiv |]].
  unfold cipher_update_final. cbn [ctx_cipher ctx_key ctx_iv].
  rewrite cbc_encrypt_length by (intros b; apply Hlen).
  rewrite pad_length by exact Hpos.
  rewrite Nat.div_mul by lia. reflexivity.
Qed.

Lemma encryptJSON_envelope (pool : list byte) (record : JsValue) (name secret : string)
    (e : Envelope) :
  encryptJSON pool record name secret = Ok e ->
  exists p json encrypted,
    In (name, p) ALGORITHMS
    /\ algo e = name
    /\ JSON_stringify record = Ok json
    /\ Base64.decode (iv e) = Some (firstn (ivLen p) pool)
    /\ List.length (firstn (ivLen p) pool) = ivLen p
    /\ Base64.decode (data e) = Some encrypted
    /\ List.length encrypted
       = ((List.length (list_byte_of_string json) / ivLen p + 1) * ivLen p)%nat
    /\ (0 < ivLen p)%nat.
Proof.
  intros H. destruct (encryptJSON_inv _ _ _ _ _ H)
    as [p [json [ctx [Hin [Hpool [Hjson [Hctx ->]]]]]]].
  destruct (cipher_update_final_length _ _ _ (list_byte_of_string json) _ Hctx)
    as [Hpos [Hiv Hlen]].
  assert (Hfirst : List.length (firstn (ivLen p) pool) = ivLen p)
    by (rewrite length_firstn; lia).
  rewrite Hfirst in Hiv. rewrite <- Hiv in Hlen, Hpos.
  exists p, json, (cipher_update_final ctx (list_byte_of_string json)).
  cbn [algo iv data]. rewrite !decode_encode.
  repeat split; assumption.
Qed.

Lemma encryptJSON_envelope_ok (pool : list byte) (record : JsValue)
    (name secret : string) (e : Envelope) :
  encryptJSON pool record name secret = Ok e -> envelope_ok e.
Proof.
  intros H. destruct (encryptJSON_envelope _ _ _ _ _ H)
    as [p [json [encrypted [Hin [Ha [_ [Hiv [Hivlen [Hdata [Hlen Hpos]]]]]]]]]].
  exists p, (firstn (ivLen p) pool), encrypted. rewrite Ha.
  split; [exact Hin | split; [exact Hiv | split; [exact Hivlen | split; [exact Hdata |]]]].
  rewrite Hlen. split; [nia | apply Nat.Div0.mod_mul].
Qed.

(** X4: [encryptJSON] returns an envelope exactly when the name is the
    name of a profile of the registry, the system supplies the [ivLen]
    random bytes of that profile and the record has a JSON text; in every
    other case it throws. *)
Theorem X4_encryptJSON_succeeds_iff (pool : list byte) (record : JsValue)
    (name secret : string) :
  (exists e, encryptJSON pool record name secret = Ok e)
  <-> (exists p json,
          In (name, p) ALGORITHMS
          /\ (ivLen p <= List.length pool)%nat
          /\ JSON_stringify record = Ok json).
Proof.
  split.
  - intros [e H]. destruct (encryptJSON_inv _ _ _ _ _ H)
      as [p [json [ctx [Hin [Hpool [Hjson _]]]]]].
    exists p, json. repeat split; assumption.
  - intros [p [json [Hin [Hpool Hjson]]]].
    destruct (encryptJSON_ok pool record name secret json p Hin Hpool Hjson)
      as [ctx [_ E]].
    eexists. exact E.
Qed.

(** X5: an envelope [encryptJSON] returns names the algorithm it was
    asked for; its [iv] is the base64 text of the random bytes drawn,
    [ivLen] of them (16 for AES, 8 for DES); its [data] is the base64 text
    of a cipher text that has one block more than the whole blocks of the
    JSON text, so it is never empty and always longer than the text. *)
Theorem X5_envelope_shape (pool : list byte) (record : JsValue) (name secret : string)
    (e : Envelope) :
  encryptJSON pool record name secret = Ok e ->
  algo e = name
  /\ envelope_ok e
  /\ exists p json encrypted,
       In (name, p) ALGORITHMS
       /\ (name = "AES" -> ivLen p = 16%nat)
       /\ (name = "DES" -> ivLen p = 8%nat)
       /\ JSON_stringify record = Ok json
       /\ Base64.decode (iv e) = Some (firstn (ivLen p) pool)
       /\ List.length (firstn (ivLen p) pool) = ivLen p
       /\ Base64.decode (data e) = Some encrypted
       /\ List.length encrypted
          = ((List.length (list_byte_of_string json) / ivLen p + 1) * ivLen p)%nat
       /\ (List.length (list_byte_of_string json) < List.length encrypted)%nat.
Proof.
  intros H. pose proof (encryptJSON_envelope_ok _ _ _ _ _ H) as Hok.
  destruct (encryptJSON_envelope _ _ _ _ _ H)
    as [p [json [encrypted [Hin [Ha [Hjson [Hiv [Hivlen [Hdata [Hlen Hpos]]]]]]]]]].
  split; [exact Ha | split; [exact Hok |]].
  exists p, json, encrypted.
  split; [exact Hin |].
  split; [intros ->; destruct Hin as [E | [E | []]]; [injection E as <-; reflexivity | discriminate E] |].
  split; [intros ->; destruct Hin as [E | [E | []]]; [discriminate E | injection E as <-; reflexivity] |].
  split; [exact Hjson | split; [exact Hiv | split; [exact Hivlen | split; [exact Hdata |]]]].
  split; [exact Hlen |].
  rewrite Hlen.
  pose proof (Nat.div_mod_eq (List.length (list_byte_of_string json)) (ivLen p)) as Ed.
  pose proof (Nat.mod_upper_bound (List.length (list_byte_of_string json)) (ivLen p)) as Eb.
  nia.
Qed.

(** ** Update cycle *)

Lemma refresh_lastUpdate (env : Env) (i : TickInput) (st : State) :
  lastUpdate (deviceState (refresh env i st)) = Some (tick_now i).
Proof. reflexivity. Qed.

(** A tick whose history step gets its envelope. *)
Lemma tick_recorded (env : Env) (i : TickInput) (st : State) (payload : Envelope) :
  encryptJSON (tick_pool i)
    (sensor_record (ISODate.toISOString (tick_now i)) (deviceState (refresh env i st)))
    (currentEncAlgo st) (DATA_SECRET env) = Ok payload ->
  try_history env (tick_pool i) (refresh env i st)
  = (with_sensorHistory (refresh env i st) (history_push payload (sensorHistory st)), []).
Proof.
  intros H. unfold try_history, record_history, lastUpdate_toISOString.
  rewrite refresh_lastUpdate. cbn [bind].
  change (currentEncAlgo (refresh env i st)) with (currentEncAlgo st).
  rewrite H. reflexivity.
Qed.

(** Where the entry a tick appends comes from. *)
Lemma tick_history_origin (env : Env) (i : TickInput) (st : State) :
  sensorHistory (state_of (updateSensorData env i st)) = sensorHistory st
  \/ exists payload record,
       encryptJSON (tick_pool i) record (currentEncAlgo st) (DATA_SECRET env) = Ok payload
       /\ sensorHistory (state_of (updateSensorData env i st))
          = history_push payload (sensorHistory st).
Proof.
  rewrite tick_state. unfold try_history.
  destruct (record_history env (tick_pool i) _) as [h | msg] eqn:E; cbn [fst].
  - right. unfold record_history, lastUpdate_toISOString in E.
    rewrite refresh_lastUpdate in E. cbn [bind] in E.
    change (currentEncAlgo (refresh env i st)) with (currentEncAlgo st) in E.
    destruct (encryptJSON _ _ _ _) as [payload | m] eqn:Eenc; cbn [bind] in E;
      [| discriminate E].
    injection E as <-. exists payload. eexists. split; [exact Eenc | reflexivity].
  - left. reflexivity.
Qed.

Lemma history_push_Forall (P : Envelope -> Prop) (payload : Envelope)
    (history : list Envelope) :
  Forall P history -> P payload -> Forall P (history_push payload history).
Proof.
  intros Hh Hp. unfold history_push. cbv zeta.
  assert (F : Forall P (history ++ [payload])).
  { apply Forall_app. split; [exact Hh | constructor; [exact Hp | constructor]]. }
  destruct (500 <? List.length (history ++ [payload]))%nat; [| exact F].
  destruct (history ++ [payload]) as [|x rest]; [exact F |].
  inversion F; assumption.
Qed.

Lemma handle_history_ok (env : Env) (e : Event) (st : State) :
  Forall envelope_ok (sensorHistory st) ->
  Forall envelope_ok (sensorHistory (state_of (handle env e st))).
Proof.
  intros H. destruct e as [i | now b | now b | now b].
  - cbn [handle].
    destruct (tick_history_origin env i st) as [E | [payload [record [Henc E]]]];
      rewrite E; [exact H |].
    apply history_push_Forall; [exact H |].
    apply (encryptJSON_envelope_ok _ _ _ _ _ Henc).
  - exact H.
  - rewrite (proj1 (handle_post_fan env now b st)), fan_keeps_history. exact H.
  - rewrite (proj1 (handle_post_settings env now b st)), settings_keeps_history. exact H.
Qed.

(** X28: when the [try] block of a tick throws while it builds the
    encrypted history entry, the failure is caught and logged with
    [console.error] and changes nothing of what follows: the new
    temperature, humidity and [lastUpdate] stay in the device state, the
    rest of the state and the history are as before the tick, both
    notifications are emitted, and the forwarding step is reached.  The
    tick ends as the forwarding step ends: when that returns, the events
    scheduled after the tick run from the state the tick leaves; when
    that throws, the exception leaves the tick, which nothing catches,
    and no later event happens. *)
Theorem X28_encryption_failure_is_caught (env : Env) (i : TickInput) (st : State)
    (msg : string) :
  record_history env (tick_pool i) (refresh env i st) = Throw msg ->
  let r := updateSensorData env i st in
  let st' := state_of r in
  let d := deviceState st in
  let d' := deviceState st' in
  temperature d' = generateRandomTemperature env (rnd_temperature i)
  /\ humidity d' = generateRandomHumidity env (rnd_humidity i)
  /\ lastUpdate d' = Some (tick_now i)
  /\ led d' = led d /\ fan d' = fan d /\ allowFanControl d' = allowFanControl d
  /\ currentEncAlgo st' = currentEncAlgo st
  /\ sensorHistory st' = sensorHistory st
  /\ effects_of r
     = ConsoleError "[ESP32 Simulator] Encrypt history error:" msg
       :: Emit "temperatureUpdated"
            (JObj [ ("temperature", JNum (temperature d'));
                    ("humidity", JNum (humidity d'));
                    ("timestamp", JDate (tick_now i)) ])
       :: Emit "dataHealthUpdated" (health_js (getDataHealth env (health_now i) st'))
       :: forwarded env st'
  /\ completion_of r = forwarding_ends env st'
  /\ (forall requests,
        sendToMainServer env st' = Ok requests ->
        completion_of r = Returned
        /\ forall rest, run env (Tick i :: rest) st = run env rest st')
  /\ (forall m,
        sendToMainServer env st' = Throw m ->
        completion_of r = Thrown m
        /\ forall rest, run env (Tick i :: rest) st = Throw m).
Proof.
  intros Hthrow.
  destruct (tick_parts env i st) as [Es [Ee Ec]]. cbv zeta in Es, Ee, Ec.
  assert (Et : try_history env (tick_pool i) (refresh env i st)
               = (refresh env i st,
                  [ ConsoleError "[ESP32 Simulator] Encrypt history error:" msg ])).
  { unfold try_history. rewrite Hthrow. reflexivity. }
  rewrite Et in Es, Ee, Ec. cbn [fst snd] in Es, Ee, Ec.
  cbv zeta. rewrite Es, Ee, Ec.
  split; [reflexivity | split; [reflexivity | split; [reflexivity |]]].
  split; [reflexivity | split; [reflexivity | split; [reflexivity |]]].
  split; [reflexivity | split; [reflexivity | split; [reflexivity |]]].
  split; [reflexivity |].
  split.
  - intros requests Hsend.
    assert (Hend : forwarding_ends env (refresh env i st) = Returned)
      by (unfold forwarding_ends; rewrite Hsend; reflexivity).
    split; [exact Hend |].
    intros rest. cbn [run handle]. rewrite Ec, Hend, Es. reflexivity.
  - intros m Hsend.
    assert (Hend : forwarding_ends env (refresh env i st) = Thrown m)
      by (unfold forwarding_ends; rewrite Hsend; reflexivity).
    split; [exact Hend |].
    intros rest. cbn [run handle]. rewrite Ec, Hend. reflexivity.
Qed.

(** ** Invariants of the running process *)

(** X6: in every state the process reaches, the active algorithm is AES
    or DES, whatever [ENC_ALGO] was at start and whatever [/settings] was
    sent: a lookup of the active algorithm in the registry always finds a
    profile. *)
Theorem X6_active_algorithm_registered (env : Env) (st : State) :
  reachable env st ->
  (currentEncAlgo st = "AES" \/ currentEncAlgo st = "DES")
  /\ exists p, ALGORITHMS_get (currentEncAlgo st) = Own p.
Proof.
  intros H. pose proof (reachable_algo_resolves env st H) as Hres.
  split; [apply resolves_iff, Hres |].
  destruct Hres as [p Hp]. exists p. apply ALGORITHMS_get_own, Hp.
Qed.

Lemma export_algoName_string (s : option string) (st : State) :
  exists algoName, export_algoName (option_map QString s) st = Ok algoName.
Proof.
  unfold export_algoName. destruct s as [[|c r] |]; cbn [option_map query_truthy];
    [eexists; reflexivity | | eexists; reflexivity].
  cbn [ToString bind]. eexists; reflexivity.
Qed.

(** X7: in every state the process reaches, [lastUpdate] holds a date:
    the health verdict is OK or STALE, never UNKNOWN, with an age, and
    the two encrypted exports never throw out of their handler on
    [toISOString]: for a parameter that is absent or a string they
    always answer, and for every other they answer whenever the
    parameter has a string. *)
Theorem X7_lastUpdate_always_set (env : Env) (st : State) :
  reachable env st ->
  (exists t, lastUpdate (deviceState st) = Some t)
  /\ (forall now,
        h_status (getDataHealth env now st) <> UNKNOWN
        /\ h_ageMs (getDataHealth env now st) <> None)
  /\ (forall pool (query_algo : option string),
        (exists r, get_sensor_encrypted env pool (option_map QString query_algo) st = Ok r)
        /\ (exists r,
              get_humidity_encrypted env pool (option_map QString query_algo) st = Ok r))
  /\ (forall pool query_algo algoName,
        export_algoName query_algo st = Ok algoName ->
        (exists r, get_sensor_encrypted env pool query_algo st = Ok r)
        /\ (exists r, get_humidity_encrypted env pool query_algo st = Ok r)).
Proof.
  intros H. pose proof (reachable_lastUpdate env st H) as Hl.
  destruct (lastUpdate (deviceState st)) as [t|] eqn:E; [| contradiction].
  assert (Hany : forall pool query_algo algoName,
             export_algoName query_algo st = Ok algoName ->
             (exists r, get_sensor_encrypted env pool query_algo st = Ok r)
             /\ (exists r, get_humidity_encrypted env pool query_algo st = Ok r)).
  { intros pool q algoName Hname.
    unfold get_sensor_encrypted, get_humidity_encrypted, lastUpdate_toISOString.
    rewrite Hname, E. cbn [bind]. split; eexists; reflexivity. }
  split; [exists t; reflexivity | split; [| split; [| exact Hany]]].
  - intros now. unfold getDataHealth. rewrite E. cbn [h_status h_ageMs].
    split; [destruct (within _ _); discriminate | discriminate].
  - intros pool q. destruct (export_algoName_string q st) as [algoName Hname].
    apply (Hany pool _ algoName Hname).
Qed.

(** X8: every entry of the history of a state the process reaches is a
    well-formed envelope: its algorithm is AES or DES, its [iv] decodes
    to the 16 or 8 bytes of that algorithm, and its [data] decodes to a
    whole, positive number of cipher blocks. *)
Theorem X8_history_entries_well_formed (env : Env) (st : State) :
  reachable env st -> Forall envelope_ok (sensorHistory st).
Proof.
  intros [t0 [events Hrun]].
  apply (run_invariant (fun s => Forall envelope_ok (sensorHistory s)) env
           (handle_history_ok env) events (initial_state env t0) st); [| exact Hrun].
  constructor.
Qed.

(** X9: a tick of a reachable state that is given 16 random bytes and
    whose record has a JSON text logs no error and appends exactly one
    envelope at the end of the history (dropping the oldest of 500): the
    envelope is under the active algorithm and encrypts the record of the
    values just generated; the tick emits [temperatureUpdated] and then
    [dataHealthUpdated], then makes the requests of the forwarding step
    and ends as that step ends; it leaves the active algorithm and the
    actuators as they were. *)
Theorem X9_tick_records_history (env : Env) (i : TickInput) (st : State) (json : string) :
  reachable env st ->
  (16 <= List.length (tick_pool i))%nat ->
  JSON_stringify
    (sensor_record (ISODate.toISOString (tick_now i)) (deviceState (refresh env i st)))
  = Ok json ->
  let r := updateSensorData env i st in
  exists payload,
    encryptJSON (tick_pool i)
      (sensor_record (ISODate.toISOString (tick_now i)) (deviceState (refresh env i st)))
      (currentEncAlgo st) (DATA_SECRET env) = Ok payload
    /\ algo payload = currentEncAlgo st
    /\ envelope_ok payload
    /\ sensorHistory (state_of r) = history_push payload (sensorHistory st)
    /\ last (sensorHistory (state_of r)) payload = payload
    /\ effects_of r
       = [ Emit "temperatureUpdated"
             (JObj [ ("temperature", JNum (generateRandomTemperature env (rnd_temperature i)));
                     ("humidity", JNum (generateRandomHumidity env (rnd_humidity i)));
                     ("timestamp", JDate (tick_now i)) ]);
           Emit "dataHealthUpdated"
             (health_js (getDataHealth env (health_now i) (state_of r))) ]
         ++ forwarded env (state_of r)
    /\ completion_of r = forwarding_ends env (state_of r)
    /\ currentEncAlgo (state_of r) = currentEncAlgo st
    /\ led (deviceState (state_of r)) = led (deviceState st)
    /\ fan (deviceState (state_of r)) = fan (deviceState st).
Proof.
  intros Hreach Hpool Hjson.
  destruct (reachable_algo_resolves env st Hreach) as [p Hp].
  assert (Hiv : (ivLen p <= List.length (tick_pool i))%nat).
  { destruct Hp as [E | [E | []]]; injection E as _ <-; cbn [ivLen]; lia. }
  destruct (encryptJSON_ok (tick_pool i) _ (currentEncAlgo st) (DATA_SECRET env) json p
              Hp Hiv Hjson) as [ctx [_ Henc]].
  destruct (tick_parts env i st) as [Es [Ee Ec]]. cbv zeta in Es, Ee, Ec.
  rewrite (tick_recorded env i st _ Henc) in Es, Ee, Ec. cbn [fst snd app] in Es, Ee, Ec.
  cbv zeta. rewrite Ee, Ec, Es.
  eexists. split; [exact Henc |].
  split; [reflexivity |].
  split; [apply (encryptJSON_envelope_ok _ _ _ _ _ Henc) |].
  cbn [with_sensorHistory sensorHistory].
  split; [reflexivity |].
  split.
  { unfold history_push. cbv zeta.
    destruct (500 <? _)%nat eqn:Efull.
    - destruct (sensorHistory st) as [|x rest]; [discriminate Efull |].
      cbn [app tl]. apply last_last.
    - apply last_last. }
  repeat split.
Qed.

(** X10: whatever happens in the history step, the health a tick
    broadcasts is the health of the data the tick has just written: its
    [lastUpdate] is the tick's own date, its age is the time between the
    tick's two clock readings, and it is OK exactly when that time is at
    most the maximum age, STALE otherwise. *)
Theorem X10_tick_health (env : Env) (i : TickInput) (st : State) :
  let h := getDataHealth env (health_now i) (state_of (updateSensorData env i st)) in
  In (Emit "dataHealthUpdated" (health_js h)) (effects_of (updateSensorData env i st))
  /\ h_lastUpdate h = Some (tick_now i)
  /\ h_ageMs h = Some (health_now i - tick_now i)
  /\ h_isFresh h = within (health_now i - tick_now i) (maxAge env)
  /\ (h_status h = OK <-> within (health_now i - tick_now i) (maxAge env) = true)
  /\ (h_status h = STALE <-> within (health_now i - tick_now i) (maxAge env) = false)
  /\ (forall m : Q,
        maxAge env = Finite m ->
        (h_status h = OK <-> (inject_Z (health_now i - tick_now i) <= m)%Q)
        /\ (h_status h = STALE <-> (m < inject_Z (health_now i - tick_now i))%Q)).
Proof.
  destruct (tick_parts env i st) as [Es [Ee _]]. cbv zeta in Es, Ee.
  cbv zeta. rewrite Ee, <- Es.
  split; [apply in_or_app; right; right; left; reflexivity |].
  unfold getDataHealth. rewrite tick_deviceState, refresh_lastUpdate.
  cbn [h_lastUpdate h_ageMs h_isFresh h_status].
  split; [reflexivity | split; [reflexivity | split; [reflexivity |]]].
  assert (Hverdict :
            forall b : bool,
              ((if b then OK else STALE) = OK <-> b = true)
              /\ ((if b then OK else STALE) = STALE <-> b = false)).
  { intros [|]; split; split; intros; try reflexivity; discriminate. }
  split; [apply Hverdict | split; [apply Hverdict |]].
  intros m Hm. rewrite Hm.
  destruct (within (health_now i - tick_now i) (Finite m)) eqn:E.
  - apply within_finite in E.
    split; split; intros; try reflexivity; try discriminate; try assumption; lra.
  - assert (Hgt : (m < inject_Z (health_now i - tick_now i))%Q).
    { destruct (Qlt_le_dec m (inject_Z (health_now i - tick_now i))) as [| Hle];
        [assumption |].
      apply within_finite in Hle. congruence. }
    split; split; intros; try reflexivity; try discriminate; try assumption; lra.
Qed.

(** ** Actuator control, the accepted calls *)

Lemma on_off_disjoint (v : JsValue) : on_repr v -> off_repr v -> False.
Proof.
  intros Hon Hoff. destruct Hon as [| q Hq |]; inversion Hoff; subst.
  match goal with H : (q == 0)%Q |- _ => rewrite Hq in H; discriminate H end.
Qed.

Lemma is_on_of (b : bool) (v : JsValue) :
  (if b then on_repr v else off_repr v) ->
  is_on v = b /\ (b = false -> is_off v = true).
Proof.
  destruct b; intros H.
  - split; [apply is_on_spec, H | discriminate].
  - split; [| intros _; apply is_off_spec, H].
    apply is_on_false. intros Hon. exact (on_off_disjoint v Hon H).
Qed.

(** X11: while fan control is allowed, a [/fan] call with an ON or an OFF
    representation sets [fan] to that value and [lastUpdate] to the time
    of the call, broadcasts [fanStateChanged] with both and answers 200
    with the new value; the LED, the sensor values, the settings and the
    history stay as they were. *)
Theorem X11_fan_switches (now : Z) (req_body : Body) (st : State) (b : bool) :
  allowFanControl (deviceState st) = true ->
  (if b then on_repr (get_field "state" req_body)
   else off_repr (get_field "state" req_body)) ->
  post_fan now req_body st
  = (with_deviceState st (set_lastUpdate (set_fan (deviceState st) b) (Some now)),
     [ Emit "fanStateChanged" (JObj [ ("fan", JBool b); ("timestamp", JDate now) ]) ],
     json [ ("success", JBool true);
            ("fan", JBool b);
            ("message", JStr (if b then "FAN ON" else "FAN OFF")) ]).
Proof.
  intros Hallow Hrepr. destruct (is_on_of b _ Hrepr) as [Hon Hoff].
  unfold post_fan. cbv zeta. rewrite Hallow, Hon. cbn [negb].
  destruct b; [reflexivity |]. rewrite (Hoff eq_refl). reflexivity.
Qed.

(** X12: a [/led] call with an ON or an OFF representation sets [led] to
    that value and [lastUpdate] to the time of the call, broadcasts
    [ledStateChanged] with both and answers 200 with the new value,
    whether fan control is allowed or not; nothing else changes. *)
Theorem X12_led_switches (now : Z) (req_body : Body) (st : State) (b : bool) :
  (if b then on_repr (get_field "state" req_body)
   else off_repr (get_field "state" req_body)) ->
  post_led now req_body st
  = (with_deviceState st (set_lastUpdate (set_led (deviceState st) b) (Some now)),
     [ Emit "ledStateChanged" (JObj [ ("led", JBool b); ("timestamp", JDate now) ]) ],
     json [ ("success", JBool true);
            ("led", JBool b);
            ("message", JStr (if b then "LED ON" else "LED OFF")) ]).
Proof.
  intros Hrepr. destruct (is_on_of b _ Hrepr) as [Hon Hoff].
  unfold post_led. cbv zeta. rewrite Hon.
  destruct b; [reflexivity |]. rewrite (Hoff eq_refl). reflexivity.
Qed.

(** ** Settings, the accepted calls *)

Lemma flag_of_spec (v : JsValue) : flag_of v = true <-> flag_repr v.
Proof.
  unfold flag_of. rewrite !orb_true_iff, !strict_eq_str_true, strict_eq_bool_true,
    strict_eq_num_true.
  split.
  - intros [[[-> | ->] | [q [-> Hq]]] | ->]; constructor. exact Hq.
  - intros H. destruct H;
      [left; left; left; reflexivity | left; left; right; reflexivity
      | left; right; eauto | right; reflexivity].
Qed.

Lemma settings_allowFanControl (env : Env) (now : Z) (req_body : Body) (st : State) :
  allowFanControl (deviceState (state_of (post_settings env now req_body st)))
  = if is_defined (get_field "allowFanControl" req_body)
    then flag_of (get_field "allowFanControl" req_body)
    else allowFanControl (deviceState st).
Proof.
  unfold post_settings. cbv zeta.
  destruct (is_defined _); destruct (get_field "algo" req_body); try reflexivity;
    destruct (truthy _); reflexivity.
Qed.

(** X13: no [/settings] call, accepted or rejected, touches the LED, the
    fan, the sensor values, [lastUpdate] or the history: unlike [/led]
    and [/fan] it does not renew the data, and the health it reports is
    the health the data had before the call. *)
Theorem X13_settings_frame (env : Env) (now : Z) (req_body : Body) (st : State) :
  let st' := state_of (post_settings env now req_body st) in
  led (deviceState st') = led (deviceState st)
  /\ fan (deviceState st') = fan (deviceState st)
  /\ temperature (deviceState st') = temperature (deviceState st)
  /\ humidity (deviceState st') = humidity (deviceState st)
  /\ lastUpdate (deviceState st') = lastUpdate (deviceState st)
  /\ sensorHistory st' = sensorHistory st
  /\ (forall t, getDataHealth env t st' = getDataHealth env t st)
  /\ (status (response_of (post_settings env now req_body st)) = 200 ->
      prop "dataHealth" (body (response_of (post_settings env now req_body st)))
      = health_js (getDataHealth env now st)).
Proof.
  unfold post_settings. cbv zeta.
  destruct (is_defined _); destruct (get_field "algo" req_body); cbn;
    try (repeat split; fail);
    destruct (truthy _); cbn; repeat split; discriminate.
Qed.

(** X14: a [/settings] call whose [algo] is the name of a registered
    algorithm in any letter case is accepted: the active algorithm
    becomes the name in upper case, [settingsUpdated] is broadcast with
    the stored flag and the new algorithm, and the answer is 200 with the
    same two values. *)
Theorem X14_settings_algorithm_any_case (env : Env) (now : Z) (req_body : Body)
    (st : State) (s : string) :
  get_field "algo" req_body = JStr s ->
  resolves (toUpperCase s) ->
  let r := post_settings env now req_body st in
  currentEncAlgo (state_of r) = toUpperCase s
  /\ effects_of r
     = [ Emit "settingsUpdated"
           (JObj [ ("allowFanControl", JBool (allowFanControl (deviceState (state_of r))));
                   ("encAlgo", JStr (toUpperCase s)) ]) ]
  /\ status (response_of r) = 200
  /\ prop "success" (body (response_of r)) = JBool true
  /\ prop "encAlgo" (body (response_of r)) = JStr (toUpperCase s)
  /\ prop "allowFanControl" (body (response_of r))
     = JBool (allowFanControl (deviceState (state_of r))).
Proof.
  intros Halgo Hres. apply truthy_upper_resolves in Hres.
  unfold post_settings. cbv zeta. rewrite Halgo, Hres.
  destruct (is_defined _); repeat split.
Qed.

(** X15: when a [/settings] call carries an [allowFanControl] field, the
    stored flag is true exactly when the field is [true], ['true'], [1]
    or ['1']; every other value, such as ['TRUE'], ['yes'], [2] or
    [null], stores false.  This holds for the rejected calls too. *)
Theorem X15_allowFanControl_coercion (env : Env) (now : Z) (req_body : Body)
    (st : State) :
  get_field "allowFanControl" req_body <> JUndefined ->
  (allowFanControl (deviceState (state_of (post_settings env now req_body st))) = true
   <-> flag_repr (get_field "allowFanControl" req_body)).
Proof.
  intros Hdef. rewrite settings_allowFanControl.
  destruct (get_field "allowFanControl" req_body) eqn:E; try contradiction;
    cbn [is_defined]; apply flag_of_spec.
Qed.

(** X16: the flag a [/settings] call stores governs the [/fan] calls that
    follow: after a call whose [allowFanControl] field is not one of the
    four set representations, every [/fan] call is refused with 403 and
    changes nothing; after a call with a set representation, a [/fan]
    call with an ON representation switches the fan on. *)
Theorem X16_settings_govern_fan (env : Env) (now : Z) (req_body : Body) (st : State)
    (now' : Z) (req_body' : Body) :
  get_field "allowFanControl" req_body <> JUndefined ->
  let st' := state_of (post_settings env now req_body st) in
  (~ flag_repr (get_field "allowFanControl" req_body) ->
   post_fan now' req_body' st' = (st', [], FanControlDisabled))
  /\ (flag_repr (get_field "allowFanControl" req_body) ->
      on_repr (get_field "state" req_body') ->
      fan (deviceState (state_of (post_fan now' req_body' st'))) = true
      /\ status (response_of (post_fan now' req_body' st')) = 200).
Proof.
  intros Hdef st'.
  assert (Hflag : allowFanControl (deviceState st')
                  = flag_of (get_field "allowFanControl" req_body)).
  { unfold st'. rewrite settings_allowFanControl.
    destruct (get_field "allowFanControl" req_body); try contradiction; reflexivity. }
  split.
  - intros Hno. unfold post_fan. cbv zeta. rewrite Hflag.
    destruct (flag_of _) eqn:E; [exfalso; apply Hno, flag_of_spec, E | reflexivity].
  - intros Hyes Hon. apply flag_of_spec in Hyes. apply is_on_spec in Hon.
    unfold post_fan. cbv zeta. rewrite Hflag, Hyes, Hon. split; reflexivity.
Qed.

(** ** Encrypted exports *)

Lemma export_algoName_registered (name : string) (p : AlgoProfile) (st : State) :
  In (name, p) ALGORITHMS ->
  export_algoName (Some (QString name)) st = Ok (QString name)
  /\ export_algoName (Some (QArray [QString name])) st = Ok (QArray [QString name])
  /\ ToString (QArray [QString name]) = Ok name.
Proof.
  intros Hin. destruct Hin as [E | [E | []]]; injection E as <- _;
    split; [reflexivity | split; reflexivity | reflexivity | split; reflexivity].
Qed.

(** X17: once a [/settings] call has switched the algorithm, the exports
    that name no algorithm are under the new one: the humidity export is
    answered 200 with an envelope whose [algo] is the upper-cased name
    and whose [iv] decodes to the [ivLen] random bytes of that algorithm,
    16 for AES and 8 for DES. *)
Theorem X17_settings_switch_exports (env : Env) (now : Z) (req_body : Body) (st : State)
    (s text : string) (p : AlgoProfile) (T : Z) (pool : list byte) :
  get_field "algo" req_body = JStr s ->
  In (toUpperCase s, p) ALGORITHMS ->
  lastUpdate (deviceState st) = Some T ->
  (ivLen p <= List.length pool)%nat ->
  JSON_stringify (humidity_record (ISODate.toISOString T) (deviceState st)) = Ok text ->
  let st' := state_of (post_settings env now req_body st) in
  exists e,
    get_humidity_encrypted env pool None st'
    = Ok ([], json [ ("encrypted", JBool true); ("algo", JStr (toUpperCase s));
                     ("iv", JStr (iv e)); ("data", JStr (data e)) ])
    /\ envelope_ok e
    /\ Base64.decode (iv e) = Some (firstn (ivLen p) pool)
    /\ List.length (firstn (ivLen p) pool) = ivLen p
    /\ (toUpperCase s = "AES" -> ivLen p = 16%nat)
    /\ (toUpperCase s = "DES" -> ivLen p = 8%nat).
Proof.
  intros Halgo Hin HT Hpool Hjson st'.
  assert (Hres : truthy (ALGORITHMS_get (toUpperCase s)) = true).
  { apply truthy_upper_resolves. exists p. exact Hin. }
  assert (Hst : currentEncAlgo st' = toUpperCase s
                /\ lastUpdate (deviceState st') = Some T
                /\ humidity (deviceState st') = humidity (deviceState st)).
  { unfold st', post_settings. cbv zeta. rewrite Halgo, Hres.
    destruct (is_defined _); repeat split; exact HT. }
  destruct Hst as [Ha [Hl Hh]].
  destruct (encryptJSON_ok pool _ (toUpperCase s) (DATA_SECRET env) text p Hin Hpool Hjson)
    as [ctx [_ Henc]].
  eexists. split; [| split; [apply (encryptJSON_envelope_ok _ _ _ _ _ Henc) |]].
  - unfold get_humidity_encrypted, lastUpdate_toISOString, export_algoName, encrypt_for.
    rewrite Hl, Ha. cbn [bind ToString]. unfold humidity_record. rewrite Hh.
    fold (humidity_record (ISODate.toISOString T) (deviceState st)).
    rewrite Henc. reflexivity.
  - cbn [iv]. split; [apply decode_encode |].
    split; [rewrite length_firstn; lia |].
    split; intros E; rewrite E in Hin;
      destruct Hin as [E' | [E' | []]]; try discriminate E';
      injection E' as <-; reflexivity.
Qed.

(** X18: an export that names a registered algorithm is under that
    algorithm whatever the active one is: the sensor export is answered
    200 with an envelope that carries the requested name and an [iv] of
    that algorithm's length.  (The handler has no access to the state but
    to read it, so the active algorithm stays as it was.)  A parameter
    that is an array of that one name ([?algo[]=DES]) is read as the
    name: the export is the same but for its [algo], which is the
    array. *)
Theorem X18_export_named_algorithm (env : Env) (pool : list byte) (name text : string)
    (p : AlgoProfile) (st : State) (T : Z) :
  In (name, p) ALGORITHMS ->
  lastUpdate (deviceState st) = Some T ->
  (ivLen p <= List.length pool)%nat ->
  JSON_stringify (sensor_record (ISODate.toISOString T) (deviceState st)) = Ok text ->
  export_algoName (Some (QString name)) st = Ok (QString name)
  /\ exists e,
       get_sensor_encrypted env pool (Some (QString name)) st
       = Ok ([], json [ ("encrypted", JBool true); ("algo", JStr name);
                        ("iv", JStr (iv e)); ("data", JStr (data e)) ])
       /\ encryptJSON pool (sensor_record (ISODate.toISOString T) (deviceState st))
            name (DATA_SECRET env) = Ok e
       /\ envelope_ok e
       /\ Base64.decode (iv e) = Some (firstn (ivLen p) pool)
       /\ get_sensor_encrypted env pool (Some (QArray [QString name])) st
          = Ok ([], json [ ("encrypted", JBool true); ("algo", JArr [JStr name]);
                           ("iv", JStr (iv e)); ("data", JStr (data e)) ]).
Proof.
  intros Hin HT Hpool Hjson.
  destruct (export_algoName_registered name p st Hin) as [Hname [Harray Hkey]].
  split; [exact Hname |].
  destruct (encryptJSON_ok pool _ name (DATA_SECRET env) text p Hin Hpool Hjson)
    as [ctx [_ Henc]].
  eexists. split; [| split; [exact Henc | split; [| split]]].
  - unfold get_sensor_encrypted, lastUpdate_toISOString, encrypt_for.
    rewrite Hname, HT. cbn [bind ToString]. rewrite Henc. reflexivity.
  - apply (encryptJSON_envelope_ok _ _ _ _ _ Henc).
  - apply decode_encode.
  - unfold get_sensor_encrypted, lastUpdate_toISOString, encrypt_for.
    rewrite Harray, HT. cbn [bind]. rewrite Hkey. cbn [bind]. rewrite Henc. reflexivity.
Qed.

Lemma prototype_key_lookup (name : string) :
  In name Object_prototype_keys ->
  ALGORITHMS_get name = Inherited /\ exists c r, name = String c r.
Proof.
  unfold Object_prototype_keys. cbn [In]. intros H.
  repeat (destruct H as [<- | H]; [split; [reflexivity | eexists; eexists; reflexivity] |]).
  contradiction.
Qed.

(** X19: an export that names a property every JavaScript object
    inherits, such as [constructor] or [toString], does not fall back to
    the active algorithm: the lookup finds the inherited value, the
    encryption fails on it, and the export is answered 500 with
    [encryption error], whatever the state and the entropy are. *)
Theorem X19_export_inherited_name (env : Env) (pool : list byte) (name : string)
    (st : State) (T : Z) :
  In name Object_prototype_keys ->
  lastUpdate (deviceState st) = Some T ->
  export_algoName (Some (QString name)) st = Ok (QString name)
  /\ (forall record secret, exists msg, encryptJSON pool record name secret = Throw msg)
  /\ (exists msg,
        get_sensor_encrypted env pool (Some (QString name)) st
        = Ok ([ ConsoleError "[ESP32 Simulator] /sensor_encrypted error:" msg ],
              EncryptionError))
  /\ (exists msg,
        get_humidity_encrypted env pool (Some (QString name)) st
        = Ok ([ ConsoleError "[ESP32 Simulator] /humidity_encrypted error:" msg ],
              EncryptionError)).
Proof.
  intros Hin HT. destruct (prototype_key_lookup name Hin) as [Hget [c [r ->]]].
  assert (Hname : export_algoName (Some (QString (String c r))) st
                  = Ok (QString (String c r))).
  { unfold export_algoName. cbn [query_truthy ToString bind]. rewrite Hget. reflexivity. }
  split; [exact Hname |].
  unfold get_sensor_encrypted, get_humidity_encrypted, lastUpdate_toISOString, encrypt_for.
  rewrite Hname, HT. cbn [bind ToString]. unfold encryptJSON. rewrite Hget.
  split; [intros record secret; eexists; reflexivity |].
  split; eexists; reflexivity.
Qed.

Lemma export_algoName_inv (query_algo : option QueryValue) (st : State)
    (algoName : QueryValue) :
  export_algoName query_algo st = Ok algoName ->
  algoName = QString (currentEncAlgo st)
  \/ (query_algo = Some algoName
      /\ exists key, ToString algoName = Ok key /\ truthy (ALGORITHMS_get key) = true).
Proof.
  unfold export_algoName. destruct query_algo as [q |];
    [| intros H; injection H as <-; left; reflexivity].
  destruct (query_truthy q); [| intros H; injection H as <-; left; reflexivity].
  destruct (ToString q) as [key | m] eqn:Ekey; cbn [bind]; [| discriminate].
  destruct (truthy (ALGORITHMS_get key)) eqn:Et; intros H; injection H as <-.
  - right. split; [reflexivity | exists key; split; [exact Ekey | exact Et]].
  - left. reflexivity.
Qed.

Lemma export_algoName_throws (query_algo : option QueryValue) (st : State) (m : string) :
  export_algoName query_algo st = Throw m ->
  exists q, query_algo = Some q /\ ToString q = Throw m.
Proof.
  unfold export_algoName. destruct query_algo as [q |]; [| discriminate].
  destruct (query_truthy q); [| discriminate].
  destruct (ToString q) as [key | m'] eqn:Ekey; cbn [bind]; [discriminate |].
  intros H. injection H as <-. exists q. split; [reflexivity | exact Ekey].
Qed.

(** X20: an export has three outcomes and no other.  It throws out of
    the handler, only when [lastUpdate] holds no date or the parameter is
    a value that has no string (an object with a [toString] entry of its
    own, [?algo[toString]=x], or an array that holds one).  Or it is
    answered 200 and logs nothing: the body carries a well-formed
    envelope whose [algo] is the name chosen as it was given, a string or
    the array or object of the request, the envelope being under the
    string of that name.  Or the encryption failed, and it is answered
    500 with the fixed body [encryption error], the message of the error
    going to [console.error] alone. *)
Theorem X20_export_outcomes (env : Env) (pool : list byte)
    (query_algo : option QueryValue) (st : State) :
  match get_sensor_encrypted env pool query_algo st with
  | Throw m =>
      lastUpdate (deviceState st) = None
      \/ exists q, query_algo = Some q /\ ToString q = Throw m
  | Ok (eff, r) =>
      (eff = [] /\ status r = 200
       /\ exists algoName e,
            export_algoName query_algo st = Ok algoName
            /\ ToString algoName = Ok (algo e)
            /\ envelope_ok e
            /\ body r = JObj [ ("encrypted", JBool true); ("algo", js_of_query algoName);
                               ("iv", JStr (iv e)); ("data", JStr (data e)) ])
      \/ (r = EncryptionError
          /\ exists msg,
               eff = [ ConsoleError "[ESP32 Simulator] /sensor_encrypted error:" msg ])
  end.
Proof.
  unfold get_sensor_encrypted, lastUpdate_toISOString.
  destruct (export_algoName query_algo st) as [algoName | m] eqn:Ename; cbn [bind].
  - destruct (lastUpdate (deviceState st)) as [T|]; cbn [bind]; [| left; reflexivity].
    unfold encrypt_for.
    destruct (ToString algoName) as [key | m] eqn:Ekey; cbn [bind].
    + destruct (encryptJSON _ _ _ _) as [e | msg] eqn:Henc; cbn [export_response].
      * left. split; [reflexivity | split; [reflexivity |]].
        exists algoName, e. split; [reflexivity |].
        split.
        { destruct (encryptJSON_envelope _ _ _ _ _ Henc) as [p [j [enc [_ [Ha _]]]]].
          rewrite Ekey, Ha. reflexivity. }
        split; [apply (encryptJSON_envelope_ok _ _ _ _ _ Henc) | reflexivity].
      * right. split; [reflexivity | exists msg; reflexivity].
    + right. split; [reflexivity | exists m; reflexivity].
  - right. apply (export_algoName_throws _ _ _ Ename).
Qed.

(** X21: the humidity export depends on the state only through the
    humidity, [lastUpdate] and the active algorithm: two states that
    agree on these get the same answer, whatever their temperature, LED,
    fan, flag and history are. *)
Theorem X21_humidity_export_reads (env : Env) (pool : list byte)
    (query_algo : option QueryValue) (st1 st2 : State) :
  humidity (deviceState st1) = humidity (deviceState st2) ->
  lastUpdate (deviceState st1) = lastUpdate (deviceState st2) ->
  currentEncAlgo st1 = currentEncAlgo st2 ->
  get_humidity_encrypted env pool query_algo st1
  = get_humidity_encrypted env pool query_algo st2.
Proof.
  intros Hh Hl Ha.
  unfold get_humidity_encrypted, lastUpdate_toISOString, export_algoName, humidity_record.
  rewrite Hh, Hl, Ha. reflexivity.
Qed.

(** ** Freshness *)

Lemma within_earlier (age1 age2 : Z) (M : double) :
  age1 <= age2 -> within age2 M = true -> within age1 M = true.
Proof.
  intros Hle. unfold within, Double.of_Z, Double.leb.
  destruct M as [m | neg |]; [| trivial | trivial].
  rewrite !Qle_bool_iff. intros H. rewrite Zle_Qle in Hle. lra.
Qed.

(** X22: staleness only grows with time: while [lastUpdate] stays the
    same, data found fresh at some time was fresh at every earlier time,
    and data found stale stays stale at every later time. *)
Theorem X22_health_monotone (env : Env) (st : State) (now1 now2 : Z) :
  now1 <= now2 ->
  (h_isFresh (getDataHealth env now2 st) = true ->
   h_isFresh (getDataHealth env now1 st) = true)
  /\ (h_status (getDataHealth env now1 st) = STALE ->
      h_status (getDataHealth env now2 st) = STALE).
Proof.
  intros Hle. unfold getDataHealth.
  destruct (lastUpdate (deviceState st)) as [t|];
    cbn [h_isFresh h_status]; [| split; [discriminate | discriminate]].
  assert (Hmono : within (now2 - t) (maxAge env) = true ->
                  within (now1 - t) (maxAge env) = true)
    by (apply within_earlier; lia).
  destruct (within (now1 - t) (maxAge env)), (within (now2 - t) (maxAge env));
    split; intros; try reflexivity; try discriminate.
  - apply Hmono. reflexivity.
  - discriminate (Hmono eq_refl).
Qed.

Lemma health_renewed (env : Env) (t now : Z) (st : State) :
  lastUpdate (deviceState st) = Some now ->
  within (t - now) (maxAge env) = true ->
  getDataHealth env t st
  = {| h_status := OK; h_ageMs := Some (t - now); h_isFresh := true;
       h_lastUpdate := Some now |}.
Proof.
  intros E H. unfold getDataHealth. rewrite E. cbv zeta. rewrite H. reflexivity.
Qed.

(** X23: an accepted actuator call renews the data as a tick does:
    after any [/led] call, and after a [/fan] call made with fan control
    allowed and an ON or OFF representation, the health read at any time
    within the maximum age after the call is OK, with the time since the
    call as its age, however old the sensor values are. *)
Theorem X23_actuator_calls_renew_health (env : Env) (now t : Z) (req_body : Body)
    (st : State) :
  within (t - now) (maxAge env) = true ->
  getDataHealth env t (state_of (post_led now req_body st))
  = {| h_status := OK; h_ageMs := Some (t - now); h_isFresh := true;
       h_lastUpdate := Some now |}
  /\ (allowFanControl (deviceState st) = true ->
      on_repr (get_field "state" req_body) \/ off_repr (get_field "state" req_body) ->
      getDataHealth env t (state_of (post_fan now req_body st))
      = {| h_status := OK; h_ageMs := Some (t - now); h_isFresh := true;
           h_lastUpdate := Some now |}).
Proof.
  intros H. split.
  - apply health_renewed; [reflexivity | exact H].
  - intros Hallow Hrepr. apply health_renewed; [| exact H].
    unfold post_fan. cbv zeta. rewrite Hallow. cbn [negb].
    destruct Hrepr as [Hon | Hoff].
    + apply is_on_spec in Hon. rewrite Hon. reflexivity.
    + destruct (is_on _); [reflexivity |].
      apply is_off_spec in Hoff. rewrite Hoff. reflexivity.
Qed.

(** ** Reading the state *)

(** X24: in every state the process reaches, the read-outs carry a date
    and a verdict, and agree with one another: [/sensor] and [/status]
    show the same date of last update, never [null]; [/data-health] shows
    the time since that date as [ageMs] and the status OK or STALE;
    [/status] carries that same health and the active algorithm, AES or
    DES, and the sensor values [/sensor] reports; and a new connection is
    sent, as [initialState], the body of [/status]. *)
Theorem X24_readouts_agree (env : Env) (now : Z) (st : State) :
  reachable env st ->
  exists t,
    prop "timestamp" (body (get_sensor st)) = JDate t
    /\ prop "lastUpdate" (body (get_status env now st)) = JDate t
    /\ prop "ageMs" (body (get_data_health env now st)) = JInt (now - t)
    /\ (prop "status" (body (get_data_health env now st)) = JStr "OK"
        \/ prop "status" (body (get_data_health env now st)) = JStr "STALE")
    /\ prop "dataHealth" (body (get_status env now st)) = body (get_data_health env now st)
    /\ (prop "encAlgo" (body (get_status env now st)) = JStr "AES"
        \/ prop "encAlgo" (body (get_status env now st)) = JStr "DES")
    /\ prop "temperature" (body (get_status env now st))
       = prop "temperature" (body (get_sensor st))
    /\ prop "humidity" (body (get_status env now st))
       = prop "humidity" (body (get_sensor st))
    /\ on_connection env now st = ("initialState", body (get_status env now st))
    /\ status (get_sensor st) = 200
    /\ status (get_status env now st) = 200
    /\ status (get_data_health env now st) = 200.
Proof.
  intros Hreach.
  pose proof (reachable_lastUpdate env st Hreach) as Hl.
  pose proof (proj1 (resolves_iff _) (reachable_algo_resolves env st Hreach)) as Ha.
  destruct (lastUpdate (deviceState st)) as [t|] eqn:E; [| contradiction].
  exists t.
  unfold get_sensor, get_status, get_data_health, on_connection, status_snapshot, json,
    getDataHealth.
  rewrite E.
  cbn [body status prop get_field String.eqb Ascii.eqb Bool.eqb js_date health_js
       h_status h_ageMs h_isFresh h_lastUpdate].
  split; [reflexivity | split; [reflexivity | split; [reflexivity |]]].
  split; [destruct (within (now - t) (maxAge env)); [left | right]; reflexivity |].
  split; [reflexivity |].
  split; [destruct Ha as [-> | ->]; [left | right]; reflexivity |].
  repeat split.
Qed.

(** X25: after a tick that returns, with [Math.random()] a double of
    [0, 1) and bounds that are integers [min <= max] of at most 2^51 in
    size, [/status] read within the maximum age shows a temperature and a
    humidity that are integers between their bounds, the date of the
    tick, the active algorithm, and a health that is OK. *)
Theorem X25_status_after_tick (env : Env) (i : TickInput) (st : State) (now : Z)
    (tmin tmax hmin hmax : Z) :
  Double.representable (rnd_temperature i) ->
  (0 <= rnd_temperature i)%Q -> (rnd_temperature i < 1)%Q ->
  Double.representable (rnd_humidity i) ->
  (0 <= rnd_humidity i)%Q -> (rnd_humidity i < 1)%Q ->
  is_integer (Double.or (env_TEMP_MIN env) 20) tmin ->
  is_integer (Double.or (env_TEMP_MAX env) 35) tmax ->
  - 2 ^ 51 <= tmin -> tmin <= tmax -> tmax <= 2 ^ 51 ->
  is_integer (Double.or (env_HUM_MIN env) 40) hmin ->
  is_integer (Double.or (env_HUM_MAX env) 80) hmax ->
  - 2 ^ 51 <= hmin -> hmin <= hmax -> hmax <= 2 ^ 51 ->
  completion_of (updateSensorData env i st) = Returned ->
  within (now - tick_now i) (maxAge env) = true ->
  let r := get_status env now (state_of (updateSensorData env i st)) in
  status r = 200
  /\ (exists k, tmin <= k <= tmax /\ prop "temperature" (body r) = JInt k)
  /\ (exists k, hmin <= k <= hmax /\ prop "humidity" (body r) = JInt k)
  /\ prop "lastUpdate" (body r) = JDate (tick_now i)
  /\ prop "encAlgo" (body r) = JStr (currentEncAlgo st)
  /\ prop "status" (prop "dataHealth" (body r)) = JStr "OK"
  /\ prop "isFresh" (prop "dataHealth" (body r)) = JBool true.
Proof.
  intros Htr Ht0 Ht1 Hhr Hh0 Hh1 Htmin Htmax Htlo Htle Hthi Hhmin Hhmax Hhlo Hhle Hhhi
    _ Hage.
  destruct (floor_range_bounds _ _ _ tmin tmax Htr Ht0 Ht1 Htmin Htmax Htlo Htle Hthi)
    as [kt [Hkt Et]].
  destruct (floor_range_bounds _ _ _ hmin hmax Hhr Hh0 Hh1 Hhmin Hhmax Hhlo Hhle Hhhi)
    as [kh [Hkh Eh]].
  cbv zeta. unfold get_status, status_snapshot, json, getDataHealth.
  rewrite tick_deviceState, tick_keeps_algo.
  cbn [body status prop get_field String.eqb Ascii.eqb Bool.eqb refresh deviceState
       with_deviceState set_lastUpdate set_humidity set_temperature lastUpdate
       temperature humidity js_date].
  rewrite Hage.
  split; [reflexivity |].
  split; [exists kt; split; [exact Hkt |];
          unfold generateRandomTemperature, JInt; rewrite Et; reflexivity |].
  split; [exists kh; split; [exact Hkh |];
          unfold generateRandomHumidity, JInt; rewrite Eh; reflexivity |].
  repeat split.
Qed.

(** ** Forwarding to the main server *)

Lemma is_request_logged (env : Env) (pool : list byte) (st : State) :
  filter is_request (snd (try_history env pool st)) = [].
Proof. unfold try_history. destruct (record_history env pool st); reflexivity. Qed.

Lemma sendToMainServer_off (env : Env) (st : State) :
  env_SEND_TO_MAIN_SERVER env <> Some "true" \/ nonempty (env_MAIN_SERVER_URL env) = false ->
  sendToMainServer env st = Ok [].
Proof.
  intros Hoff. unfold sendToMainServer. cbv zeta.
  destruct Hoff as [Hflag | Hurl].
  - destruct (env_SEND_TO_MAIN_SERVER env) as [s|]; [| reflexivity].
    destruct (String.eqb_spec s "true") as [-> | _]; [congruence | reflexivity].
  - rewrite Hurl, orb_true_r. reflexivity.
Qed.

Lemma sendToMainServer_on (env : Env) (st : State) (base : string) :
  env_SEND_TO_MAIN_SERVER env = Some "true" ->
  env_MAIN_SERVER_URL env = Some base ->
  base <> EmptyString ->
  sendToMainServer env st
  = (url <- new_URL "/api/sensor-data" base ;;
     Ok [ HttpPost (url_hostname url) (str_or (Some (url_port url)) "80") (url_pathname url)
            (JObj [ ("ip", JStr (String.append "localhost:" (str_or (env_PORT env) "4001")));
                    ("temperature", JNum (temperature (deviceState st)));
                    ("humidity", JNum (humidity (deviceState st)));
                    ("timestamp", js_date (lastUpdate (deviceState st))) ]) ]).
Proof.
  intros Hflag Hurl Hne. unfold sendToMainServer. cbv zeta. rewrite Hflag, Hurl.
  destruct base as [|c r]; [contradiction |]. reflexivity.
Qed.

(** X26: a tick makes a request to the main server only when
    [SEND_TO_MAIN_SERVER] is exactly the text [true] and
    [MAIN_SERVER_URL] is not empty; otherwise it makes none and returns.
    With both set, the tick parses [/api/sensor-data] against
    [MAIN_SERVER_URL].  When [new URL] returns, the tick makes exactly
    one request, the last thing it does, and returns: a POST to the host,
    port (80 when the URL names none) and path of the parsed URL, which
    carries the values the tick has just generated and the date of the
    tick.  When [new URL] throws, as it does for a [MAIN_SERVER_URL] that
    is not an absolute URL, the tick makes no request and the exception
    leaves it.  All this whether the history step of the tick succeeded
    or not. *)
Theorem X26_forwarding (env : Env) (i : TickInput) (st : State) :
  let r := updateSensorData env i st in
  (env_SEND_TO_MAIN_SERVER env <> Some "true" \/ nonempty (env_MAIN_SERVER_URL env) = false ->
   filter is_request (effects_of r) = [] /\ completion_of r = Returned)
  /\ (forall base,
        env_SEND_TO_MAIN_SERVER env = Some "true" ->
        env_MAIN_SERVER_URL env = Some base ->
        base <> EmptyString ->
        (forall url,
           new_URL "/api/sensor-data" base = Ok url ->
           let request :=
             HttpPost (url_hostname url)
               (if nonempty (Some (url_port url)) then url_port url else "80")
               (url_pathname url)
               (JObj [ ("ip", JStr (String.append "localhost:"
                                      (str_or (env_PORT env) "4001")));
                       ("temperature",
                        JNum (generateRandomTemperature env (rnd_temperature i)));
                       ("humidity", JNum (generateRandomHumidity env (rnd_humidity i)));
                       ("timestamp", JDate (tick_now i)) ]) in
           filter is_request (effects_of r) = [request]
           /\ last (effects_of r) request = request
           /\ completion_of r = Returned)
        /\ (forall m,
              new_URL "/api/sensor-data" base = Throw m ->
              filter is_request (effects_of r) = []
              /\ completion_of r = Thrown m)).
Proof.
  destruct (tick_parts env i st) as [_ [Ee Ec]]. cbv zeta in Ee, Ec.
  pose proof (is_request_logged env (tick_pool i) (refresh env i st)) as Hlogged.
  assert (Ed : deviceState (fst (try_history env (tick_pool i) (refresh env i st)))
               = deviceState (refresh env i st)).
  { rewrite <- tick_state. apply tick_deviceState. }
  cbv zeta. rewrite Ee, Ec. unfold forwarded, forwarding_ends.
  split.
  - intros Hoff. rewrite (sendToMainServer_off env _ Hoff), !filter_app, Hlogged.
    split; reflexivity.
  - intros base Hflag Hurl Hne.
    rewrite (sendToMainServer_on env _ base Hflag Hurl Hne), Ed.
    split.
    + intros url Hparse. rewrite Hparse. cbn [bind].
      rewrite !filter_app, Hlogged.
      split; [destruct (url_port url); reflexivity |].
      split; [| reflexivity].
      rewrite app_assoc.
      replace (str_or (Some (url_port url)) "80")
        with (if nonempty (Some (url_port url)) then url_port url else "80")
        by (destruct (url_port url); reflexivity).
      apply last_last.
    + intros m Hparse. rewrite Hparse. cbn [bind].
      rewrite !filter_app, Hlogged. split; reflexivity.
Qed.

(** X27: the address the simulator gives the main server in [ip] is the
    address it listens on exactly when [PORT] is set to a non-empty text:
    with [PORT] unset the server listens on port 4000 and reports
    [localhost:4001]. *)
Theorem X27_reported_port (env : Env) (st : State) (hostname port path : string)
    (postData : JsValue) :
  sendToMainServer env st = Ok [HttpPost hostname port path postData] ->
  (prop "ip" postData = JStr (String.append "localhost:" (PORT env))
   <-> nonempty (env_PORT env) = true)
  /\ (env_PORT env = None ->
      PORT env = "4000" /\ prop "ip" postData = JStr "localhost:4001").
Proof.
  unfold sendToMainServer, PORT. cbv zeta.
  destruct (negb _ || negb _); [discriminate |].
  destruct (new_URL _ _) as [url | m]; cbn [bind]; [| discriminate].
  intros H. injection H as _ _ _ <-. cbn [prop get_field String.eqb Ascii.eqb Bool.eqb].
  destruct (env_PORT env) as [[|c r]|]; cbn [str_or nonempty].
  - split; [split; [discriminate | discriminate] | discriminate].
  - split; [split; reflexivity | discriminate].
  - split; [split; [discriminate | discriminate] | split; reflexivity].
Qed.

End WithRuntime.

(** * The model run on concrete inputs *)

(** [encryptJSON] agrees with [openssl enc -aes-256-cbc] and [openssl enc
    -des-ede3-cbc] on the record of [sampled], under the key derived from
    the default secret. *)
Example encryptJSON_aes_openssl :
  encryptJSON Json.stringify pool16
    (sensor_record (ISODate.toISOString 1793556720123) (deviceState (sampled "AES")))
    "AES" "165743"
  = Ok {| algo := "AES";
          iv := "AAECAwQFBgcICQoLDA0ODw==";
          data := "WFVjvscdLhwnjRp0a9m+HmBhC+qKZEP+3PQexC7HFgKdy0YjShE0C4hF1FVSPzdi5ez5+N5xOERtsLe/Rc68JA+vap4HNdnVayKlv8TtqlE=" |}.
Proof. vm_compute. reflexivity. Qed.

Example encryptJSON_des_openssl :
  encryptJSON Json.stringify pool16
    (sensor_record (ISODate.toISOString 1793556720123) (deviceState (sampled "DES")))
    "DES" "165743"
  = Ok {| algo := "DES";
          iv := "AAECAwQFBgc=";
          data := "xy1SDHGp3xuqCt09HeYXlehpSpdqR4D+mG11yZfl5pvrlFuZ4BgkuRGPKL+Dw8tIE35ONE/q5JRALrLbSpBmr/WHxzZ06xuE" |}.
Proof. vm_compute. reflexivity. Qed.

Example sha_abc : hex (SHA256.digest (list_byte_of_string "abc")) = "ba7816bf8f01cfea414140de5dae2223b00361a396177a9cb410ff61f20015ad".
Proof. vm_compute. reflexivity. Qed.

Example iso_2026 : ISODate.toISOString 1793556720123 = "2026-11-01T18:12:00.123Z".
Proof. vm_compute. reflexivity. Qed.

Example iso_1969 : ISODate.toISOString (-1) = "1969-12-31T23:59:59.999Z".
Proof. vm_compute. reflexivity. Qed.

Example base64_foobar :
  Base64.encode (list_byte_of_string "foobar") = "Zm9vYmFy"
  /\ Base64.encode (list_byte_of_string "fooba") = "Zm9vYmE="
  /\ Base64.encode (list_byte_of_string "foob") = "Zm9vYg==".
Proof. vm_compute. auto. Qed.

Example deriveKey_default_secret :
  hex (deriveKey "165743" 32)
  = "6be51d6790c9f9e61a44bede9c31c233d3b92be08419f558cd189faa6298b108"
  /\ hex (deriveKey "165743" 24) = "6be51d6790c9f9e61a44bede9c31c233d3b92be08419f558".
Proof. vm_compute. auto. Qed.

(** [new URL] on the addresses of the samples. *)
Example new_URL_samples :
  URL.parse "/api/sensor-data" "http://main-server:3000"
  = Ok {| url_hostname := "main-server"; url_port := "3000";
          url_pathname := "/api/sensor-data" |}
  /\ URL.parse "/api/sensor-data" "http://main-server"
     = Ok {| url_hostname := "main-server"; url_port := "";
             url_pathname := "/api/sensor-data" |}
  /\ URL.parse "/api/sensor-data" "main-server" = Throw "Invalid URL".
Proof. vm_compute. auto. Qed.

(** Rounding shows in the generated values: for this value of
    [Math.random()], a multiple of 2^-52, the product with 41 is within
    2^-51 below 20 and is rounded to 20, so the humidity is 60, where
    the exact product would give 59. *)
Example generateRandomHumidity_rounds :
  generateRandomHumidity no_env (2196877867009998 # 4503599627370496) = Double.of_Z 60
  /\ Qfloor ((2196877867009998 # 4503599627370496) * 41) + 40 = 59
  /\ Double.round (2196877867009998 # 4503599627370496)
     = Finite (1098438933504999 # 2251799813685248).
Proof. vm_compute. auto. Qed.

(** [parseInt] on what [DATA_HEALTH_MAX_AGE_MS] may hold: white space of
    any kind is skipped (here a no-break space, U+00A0, in UTF-8), the
    digits are read up to the first character that is none, and a text
    without digits is [NaN]. *)
Example parseInt_samples :
  parseInt (Some (String (ascii_of_nat 194) (String (ascii_of_nat 160) "25")))
  = Double.of_Z 25
  /\ parseInt (Some "  -12px") = Double.of_Z (-12)
  /\ parseInt (Some "0x1f") = Double.of_Z 31
  /\ parseInt (Some "ms") = NaN
  /\ parseInt None = NaN
  /\ parseInt (Some "9007199254740993") = Double.of_Z 9007199254740992.
Proof. vm_compute. repeat split. Qed.

(** The state after the first tick of a process started with no variable
    set, and after a [/settings] call that asks for [des]. *)
Definition ticked : State :=
  state_of (updateSensorData Json.stringify URL.parse no_env (tick1 pool16) loaded).

Definition switched : State :=
  state_of
    (updateSensorData Json.stringify URL.parse no_env (tick1 pool16)
       (state_of (post_settings no_env 10 [("algo", JStr "des")] loaded))).

Lemma ticked_reachable : reachable Json.stringify URL.parse no_env ticked.
Proof. exists 0, [Tick (tick1 pool16)]. vm_compute. reflexivity. Qed.

Lemma switched_reachable : reachable Json.stringify URL.parse no_env switched.
Proof.
  exists 0, [PostSettings 10 [("algo", JStr "des")]; Tick (tick1 pool16)].
  vm_compute. reflexivity.
Qed.

Lemma loaded_reachable : reachable Json.stringify URL.parse no_env loaded.
Proof. exists 0, []. reflexivity. Qed.

Lemma representable_5_16 : Double.representable (5 # 16).
Proof. exists (5 # 16). split; [vm_compute; reflexivity | reflexivity]. Qed.

Lemma representable_1_2 : Double.representable (1 # 2).
Proof. exists (1 # 2). split; [vm_compute; reflexivity | reflexivity]. Qed.

Lemma is_integer_of_Z (z : Z) : is_integer (Double.of_Z z) z.
Proof. exists (inject_Z z). split; reflexivity. Qed.

(** ** The theorems at concrete inputs *)

Lemma C2_history_ring_buffer_witness :
  pushes (numbered 0 :: map numbered (seq 1 500)) = map numbered (seq 1 500)
  /\ ~ In (numbered 0) (pushes (numbered 0 :: map numbered (seq 1 500)))
  /\ (List.length (sensorHistory ticked) <= 500)%nat.
Proof.
  pose proof (C2_history_ring_buffer Json.stringify URL.parse) as [_ [H501 Hreach]].
  destruct (H501 (numbered 0) (map numbered (seq 1 500))) as [Heq Habsent].
  { rewrite length_map, length_seq. reflexivity. }
  split; [exact Heq | split].
  - apply Habsent. intros Hin. apply in_map_iff in Hin.
    destruct Hin as [n [Hn Hseq]]. apply in_seq in Hseq.
    assert (E : Json.decimal (Z.of_nat n) = Json.decimal (Z.of_nat 0))
      by (unfold numbered in Hn; congruence).
    clear Hn.
    do 501 (destruct n as [|n]; [first [lia | vm_compute in E; discriminate E] |]).
    lia.
  - apply (Hreach no_env). exact ticked_reachable.
Defined.

Lemma C3_deriveKey_witness :
  List.length (deriveKey "165743" 32) = 32%nat
  /\ List.length (deriveKey "165743" 24) = 24%nat.
Proof.
  destruct C3_deriveKey as [_ H].
  split.
  - apply (proj1 (H "165743" "AES"
                    {| cipher := "aes-256-cbc"; keyLen := 32; ivLen := 16 |}
                    (or_introl eq_refl))).
  - apply (proj1 (H "165743" "DES"
                    {| cipher := "des-ede3-cbc"; keyLen := 24; ivLen := 8 |}
                    (or_intror (or_introl eq_refl)))).
Defined.

Lemma C4_decrypt_encrypt_witness :
  (exists envelope,
      encryptJSON Json.stringify pool16
        (sensor_record (ISODate.toISOString 1793556720123) (deviceState (sampled "AES")))
        "AES" "165743" = Ok envelope
      /\ algo envelope = "AES"
      /\ decryptJSON Json.parse envelope "165743"
         = Ok (sensor_record (ISODate.toISOString 1793556720123)
                 (deviceState (sampled "AES"))))
  /\ (exists envelope,
        encryptJSON Json.stringify pool16
          (humidity_record (ISODate.toISOString 1793556720123) (deviceState (sampled "DES")))
          "DES" "another secret" = Ok envelope
        /\ algo envelope = "DES"
        /\ decryptJSON Json.parse envelope "another secret"
           = Ok (humidity_record (ISODate.toISOString 1793556720123)
                   (deviceState (sampled "DES")))).
Proof.
  split.
  - eapply (C4_decrypt_encrypt Json.stringify Json.parse pool16 _ "AES" "165743").
    + left. reflexivity.
    + simpl. lia.
    + vm_compute. reflexivity.
    + vm_compute. reflexivity.
  - eapply (C4_decrypt_encrypt Json.stringify Json.parse pool16 _ "DES" "another secret").
    + right. left. reflexivity.
    + simpl. lia.
    + vm_compute. reflexivity.
    + vm_compute. reflexivity.
Defined.

Lemma C7_export_unresolved_name_witness :
  export_algoName (Some (QString "aes")) (sampled "DES") = Ok (QString "DES")
  /\ exists r,
       get_sensor_encrypted Json.stringify no_env pool16 (Some (QString "aes"))
         (sampled "DES")
       = Ok ([], r)
       /\ status r = 200
       /\ prop "encrypted" (body r) = JBool true
       /\ prop "algo" (body r) = JStr "DES".
Proof.
  destruct (C7_export_unresolved_name Json.stringify no_env pool16 "aes" (sampled "DES")
              eq_refl) as [Hname [_ [_ [_ Hok]]]].
  split; [exact Hname |].
  eapply (Hok _ 1793556720123).
  - right. left. reflexivity.
  - reflexivity.
  - simpl. lia.
  - vm_compute. reflexivity.
Defined.

(** ** Counterexamples *)

(** C7 as the specification states it fails.  The name [XYZ] does not
    resolve, whatever its case, yet the export that requests it is
    answered with status 200 and an envelope under the active algorithm
    AES; and the name [des], which upper-cased is the registered [DES],
    is not looked up as [DES]: the export that requests it is encrypted
    under the active algorithm AES as well. *)
Lemma C7_counterexample :
  ~ resolves (toUpperCase "XYZ")
  /\ (exists r,
        get_sensor_encrypted Json.stringify no_env pool16 (Some (QString "XYZ"))
          (sampled "AES")
        = Ok ([], r)
        /\ status r = 200
        /\ prop "encrypted" (body r) = JBool true
        /\ prop "algo" (body r) = JStr "AES")
  /\ resolves (toUpperCase "des")
  /\ (exists r,
        get_sensor_encrypted Json.stringify no_env pool16 (Some (QString "des"))
          (sampled "AES")
        = Ok ([], r)
        /\ prop "algo" (body r) = JStr "AES"
        /\ prop "iv" (body r) = JStr "AAECAwQFBgcICQoLDA0ODw==").
Proof.
  split; [| split; [| split]].
  - intros H. apply resolves_iff in H. destruct H as [H | H]; discriminate H.
  - eexists. vm_compute. repeat split.
  - apply resolves_iff. right. reflexivity.
  - eexists. vm_compute. repeat split.
Qed.


(** ** The further properties at concrete inputs *)

Lemma X1_generated_values_in_range_witness :
  (exists k, 20 <= k <= 35 /\ generateRandomTemperature no_env (5 # 16) = Double.of_Z k)
  /\ (exists k, 40 <= k <= 80 /\ generateRandomHumidity no_env (5 # 16) = Double.of_Z k).
Proof.
  assert (H0 : (0 <= 5 # 16)%Q) by (unfold Qle; simpl; lia).
  assert (H1 : (5 # 16 < 1)%Q) by (unfold Qlt; simpl; lia).
  assert (P51 : 2 ^ 51 = 2251799813685248) by reflexivity.
  destruct (X1_generated_values_in_range no_env (5 # 16) representable_5_16 H0 H1)
    as [Ht Hh].
  split.
  - apply (Ht 20 35); [apply is_integer_of_Z | apply is_integer_of_Z | lia | lia | lia].
  - apply (Hh 40 80); [apply is_integer_of_Z | apply is_integer_of_Z | lia | lia | lia].
Defined.

Lemma X5_envelope_shape_witness :
  exists e,
    encryptJSON Json.stringify pool16
      (sensor_record (ISODate.toISOString 1793556720123) (deviceState (sampled "DES")))
      "DES" "165743" = Ok e
    /\ algo e = "DES"
    /\ envelope_ok e.
Proof.
  eexists. split; [exact encryptJSON_des_openssl |].
  destruct (X5_envelope_shape Json.stringify pool16 _ "DES" "165743" _
              encryptJSON_des_openssl) as [Ha [Hok _]].
  split; [exact Ha | exact Hok].
Defined.

Lemma X6_active_algorithm_registered_witness :
  currentEncAlgo switched = "AES" \/ currentEncAlgo switched = "DES".
Proof.
  apply (proj1 (X6_active_algorithm_registered Json.stringify URL.parse no_env switched
                  switched_reachable)).
Defined.

Lemma X7_lastUpdate_always_set_witness :
  h_status (getDataHealth no_env 20000 ticked) <> UNKNOWN
  /\ exists r,
       get_sensor_encrypted Json.stringify no_env [] (Some (QString "XYZ")) ticked = Ok r.
Proof.
  destruct (X7_lastUpdate_always_set Json.stringify URL.parse no_env ticked
              ticked_reachable)
    as [_ [Hhealth [Hexport _]]].
  split; [exact (proj1 (Hhealth 20000)) | exact (proj1 (Hexport [] (Some "XYZ")))].
Defined.

Lemma X8_history_entries_well_formed_witness :
  Forall envelope_ok (sensorHistory switched)
  /\ List.length (sensorHistory switched) = 1%nat.
Proof.
  split; [| vm_compute; reflexivity].
  apply (X8_history_entries_well_formed Json.stringify URL.parse no_env switched
           switched_reachable).
Defined.

Lemma X9_tick_records_history_witness :
  exists payload,
    sensorHistory
      (state_of (updateSensorData Json.stringify URL.parse no_env (tick1 pool16) loaded))
    = [payload]
    /\ algo payload = "AES"
    /\ envelope_ok payload
    /\ completion_of (updateSensorData Json.stringify URL.parse no_env (tick1 pool16) loaded)
       = Returned.
Proof.
  destruct (Json.stringify
              (sensor_record (ISODate.toISOString (tick_now (tick1 pool16)))
                 (deviceState
                    (refresh no_env (tick1 pool16) loaded))))
    as [text | msg] eqn:Htext; [| vm_compute in Htext; discriminate Htext].
  assert (Hpool : (16 <= List.length (tick_pool (tick1 pool16)))%nat)
    by (vm_compute; lia).
  destruct (X9_tick_records_history Json.stringify URL.parse no_env (tick1 pool16) loaded
              text loaded_reachable Hpool Htext)
    as [payload [_ [Ha [Hok [Hhist [_ [_ [Hend _]]]]]]]].
  exists payload.
  split; [exact Hhist | split; [exact Ha | split; [exact Hok |]]].
  cbv zeta in Hend. rewrite Hend. reflexivity.
Defined.

Lemma X11_fan_switches_witness :
  fan (deviceState (state_of (post_fan 7 [("state", JNum 1)] loaded))) = true
  /\ lastUpdate (deviceState (state_of (post_fan 7 [("state", JNum 1)] loaded))) = Some 7.
Proof.
  rewrite (X11_fan_switches 7 [("state", JNum 1)] loaded true eq_refl
             (on_number 1 (Qeq_refl 1))).
  split; reflexivity.
Defined.

Lemma X12_led_switches_witness :
  led (deviceState (state_of (post_led 7 [("state", JBool false)]
                                (state_of (post_led 3 [("state", JStr "ON")] loaded)))))
  = false.
Proof.
  rewrite (X12_led_switches 7 [("state", JBool false)] _ false off_false).
  reflexivity.
Defined.

Lemma X14_settings_algorithm_any_case_witness :
  currentEncAlgo (state_of (post_settings no_env 10 [("algo", JStr "des")] loaded)) = "DES"
  /\ status (response_of (post_settings no_env 10 [("algo", JStr "des")] loaded)) = 200.
Proof.
  assert (Hres : resolves (toUpperCase "des")).
  { exists {| cipher := "des-ede3-cbc"; keyLen := 24; ivLen := 8 |}.
    right. left. reflexivity. }
  destruct (X14_settings_algorithm_any_case no_env 10 [("algo", JStr "des")] loaded "des"
              eq_refl Hres) as [Ha [_ [Hs _]]].
  split; [exact Ha | exact Hs].
Defined.

Lemma X15_allowFanControl_coercion_witness :
  allowFanControl
    (deviceState (state_of (post_settings no_env 10 [("allowFanControl", JStr "1")] loaded)))
  = true
  /\ allowFanControl
       (deviceState
          (state_of (post_settings no_env 10 [("allowFanControl", JStr "TRUE")] loaded)))
     <> true.
Proof.
  split.
  - apply (X15_allowFanControl_coercion no_env 10 [("allowFanControl", JStr "1")] loaded).
    + discriminate.
    + exact flag_one_text.
  - intros H.
    apply (X15_allowFanControl_coercion no_env 10 [("allowFanControl", JStr "TRUE")] loaded)
      in H.
    + inversion H.
    + discriminate.
Defined.

Lemma X16_settings_govern_fan_witness :
  let st' := state_of (post_settings no_env 10 [("allowFanControl", JStr "yes")] loaded) in
  post_fan 11 [("state", JStr "ON")] st' = (st', [], FanControlDisabled).
Proof.
  assert (Hdef : get_field "allowFanControl" [("allowFanControl", JStr "yes")] <> JUndefined)
    by discriminate.
  destruct (X16_settings_govern_fan no_env 10 [("allowFanControl", JStr "yes")] loaded
              11 [("state", JStr "ON")] Hdef) as [Hoff _].
  apply Hoff. intros H. inversion H.
Defined.

Lemma X17_settings_switch_exports_witness :
  let st' := state_of (post_settings no_env 10 [("algo", JStr "des")] (sampled "AES")) in
  exists e,
    get_humidity_encrypted Json.stringify no_env pool16 None st'
    = Ok ([], json [ ("encrypted", JBool true); ("algo", JStr "DES");
                     ("iv", JStr (iv e)); ("data", JStr (data e)) ])
    /\ Base64.decode (iv e) = Some (firstn 8 pool16).
Proof.
  destruct (Json.stringify
              (humidity_record (ISODate.toISOString 1793556720123)
                 (deviceState (sampled "AES"))))
    as [text | msg] eqn:Htext; [| vm_compute in Htext; discriminate Htext].
  assert (Hpool : (8 <= List.length pool16)%nat) by (vm_compute; lia).
  destruct (X17_settings_switch_exports Json.stringify no_env 10 [("algo", JStr "des")]
              (sampled "AES") "des" text
              {| cipher := "des-ede3-cbc"; keyLen := 24; ivLen := 8 |}
              1793556720123 pool16 eq_refl (or_intror (or_introl eq_refl)) eq_refl
              Hpool Htext)
    as [e [Hexp [_ [Hiv _]]]].
  exists e. split; [exact Hexp | exact Hiv].
Defined.

Lemma X18_export_named_algorithm_witness :
  exists e,
    get_sensor_encrypted Json.stringify no_env pool16 (Some (QString "DES")) (sampled "AES")
    = Ok ([], json [ ("encrypted", JBool true); ("algo", JStr "DES");
                     ("iv", JStr (iv e)); ("data", JStr (data e)) ])
    /\ Base64.decode (iv e) = Some (firstn 8 pool16)
    /\ get_sensor_encrypted Json.stringify no_env pool16 (Some (QArray [QString "DES"]))
         (sampled "AES")
       = Ok ([], json [ ("encrypted", JBool true); ("algo", JArr [JStr "DES"]);
                        ("iv", JStr (iv e)); ("data", JStr (data e)) ]).
Proof.
  destruct (Json.stringify
              (sensor_record (ISODate.toISOString 1793556720123)
                 (deviceState (sampled "AES"))))
    as [text | msg] eqn:Htext; [| vm_compute in Htext; discriminate Htext].
  assert (Hpool : (8 <= List.length pool16)%nat) by (vm_compute; lia).
  destruct (X18_export_named_algorithm Json.stringify no_env pool16 "DES" text
              {| cipher := "des-ede3-cbc"; keyLen := 24; ivLen := 8 |}
              (sampled "AES") 1793556720123 (or_intror (or_introl eq_refl)) eq_refl
              Hpool Htext)
    as [_ [e [Hexp [_ [_ [Hiv Harray]]]]]].
  exists e. split; [exact Hexp | split; [exact Hiv | exact Harray]].
Defined.

Lemma X19_export_inherited_name_witness :
  exists msg,
    get_sensor_encrypted Json.stringify no_env pool16 (Some (QString "constructor"))
      (sampled "AES")
    = Ok ([ ConsoleError "[ESP32 Simulator] /sensor_encrypted error:" msg ],
          EncryptionError).
Proof.
  destruct (X19_export_inherited_name Json.stringify no_env pool16 "constructor"
              (sampled "AES") 1793556720123 (or_introl eq_refl) eq_refl)
    as [_ [_ [H _]]].
  exact H.
Defined.

(** The exports on parameters that are not strings: an object is looked
    up as [[object Object]], which names nothing, and the export falls
    back to the active algorithm; an object with a [toString] entry has
    no string, and the exception leaves the handler. *)
Example export_query_objects :
  export_algoName (Some (QObject [("k", QString "DES")])) (sampled "AES")
  = Ok (QString "AES")
  /\ get_sensor_encrypted Json.stringify no_env pool16
       (Some (QObject [("toString", QString "x")])) (sampled "AES")
     = Throw "Cannot convert object to primitive value"
  /\ export_algoName (Some (QArray [QString "DES"; QString "AES"])) (sampled "AES")
     = Ok (QString "AES").
Proof. vm_compute. repeat split. Qed.

Lemma X21_humidity_export_reads_witness :
  get_humidity_encrypted Json.stringify no_env pool16 None
    (with_deviceState (sampled "AES") (set_temperature (deviceState (sampled "AES")) (Finite 99)))
  = get_humidity_encrypted Json.stringify no_env pool16 None (sampled "AES").
Proof.
  apply (X21_humidity_export_reads Json.stringify no_env pool16 None
           (with_deviceState (sampled "AES")
              (set_temperature (deviceState (sampled "AES")) (Finite 99)))
           (sampled "AES") eq_refl eq_refl eq_refl).
Defined.

Lemma X22_health_monotone_witness :
  h_isFresh (getDataHealth no_env 5 loaded) = true.
Proof.
  assert (H : 5 <= 10000) by lia.
  apply (proj1 (X22_health_monotone no_env loaded 5 10000 H)).
  vm_compute. reflexivity.
Defined.

Lemma X23_actuator_calls_renew_health_witness :
  h_status (getDataHealth no_env 60000
              (state_of (post_led 50000 [("state", JStr "ON")] loaded))) = OK.
Proof.
  assert (H : within (60000 - 50000) (maxAge no_env) = true) by (vm_compute; reflexivity).
  rewrite (proj1 (X23_actuator_calls_renew_health no_env 50000 60000
                    [("state", JStr "ON")] loaded H)).
  reflexivity.
Defined.

Lemma X24_readouts_agree_witness :
  exists t,
    prop "timestamp" (body (get_sensor ticked)) = JDate t
    /\ prop "ageMs" (body (get_data_health no_env 6000 ticked)) = JInt (6000 - t).
Proof.
  destruct (X24_readouts_agree Json.stringify URL.parse no_env 6000 ticked ticked_reachable)
    as [t [Hs [_ [Hage _]]]].
  exists t. split; [exact Hs | exact Hage].
Defined.

Lemma X25_status_after_tick_witness :
  let r := get_status no_env 6000 ticked in
  (exists k, 20 <= k <= 35 /\ prop "temperature" (body r) = JInt k)
  /\ (exists k, 40 <= k <= 80 /\ prop "humidity" (body r) = JInt k)
  /\ prop "lastUpdate" (body r) = JDate 5000
  /\ prop "status" (prop "dataHealth" (body r)) = JStr "OK".
Proof.
  assert (Ht0 : (0 <= rnd_temperature (tick1 pool16))%Q) by (unfold Qle; simpl; lia).
  assert (Ht1 : (rnd_temperature (tick1 pool16) < 1)%Q) by (unfold Qlt; simpl; lia).
  assert (Hh0 : (0 <= rnd_humidity (tick1 pool16))%Q) by (unfold Qle; simpl; lia).
  assert (Hh1 : (rnd_humidity (tick1 pool16) < 1)%Q) by (unfold Qlt; simpl; lia).
  assert (P51 : 2 ^ 51 = 2251799813685248) by reflexivity.
  assert (Hlo20 : - 2 ^ 51 <= 20) by lia.
  assert (Hhi35 : 35 <= 2 ^ 51) by lia.
  assert (Hlo40 : - 2 ^ 51 <= 40) by lia.
  assert (Hhi80 : 80 <= 2 ^ 51) by lia.
  assert (Hle1 : 20 <= 35) by lia.
  assert (Hle2 : 40 <= 80) by lia.
  assert (Hend : completion_of
                   (updateSensorData Json.stringify URL.parse no_env (tick1 pool16) loaded)
                 = Returned) by (vm_compute; reflexivity).
  assert (Hage : within (6000 - tick_now (tick1 pool16)) (maxAge no_env) = true)
    by (vm_compute; reflexivity).
  destruct (X25_status_after_tick Json.stringify URL.parse no_env (tick1 pool16) loaded 6000
              20 35 40 80
              representable_5_16 Ht0 Ht1 representable_1_2 Hh0 Hh1
              (is_integer_of_Z 20) (is_integer_of_Z 35) Hlo20 Hle1 Hhi35
              (is_integer_of_Z 40) (is_integer_of_Z 80) Hlo40 Hle2 Hhi80
              Hend Hage) as [_ [Ht [Hh [Hl [_ [Hs _]]]]]].
  split; [exact Ht | split; [exact Hh | split; [exact Hl | exact Hs]]].
Defined.

Lemma X27_reported_port_witness :
  exists postData,
    sendToMainServer URL.parse env_forwarding loaded
    = Ok [HttpPost "main-server" "3000" "/api/sensor-data" postData]
    /\ PORT env_forwarding = "4000"
    /\ prop "ip" postData = JStr "localhost:4001".
Proof.
  eexists. split; [reflexivity |].
  apply (proj2 (X27_reported_port URL.parse env_forwarding loaded _ _ _ _ eq_refl)).
  reflexivity.
Defined.

Lemma X28_encryption_failure_is_caught_witness :
  let r := updateSensorData Json.stringify URL.parse no_env (tick1 []) loaded in
  lastUpdate (deviceState (state_of r)) = Some 5000
  /\ sensorHistory (state_of r) = []
  /\ hd_error (effects_of r)
     = Some (ConsoleError "[ESP32 Simulator] Encrypt history error:"
               "crypto.randomBytes: no entropy")
  /\ List.length (effects_of r) = 3%nat
  /\ completion_of r = Returned
  /\ run Json.stringify URL.parse no_env [Tick (tick1 []); Tick (tick1 pool16)] loaded
     = run Json.stringify URL.parse no_env [Tick (tick1 pool16)] (state_of r).
Proof.
  pose proof (X28_encryption_failure_is_caught Json.stringify URL.parse no_env (tick1 [])
                loaded "crypto.randomBytes: no entropy" eq_refl) as H.
  cbv zeta in H.
  destruct H as [_ [_ [Hlast [_ [_ [_ [_ [Hhist [Heff [_ [Hok _]]]]]]]]]]].
  destruct (Hok [] eq_refl) as [Hend Hrun].
  cbv zeta. split; [exact Hlast | split; [exact Hhist |]].
  rewrite Heff.
  split; [reflexivity | split; [reflexivity | split; [exact Hend | apply Hrun]]].
Defined.
